(** * Interview console: guide/answer reconciliation, HTTP client and store

    A shallow embedding of the pure and state-passing parts of the client:
    the text classifier and prompt/question partitioner, the answer
    aligner (InterviewModal.tsx and download.ts), the version list sort,
    the HTTP helpers of azure.ts and the interviews store; further the
    guides store, the save and edit handlers of the modal, the text of a
    questionnaire and the parser of guide files, the upload form and the
    interviewer filter of the admin table.

    Strings are sequences of code units below 256 (the Latin-1 range of a
    JavaScript string), so [String.length] is the JavaScript [length]. *)

From Stdlib Require Import ZArith String Ascii List Permutation Sorted Lia Bool.
From stdpp Require Import base decidable option list strings gmap.

Import ListNotations.

(** ** JavaScript string primitives *)

Module JsString.

(** WhiteSpace and LineTerminator code units below 256: TAB, LF, VT, FF,
    CR, SPACE and NO-BREAK SPACE. Both [trim] and the regex class [\s]
    use this set. *)
Definition is_space (c : ascii) : bool :=
  let n := nat_of_ascii c in
  (Nat.leb 9 n && Nat.leb n 13) || Nat.eqb n 32 || Nat.eqb n 160.

Fixpoint trimStart (s : string) : string :=
  match s with
  | EmptyString => EmptyString
  | String c s' => if is_space c then trimStart s' else s
  end.

Fixpoint trimEnd (s : string) : string :=
  match s with
  | EmptyString => EmptyString
  | String c s' =>
      match trimEnd s' with
      | EmptyString => if is_space c then EmptyString else String c EmptyString
      | t => String c t
      end
  end.

Definition trim (s : string) : string := trimEnd (trimStart s).

(** [toLowerCase] on one code unit: A-Z, and the Latin-1 capitals
    U+00C0..U+00DE except the multiplication sign U+00D7. *)
Definition lower_char (c : ascii) : ascii :=
  let n := nat_of_ascii c in
  if (Nat.leb 65 n && Nat.leb n 90)
     || (Nat.leb 192 n && Nat.leb n 222 && negb (Nat.eqb n 215))
  then ascii_of_nat (n + 32) else c.

Fixpoint toLowerCase (s : string) : string :=
  match s with
  | EmptyString => EmptyString
  | String c s' => String (lower_char c) (toLowerCase s')
  end.

(** [s.startsWith(p)] *)
Fixpoint startsWith (s p : string) {struct p} : bool :=
  match p, s with
  | EmptyString, _ => true
  | String a p', String b s' => Ascii.eqb a b && startsWith s' p'
  | String _ _, EmptyString => false
  end.

(** [s.includes(t)] *)
Fixpoint includes (s t : string) : bool :=
  startsWith s t ||
  match s with
  | EmptyString => false
  | String _ s' => includes s' t
  end.

(** The double quote character, code unit 34. *)
Definition dquote : ascii := Ascii false true false false false true false false.

(** Truthiness of a string: only the empty string is falsy. *)
Definition nonEmpty (s : string) : bool :=
  match s with EmptyString => false | String _ _ => true end.

End JsString.

(** ** Regular expressions, as far as the source uses them *)

Module Regex.

Inductive regex : Type :=
| Void : regex
| Eps : regex
| Class (p : ascii -> bool) : regex
| Seq (r1 r2 : regex) : regex
| Alt (r1 r2 : regex) : regex
| Star (r : regex) : regex.

(** The language of a regex. *)
Inductive lang : regex -> string -> Prop :=
| lang_eps : lang Eps EmptyString
| lang_class p c : p c = true -> lang (Class p) (String c EmptyString)
| lang_seq r1 r2 s1 s2 : lang r1 s1 -> lang r2 s2 -> lang (Seq r1 r2) (s1 ++ s2)
| lang_alt_l r1 r2 s : lang r1 s -> lang (Alt r1 r2) s
| lang_alt_r r1 r2 s : lang r2 s -> lang (Alt r1 r2) s
| lang_star_nil r : lang (Star r) EmptyString
| lang_star_cons r s1 s2 : lang r s1 -> lang (Star r) s2 -> lang (Star r) (s1 ++ s2).

Fixpoint nullable (r : regex) : bool :=
  match r with
  | Void => false
  | Eps => true
  | Class _ => false
  | Seq r1 r2 => nullable r1 && nullable r2
  | Alt r1 r2 => nullable r1 || nullable r2
  | Star _ => true
  end.

Fixpoint deriv (c : ascii) (r : regex) : regex :=
  match r with
  | Void => Void
  | Eps => Void
  | Class p => if p c then Eps else Void
  | Seq r1 r2 =>
      if nullable r1 then Alt (Seq (deriv c r1) r2) (deriv c r2)
      else Seq (deriv c r1) r2
  | Alt r1 r2 => Alt (deriv c r1) (deriv c r2)
  | Star r' => Seq (deriv c r') (Star r')
  end.

(** [/^r$/.test(s)]: the whole of [s] matches [r]. *)
Fixpoint test (r : regex) (s : string) : bool :=
  match s with
  | EmptyString => nullable r
  | String c s' => test (deriv c r) s'
  end.

Definition Opt (r : regex) : regex := Alt Eps r.
Definition Chr (c : ascii) : regex := Class (Ascii.eqb c).

End Regex.

(** ** Text classifier: [isValidQuestionText] (download.ts 77-95,
    InterviewModal.tsx 206-224; the two copies are identical) *)

Module TextClassifier.
Import JsString Regex.
Local Open Scope string_scope.

(** [[\[\]{}]] *)
Definition is_bracket (c : ascii) : bool :=
  Ascii.eqb c "[" || Ascii.eqb c "]" || Ascii.eqb c "{" || Ascii.eqb c "}".

Definition ws : regex := Star (Class is_space).

(** [/^\s*[\[\]{}]\s*,?\s*$/] *)
Definition re_bracket_comma : regex :=
  Seq ws (Seq (Class is_bracket) (Seq ws (Seq (Opt (Chr ",")) ws))).

(** [/^\s*[\[\]{}]\s*$/] *)
Definition re_bracket : regex :=
  Seq ws (Seq (Class is_bracket) ws).

(** The keys ["questions":] and ["prompts":] with their quotes. *)
Definition key_questions : string :=
  String dquote ("questions" ++ String dquote ":").
Definition key_prompts : string :=
  String dquote ("prompts" ++ String dquote ":").

Definition isValidQuestionText (text : string) : bool :=
  if negb (nonEmpty text) then false
  else
    let trimmed := trim text in
    negb
      (String.eqb trimmed "{" ||
       String.eqb trimmed "}" ||
       String.eqb trimmed "[" ||
       String.eqb trimmed "]" ||
       String.eqb trimmed "]," ||
       String.eqb trimmed "}," ||
       String.eqb trimmed (key_questions ++ " [") ||
       String.eqb trimmed (key_prompts ++ " [") ||
       startsWith trimmed key_questions ||
       startsWith trimmed key_prompts ||
       test re_bracket_comma trimmed ||
       test re_bracket trimmed).

End TextClassifier.

(** ** Data model (lib/types.ts) *)

Module Types.

Record VerbatimQuote : Type := {
  quote : string;
  note : option string
}.

Record AnswerBlock : Type := {
  question : string;
  answer : string;
  quotes : option (list VerbatimQuote);
  reasoning : option string
}.

Record Guide : Type := {
  guide_id : string;
  guide_name : string;
  questions : list string;
  prompts : option (list string);
  questionnaireId : option string
}.

Record Interview : Type := {
  id : string;
  guideId : string;
  guideName : string;
  interviewer : string;
  date : string;
  village : string;
  farmerName : string;
  audioFile : string;
  status : string;
  answers : list AnswerBlock;
  hindiTranscript : option string;
  englishTranscript : option string;
  audioId : option string;
  uploadUrl : option string
}.

End Types.

(** ** Analysis payloads

    The analysis result is untyped JSON ([Array<any>]) in the source. An
    entry of [result.questions] is modelled with the fields the client
    reads, at the types of the backend contract (the index a number, the
    texts strings, the quotes an array of objects); [None] is an absent
    field ([undefined]). A string field holding
    JSON [null] behaves in every test of the source like the empty string
    (falsy, and [!== undefined]) and is represented by [Some EmptyString].
    [verbatimQuotes] is [Some] exactly when [Array.isArray] holds, and its
    elements are objects. *)

Module Analysis.
Import JsString.

Inductive IndexField : Type :=
| IndexAbsent                (* undefined *)
| IndexNull                  (* null *)
| IndexNum (n : Z).

Record RawQuote : Type := {
  rq_quote : option string;
  rq_note : option string
}.

Record Entry : Type := {
  q_index : IndexField;
  q_answerSummary : option string;
  q_questionText : option string;
  q_response : option string;
  q_promptText : option string;
  q_verbatimQuotes : option (list RawQuote);
  q_reasoning : option string
}.

(** An element of [result.questions]: an object, or anything that fails
    [q && typeof q === "object" && !Array.isArray(q)] (null, a string, a
    number, an array). *)
Inductive ResultItem : Type :=
| ItemObject (e : Entry)
| ItemOther.

(** An element of [result.prompts]; an element that is not an object
    reads as one with every field absent. *)
Record PromptEntry : Type := {
  p_index : IndexField;
  p_promptText : option string;
  p_response : option string
}.

(** The object literal [{}]. *)
Definition emptyEntry : Entry :=
  {| q_index := IndexAbsent; q_answerSummary := None; q_questionText := None;
     q_response := None; q_promptText := None; q_verbatimQuotes := None;
     q_reasoning := None |}.

(** Truthiness of an optional string field. *)
Definition truthy (o : option string) : bool :=
  match o with
  | Some s => nonEmpty s
  | None => false
  end.

(** [x !== undefined] *)
Definition defined {A} (o : option A) : bool :=
  match o with Some _ => true | None => false end.

Definition indexDefined (i : IndexField) : bool :=
  match i with IndexAbsent => false | _ => true end.

(** [q.index === k] for an array position [k]. *)
Definition indexIs (i : IndexField) (k : nat) : bool :=
  match i with
  | IndexNum n => Z.eqb n (Z.of_nat k)
  | _ => false
  end.

(** [o || ""] *)
Definition orEmpty (o : option string) : string :=
  match o with
  | Some s => s
  | None => EmptyString
  end.

(** [o || undefined] *)
Definition orUndefined (o : option string) : option string :=
  match o with
  | Some s => if nonEmpty s then Some s else None
  | None => None
  end.

(** [s.trim().toLowerCase()] *)
Definition normalize (s : string) : string := toLowerCase (trim s).

(** The quotes of an answer block, shared by every aligner:
    [Array.isArray(found?.verbatimQuotes) ? found.verbatimQuotes.map(...)
    : undefined], then [allQuotes && allQuotes.length > 0 ? allQuotes :
    undefined]. *)
Definition allQuotes (found : Entry) : option (list Types.VerbatimQuote) :=
  match q_verbatimQuotes found with
  | Some vqs =>
      Some (map (fun vq => {| Types.quote := orEmpty (rq_quote vq);
                              Types.note := orUndefined (rq_note vq) |}) vqs)
  | None => None
  end.

Definition quotesField (found : Entry) : option (list Types.VerbatimQuote) :=
  match allQuotes found with
  | Some l => if Nat.ltb 0 (length l) then Some l else None
  | None => None
  end.

End Analysis.

(** ** InterviewModal.tsx: partitioner and answer aligner (lines 149-366) *)

Module InterviewModal.
Import JsString TextClassifier Types Analysis.

(** What the client reads of [await getQuestionnaire(interview.guideId)]
    in the fallback of lines 268-301. The object that [getQuestionnaire] of
    azure.ts builds has no [questions] property, which is [fq_questions =
    None] here; the fallback is modelled for any answer. *)
Record FetchedQuestionnaire : Type := {
  fq_questions : option (list string);
  fq_prompts : option (list string)
}.

(** Lines 167-171: [new Set(resultPrompts.filter(p => p && p.promptText)
    .map(p => p.promptText.trim().toLowerCase()))]. *)
Definition promptTexts (resultPrompts : list PromptEntry) : gset string :=
  list_to_set
    (map (fun p => normalize (orEmpty (p_promptText p)))
         (List.filter (fun p => truthy (p_promptText p)) resultPrompts)).

Definition indexNumber (i : IndexField) : option Z :=
  match i with
  | IndexNum n => Some n
  | _ => None
  end.

(** Lines 174-178: the indices of the prompts that have one. *)
Definition promptIndices (resultPrompts : list PromptEntry) : gset Z :=
  list_to_set (omap (fun p => indexNumber (p_index p)) resultPrompts).

(** [promptIndices.has(q.index)] *)
Definition hasIndex (s : gset Z) (i : IndexField) : bool :=
  match i with
  | IndexNum n => bool_decide (n ∈ s)
  | _ => false
  end.

(** [q.response && !q.answerSummary && !q.questionText] *)
Definition responseOnly (q : Entry) : bool :=
  truthy (q_response q) && negb (truthy (q_answerSummary q))
  && negb (truthy (q_questionText q)).

(** The callback of [resultQs.filter] at lines 182-203. *)
Definition isValidQuestion (pTexts : gset string) (pIndices : gset Z)
    (item : ResultItem) : bool :=
  match item with
  | ItemOther => false
  | ItemObject q =>
      if truthy (q_promptText q) then false
      else if truthy (q_questionText q)
              && bool_decide (normalize (orEmpty (q_questionText q)) ∈ pTexts)
      then false
      else if responseOnly q then false
      else if indexDefined (q_index q) && hasIndex pIndices (q_index q)
              && (truthy (q_response q) && negb (truthy (q_answerSummary q)))
      then false
      else defined (q_answerSummary q)
           || (indexDefined (q_index q) && truthy (q_questionText q))
  end.

Definition entryOf (item : ResultItem) : option Entry :=
  match item with
  | ItemObject q => Some q
  | ItemOther => None
  end.

Definition validQuestions (resultQs : list ResultItem)
    (resultPrompts : list PromptEntry) : list Entry :=
  omap entryOf
    (List.filter (isValidQuestion (promptTexts resultPrompts)
                                  (promptIndices resultPrompts)) resultQs).

(** Lines 227-231 and 273-277: [(prompts || []).filter(p => p && typeof p
    === "string").map(p => p.trim().toLowerCase())]. *)
Definition normalizedPrompts (ps : option (list string)) : gset string :=
  list_to_set (map normalize (List.filter nonEmpty (default [] ps))).

(** Line 234 *)
Definition allPromptTexts (guide : Guide) (resultPrompts : list PromptEntry)
    : gset string :=
  promptTexts resultPrompts ∪ normalizedPrompts (prompts guide).

(** [shorter.length / longer.length >= 0.8]. The lengths are integers far
    below 2^53 and the quotient is correctly rounded, so the comparison
    with the double nearest to 0.8 agrees with the exact [5 * shorter >=
    4 * longer]; [0 / 0] is NaN, which compares false. *)
Definition ratioAtLeast08 (shorter longer : nat) : bool :=
  Nat.ltb 0 longer && Nat.leb (4 * longer) (5 * shorter).

(** Lines 253-257 (and 317-319): the near-duplicate test of one prompt. *)
Definition nearDuplicate (normalizedQText promptText : string) : bool :=
  let longer :=
    if Nat.ltb (String.length promptText) (String.length normalizedQText)
    then normalizedQText else promptText in
  let shorter :=
    if Nat.ltb (String.length promptText) (String.length normalizedQText)
    then promptText else normalizedQText in
  ratioAtLeast08 (String.length shorter) (String.length longer)
  && includes longer shorter.

(** Lines 244-261 (and 312-322): [true] when the callback returns false
    because of a prompt. The loop over the set returns at the first hit,
    so it is an existential over the elements. *)
Definition matchesPrompt (all : gset string) (normalizedQText : string) : bool :=
  bool_decide (normalizedQText ∈ all)
  || existsb (fun promptText =>
                String.eqb normalizedQText promptText
                || nearDuplicate normalizedQText promptText)
             (elements all).

(** Lines 238-264 *)
Definition validGuideQuestions (guide : Guide) (all : gset string) : list string :=
  List.filter (fun qText =>
                 isValidQuestionText qText
                 && negb (matchesPrompt all (normalize qText)))
              (questions guide).

(** Lines 287-293: the looser test of the fallback. *)
Definition closeToPrompt (normalizedQText promptText : string) : bool :=
  (includes normalizedQText promptText || includes promptText normalizedQText)
  && Z.ltb (Z.abs (Z.of_nat (String.length normalizedQText)
                   - Z.of_nat (String.length promptText))) 10.

(** Lines 267-301. [fetched] is [None] when [getQuestionnaire] throws. The
    guard [interview.guideId] holds here (line 131 returned otherwise). *)
Definition questionsToUse (guide : Guide) (all : gset string)
    (fetched : option FetchedQuestionnaire) : list string :=
  let valid := validGuideQuestions guide all in
  if Nat.eqb (length valid) 0 then
    match fetched with
    | Some questionnaire =>
        match fq_questions questionnaire with
        | Some qs =>
            let allQuestionnairePrompts :=
              all ∪ normalizedPrompts (fq_prompts questionnaire) in
            List.filter (fun qText =>
                           isValidQuestionText qText
                           && negb (bool_decide (normalize qText ∈ allQuestionnairePrompts))
                           && negb (existsb (closeToPrompt (normalize qText))
                                            (elements allQuestionnairePrompts)))
                        qs
        | None => valid
        end
    | None => valid
    end
  else valid.

(** Lines 305-324: [questionsToUse.map((qText, originalIndex) => ...)
    .filter(...)]. *)
Definition filteredQuestionsWithIndices (all : gset string)
    (toUse : list string) : list (string * nat) :=
  List.filter (fun '(qText, _) => negb (matchesPrompt all (normalize qText)))
              (imap (fun originalIndex qText => (qText, originalIndex)) toUse).

(** [found.promptText || (found.response && !found.answerSummary &&
    !found.questionText)] *)
Definition looksLikePrompt (found : Entry) : bool :=
  truthy (q_promptText found) || responseOnly found.

(** Lines 327-348: the entry an answer is read from. *)
Definition findEntry (valid : list Entry) (i originalIndex : nat) : Entry :=
  let found := List.find (fun q => indexIs (q_index q) originalIndex) valid in
  let found :=
    match found with
    | Some f => Some f
    | None =>
        match valid !! i with
        | Some candidate =>
            if negb (truthy (q_promptText candidate))
               && negb (responseOnly candidate)
            then Some candidate else None
        | None => None
        end
    end in
  let found := default emptyEntry found in
  if looksLikePrompt found then emptyEntry else found.

(** Lines 350-361 *)
Definition answerBlock (qText : string) (found : Entry) : AnswerBlock :=
  {| question := qText;
     answer := orEmpty (q_answerSummary found);
     quotes := quotesField found;
     reasoning := None |}.

(** Lines 326-362 *)
Definition mapped (valid : list Entry) (filtered : list (string * nat))
    : list AnswerBlock :=
  imap (fun i '(qText, originalIndex) =>
          answerBlock qText (findEntry valid i originalIndex))
       filtered.

(** Lines 149-363: the answers passed to [setAnswers], or [None] when the
    guard of line 165 fails and the answers are left as they were. *)
Definition loadAnswers (guide : option Guide) (resultQs : list ResultItem)
    (resultPrompts : list PromptEntry) (fetched : option FetchedQuestionnaire)
    : option (list AnswerBlock) :=
  match guide with
  | Some g =>
      if Nat.ltb 0 (length resultQs) then
        let all := allPromptTexts g resultPrompts in
        Some (mapped (validQuestions resultQs resultPrompts)
                     (filteredQuestionsWithIndices all (questionsToUse g all fetched)))
      else None
  | None => None
  end.

(** The list called [filteredQuestions] in the design: the texts that
    reach the aligner. *)
Definition filteredQuestions (guide : Guide) (resultPrompts : list PromptEntry)
    (fetched : option FetchedQuestionnaire) : list string :=
  let all := allPromptTexts guide resultPrompts in
  map fst (filteredQuestionsWithIndices all (questionsToUse guide all fetched)).

End InterviewModal.

(** ** download.ts: [ensureInterviewAnswers], lines 70-129 *)

Module Download.
Import JsString TextClassifier Types Analysis.

(** Lines 72-74 *)
Definition isValidQuestion (item : ResultItem) : bool :=
  match item with
  | ItemOther => false
  | ItemObject q => defined (q_answerSummary q) || indexDefined (q_index q)
  end.

Definition validQuestions (resultQs : list ResultItem) : list Entry :=
  omap InterviewModal.entryOf (List.filter isValidQuestion resultQs).

(** Line 98 *)
Definition validGuideQuestions (guideQuestions : list string) : list string :=
  List.filter isValidQuestionText guideQuestions.

(** Lines 101-112 *)
Definition findEntry (valid : list Entry) (i : nat) : Entry :=
  let found := List.find (fun q => indexIs (q_index q) i) valid in
  let found :=
    match found with
    | Some f => Some f
    | None => valid !! i
    end in
  default emptyEntry found.

(** Lines 114-126 *)
Definition answerBlock (qText : string) (found : Entry) : AnswerBlock :=
  {| question := qText;
     answer := orEmpty (q_answerSummary found);
     quotes := quotesField found;
     reasoning := orUndefined (q_reasoning found) |}.

(** Lines 100-127 *)
Definition mapped (valid : list Entry) (validGuide : list string) : list AnswerBlock :=
  imap (fun i qText => answerBlock qText (findEntry valid i)) validGuide.

(** Lines 70-134 once the guide is known: the mapped answers, or the
    empty list when the analysis has no questions. *)
Definition alignAnswers (guideQuestions : list string)
    (resultQs : list ResultItem) : list AnswerBlock :=
  if Nat.ltb 0 (length resultQs) then
    mapped (validQuestions resultQs) (validGuideQuestions guideQuestions)
  else [].

End Download.

(** ** InterviewModal.tsx: [loadVersions], lines 67-105, and the request of
    lines 133-147 *)

Module Versions.

(** [AnalysisListItem] of azure.ts, as far as it is read here. *)
Record AnalysisListItem : Type := {
  ali_version : Z;
  ali_lastModified : option string
}.

Record VersionInfo : Type := {
  version : Z;
  model : string;
  lastModified : string
}.

(** [Array.prototype.sort(compare)]: the sort is stable, so for a
    consistent comparator its result is the one of a stable insertion
    sort. [compare a b < 0] puts [a] first. *)
Fixpoint insertSorted {A} (compare : A -> A -> Z) (x : A) (l : list A) : list A :=
  match l with
  | [] => [x]
  | y :: l' =>
      if Z.leb (compare x y) 0 then x :: y :: l'
      else y :: insertSorted compare x l'
  end.

Fixpoint sort {A} (compare : A -> A -> Z) (l : list A) : list A :=
  match l with
  | [] => []
  | x :: l' => insertSorted compare x (sort compare l')
  end.

(** [(a, b) => b.version - a.version] *)
Definition byVersionDescending (a b : VersionInfo) : Z := version b - version a.

(** The options passed to [getAnalysis]. *)
Inductive AnalysisOpts : Type :=
| OptVersion (v : Z)
| OptLatest.

Section Backend.
(** The model name read from [getAnalysis(..., {version})]; [None]
    when the call throws or the payload has none. *)
Variable modelOf : Z -> option string.
(** [new Date().toISOString()] *)
Variable now : string.
(** The payload the backend serves for a request. *)
Variable Payload : Type.
Variable getAnalysis : AnalysisOpts -> Payload.

(** Lines 75-90 *)
Definition versionsWithModel (allAnalyses : list AnalysisListItem)
    : list VersionInfo :=
  map (fun a =>
         {| version := ali_version a;
            model := default EmptyString (modelOf (ali_version a));
            lastModified :=
              match ali_lastModified a with
              | Some s => if JsString.nonEmpty s then s else now
              | None => now
              end |})
      allAnalyses.

(** Line 91 *)
Definition sorted (allAnalyses : list AnalysisListItem) : list VersionInfo :=
  sort byVersionDescending (versionsWithModel allAnalyses).

(** Lines 93-96: [selectedVersion] after loading; it stays [null] for
    an empty list. *)
Definition selectedVersion (allAnalyses : list AnalysisListItem) : option Z :=
  match sorted allAnalyses with
  | v :: _ => Some (version v)
  | [] => None
  end.

(** Line 146: [versionToLoad ? { version: versionToLoad } : { latest:
    true }]; the number 0 is falsy. *)
Definition optsFor (versionToLoad : option Z) : AnalysisOpts :=
  match versionToLoad with
  | Some v => if Z.eqb v 0 then OptLatest else OptVersion v
  | None => OptLatest
  end.

(** The payload shown on the main page once the versions are loaded;
    nothing is fetched while [selectedVersion] is [null] (line 134). *)
Definition resolveLatest (allAnalyses : list AnalysisListItem) : option Payload :=
  match selectedVersion allAnalyses with
  | Some v => Some (getAnalysis (optsFor (Some v)))
  | None => None
  end.
End Backend.

End Versions.

(** ** lib/azure.ts *)

Module Azure.
Import JsString.

(** A parsed JSON value. *)
#[local] Unset Elimination Schemes.
Inductive Json : Type :=
| JNull
| JBool (b : bool)
| JNumber (n : Z)
| JString (s : string)
| JArray (items : list Json)
| JObject (fields : list (string * Json)).
#[local] Set Elimination Schemes.

Definition truthy (v : Json) : bool :=
  match v with
  | JNull => false
  | JBool b => b
  | JNumber n => negb (Z.eqb n 0)
  | JString s => nonEmpty s
  | JArray _ | JObject _ => true
  end.

(** The own properties of a parsed object, one binding per key. *)
Fixpoint lookupField (key : string) (fields : list (string * Json)) : option Json :=
  match fields with
  | [] => None
  | (k, v) :: rest => if String.eqb k key then Some v else lookupField key rest
  end.

(** [v.key] for a value that is not null; [None] is [undefined]. *)
Definition getField (v : Json) (key : string) : option Json :=
  match v with
  | JObject fields => lookupField key fields
  | _ => None
  end.

(** [Array.isArray(v)] *)
Definition isArray (v : Json) : bool :=
  match v with JArray _ => true | _ => false end.

(** [typeof v === "object"] *)
Definition typeofObject (v : Json) : bool :=
  match v with JNull | JArray _ | JObject _ => true | _ => false end.

(** Truthiness of a property that may be [undefined]. *)
Definition truthyField (x : option Json) : bool :=
  match x with Some v => truthy v | None => false end.

(** [x || []] *)
Definition orEmptyArray (x : option Json) : Json :=
  match x with
  | Some v => if truthy v then v else JArray []
  | None => JArray []
  end.

(** What the client reads of a [Response]. [text] is [None] when
    [response.text()] rejects; [json] is the parsed body, [None] when
    [response.json()] rejects (empty body, or not JSON). *)
Record Response : Type := {
  status : Z;
  statusText : string;
  text : option string;
  json : option Json
}.

(** [response.ok] *)
Definition ok (r : Response) : bool :=
  Z.leb 200 (status r) && Z.leb (status r) 299.

(** The result of [await fetch(...)]. *)
Inductive FetchResult : Type :=
| FailedToFetch                       (* TypeError("Failed to fetch") *)
| FetchThrew (e : string)             (* any other rejection *)
| Resolved (response : Response).

Inductive Error : Type :=
| ConfigError                         (* "Azure base URL is not configured. ..." *)
| CorsError                           (* "CORS error: ..." *)
| HttpError (operation : string) (status : Z) (errorText : string)
| OtherError (e : string).            (* rethrown unchanged *)

Inductive Outcome (A : Type) : Type :=
| Returned (a : A)
| Thrown (e : Error).
Arguments Returned {A} a.
Arguments Thrown {A} e.

(** The common frame of every helper: the base URL check, then
    [try { ... } catch (error) { ... throw }] around the request. *)
Definition withFetch {A} (BASE_URL : string) (fetched : FetchResult)
    (body : Response -> Outcome A) : Outcome A :=
  if negb (nonEmpty BASE_URL) then Thrown ConfigError
  else
    match fetched with
    | FailedToFetch => Thrown CorsError
    | FetchThrew e => Thrown (OtherError e)
    | Resolved response => body response
    end.

(** Lines 74-126 *)
Definition listRecords (BASE_URL : string) (fetched : FetchResult) : Outcome Json :=
  withFetch BASE_URL fetched (fun response =>
    if Z.eqb (status response) 204 then Returned (JArray [])
    else if negb (ok response) then
      Thrown (HttpError "list records" (status response)
                        (default EmptyString (text response)))
    else
      match json response with
      | None => Returned (JArray [])
      | Some raw =>
          if isArray raw then Returned raw
          else if truthy raw && typeofObject raw
                  && truthyField (getField raw "records")
          then Returned (orEmptyArray (getField raw "records"))
          else Returned (JArray [])
      end).

Record DeleteResult : Type := {
  deleted : Json;
  missing : Json
}.

(** [{ deleted: result.deleted || [], missing: result.missing || [] }];
    reading a property of [null] throws a TypeError. *)
Definition deleteResultOf (result : Json) : Outcome DeleteResult :=
  match result with
  | JNull => Thrown (OtherError "TypeError")
  | _ => Returned {| deleted := orEmptyArray (getField result "deleted");
                     missing := orEmptyArray (getField result "missing") |}
  end.

(** Lines 500-535 *)
Definition deleteQuestionnaire (BASE_URL : string) (questionnaireId : string)
    (fetched : FetchResult) : Outcome DeleteResult :=
  withFetch BASE_URL fetched (fun response =>
    if negb (ok response) then
      Thrown (HttpError "delete questionnaire" (status response)
                        (default "Unknown error"%string (text response)))
    else
      match json response with
      | None => Thrown (OtherError "SyntaxError")
      | Some result => deleteResultOf result
      end).

(** Lines 542-589 *)
Definition deleteRecord (BASE_URL : string) (audioId : string)
    (fetched : FetchResult) : Outcome DeleteResult :=
  withFetch BASE_URL fetched (fun response =>
    if Z.eqb (status response) 404 then
      Returned {| deleted := JArray []; missing := JArray [JString audioId] |}
    else if negb (ok response) then
      Thrown (HttpError "delete record" (status response)
                        (default "Unknown error"%string (text response)))
    else
      deleteResultOf (default (JObject []) (json response))).

(** Lines 754-775 *)
Definition deleteAnalysis (BASE_URL : string) (audioId questionnaireId : string)
    (fetched : FetchResult) : Outcome Json :=
  withFetch BASE_URL fetched (fun response =>
    if negb (ok response) then
      Thrown (HttpError "delete analysis" (status response)
                        (default EmptyString (text response)))
    else
      match json response with
      | None => Thrown (OtherError "SyntaxError")
      | Some result => Returned result
      end).

(** *** [pollForTranscripts], lines 599-649 *)

Inductive TranscriptStatus : Type := pending | ready.

Record TranscriptResponse : Type := {
  tr_status : TranscriptStatus;
  tr_data : option string
}.

Inductive Event : Type :=
| CallGetTranscript (attempt : Z)
| CallGetTranslation (attempt : Z)
| OnProgress (message : string)
| Sleep (ms : Z).

Record Transcripts : Type := {
  hindiTranscript : option string;
  englishTranscript : option string
}.

(** [resp.status === "ready" && resp.data], inside [try/catch]: the data
    that is stored, if any. A throwing call stores nothing. *)
Definition readyData (o : Outcome TranscriptResponse) : option string :=
  match o with
  | Returned resp =>
      match tr_status resp, tr_data resp with
      | ready, Some d => if nonEmpty d then Some d else None
      | _, _ => None
      end
  | Thrown _ => None
  end.

Definition isSet (t : option string) : bool :=
  match t with
  | Some s => nonEmpty s
  | None => false
  end.

Section Poll.
(** The outcome of the call made during attempt [n]. *)
Variable getTranscript : Z -> Outcome TranscriptResponse.
Variable getTranslation : Z -> Outcome TranscriptResponse.
Variable maxAttempts : Z.
Variable intervalMs : Z.

(** One round of lines 613-636 for one of the two texts. *)
Definition tryGet (current : option string) (call : Event)
    (o : Outcome TranscriptResponse) (message : string)
    : option string * list Event :=
  if isSet current then (current, [])
  else
    match readyData o with
    | Some d => (Some d, [call; OnProgress message])
    | None => (current, [call])
    end.

(** The [while] loop. [fuel] bounds the unfolding; [None] is running
    out of it. The result carries the final value of [attempts] and the
    trace of calls and sleeps. *)
Fixpoint pollLoop (fuel : nat) (attempts : Z) (hindi english : option string)
    : option (Transcripts * Z * list Event) :=
  if Z.ltb attempts maxAttempts then
    match fuel with
    | O => None
    | S fuel' =>
        let attempts := (attempts + 1)%Z in
        let '(hindi, ev1) :=
          tryGet hindi (CallGetTranscript attempts) (getTranscript attempts)
                 "Hindi transcript ready" in
        let '(english, ev2) :=
          tryGet english (CallGetTranslation attempts) (getTranslation attempts)
                 "English translation ready" in
        if isSet hindi && isSet english then
          Some ({| hindiTranscript := hindi; englishTranscript := english |},
                attempts, ev1 ++ ev2)
        else
          match pollLoop fuel' attempts hindi english with
          | Some (r, n, evs) => Some (r, n, ev1 ++ ev2 ++ Sleep intervalMs :: evs)
          | None => None
          end
    end
  else
    Some ({| hindiTranscript := hindi; englishTranscript := english |},
          attempts, []).

Definition pollFrom (fuel : nat) : option (Transcripts * Z * list Event) :=
  pollLoop fuel 0 None None.
End Poll.

(** The exported function with its default arguments; the loop is given
    [maxAttempts] units of fuel. *)
Definition pollForTranscripts
    (getTranscript getTranslation : Z -> Outcome TranscriptResponse)
    (maxAttempts intervalMs : option Z) : option (Transcripts * Z * list Event) :=
  let maxAttempts := default 30%Z maxAttempts in
  let intervalMs := default 2000%Z intervalMs in
  pollFrom getTranscript getTranslation maxAttempts intervalMs (Z.to_nat maxAttempts).

End Azure.

(** ** store/interviews.ts *)

Module InterviewsStore.
Import Types.

(** [Omit<Interview, "id">]. For an optional property, [None] is an
    absent key and [Some v] a present key with value [v]. *)
Record InterviewData : Type := {
  d_guideId : string;
  d_guideName : string;
  d_interviewer : string;
  d_date : string;
  d_village : string;
  d_farmerName : string;
  d_audioFile : string;
  d_status : string;
  d_answers : list AnswerBlock;
  d_hindiTranscript : option (option string);
  d_englishTranscript : option (option string);
  d_audioId : option (option string);
  d_uploadUrl : option (option string)
}.

(** [data.key] for an optional property. *)
Definition read {A} (p : option (option A)) : option A :=
  match p with
  | Some v => v
  | None => None
  end.

(** [{ ...existing, ...data }] on one optional property. *)
Definition spread {A} (existing : option A) (p : option (option A)) : option A :=
  match p with
  | Some v => v
  | None => existing
  end.

(** [i.audioId === data.audioId && i.guideId === data.guideId] *)
Definition sameAudioAndGuide (audio : option string) (guide : string)
    (i : Interview) : bool :=
  bool_decide (audioId i = audio) && String.eqb (guideId i) guide.

(** Lines 236-238 *)
Definition findByAudioAndGuide (interviews : list Interview)
    (audio : option string) (guide : string) : option Interview :=
  List.find (sameAudioAndGuide audio guide) interviews.

(** [{ ...existing, ...data, id: existing.id }] *)
Definition merge (existing : Interview) (data : InterviewData) : Interview :=
  {| id := id existing;
     guideId := d_guideId data;
     guideName := d_guideName data;
     interviewer := d_interviewer data;
     date := d_date data;
     village := d_village data;
     farmerName := d_farmerName data;
     audioFile := d_audioFile data;
     status := d_status data;
     answers := d_answers data;
     hindiTranscript := spread (hindiTranscript existing) (d_hindiTranscript data);
     englishTranscript := spread (englishTranscript existing) (d_englishTranscript data);
     audioId := spread (audioId existing) (d_audioId data);
     uploadUrl := spread (uploadUrl existing) (d_uploadUrl data) |}.

(** [{ ...data, id }] *)
Definition create (uuid : string) (data : InterviewData) : Interview :=
  {| id := uuid;
     guideId := d_guideId data;
     guideName := d_guideName data;
     interviewer := d_interviewer data;
     date := d_date data;
     village := d_village data;
     farmerName := d_farmerName data;
     audioFile := d_audioFile data;
     status := d_status data;
     answers := d_answers data;
     hindiTranscript := read (d_hindiTranscript data);
     englishTranscript := read (d_englishTranscript data);
     audioId := read (d_audioId data);
     uploadUrl := read (d_uploadUrl data) |}.

(** Lines 213-220. [uuid] is the value of [crypto.randomUUID()]. *)
Definition addInterview (uuid : string) (data : InterviewData)
    (interviews : list Interview) : list Interview :=
  interviews ++ [create uuid data].

(** Lines 227-230 *)
Definition deleteInterview (target : string) (interviews : list Interview)
    : list Interview :=
  List.filter (fun i => negb (String.eqb (id i) target)) interviews.

(** Lines 240-251: the new store and the returned interview. [uuid] is
    the value [crypto.randomUUID()] would return. *)
Definition upsertByAudioAndGuide (uuid : string) (data : InterviewData)
    (interviews : list Interview) : list Interview * Interview :=
  match List.find (sameAudioAndGuide (read (d_audioId data)) (d_guideId data))
                  interviews with
  | Some existing =>
      let updated := merge existing data in
      (map (fun i => if String.eqb (id i) (id existing) then updated else i)
           interviews,
       updated)
  | None =>
      let created := create uuid data in
      (interviews ++ [created], created)
  end.

(** The key of the claim. *)
Definition key (i : Interview) : option string * string := (audioId i, guideId i).

End InterviewsStore.

(** ** The statements of the design, in its own words *)

Module Design.
Import JsString TextClassifier.
Local Open Scope string_scope.

(** White space only. *)
Fixpoint allSpace (s : string) : bool :=
  match s with
  | EmptyString => true
  | String c s' => is_space c && allSpace s'
  end.

Definition startsWithSpace (s : string) : bool :=
  match s with
  | EmptyString => false
  | String c _ => is_space c
  end.

Fixpoint endsWithSpace (s : string) : bool :=
  match s with
  | EmptyString => false
  | String c EmptyString => is_space c
  | String _ s' => endsWithSpace s'
  end.

(** A structural token: one of the six literal tokens, a single bracket
    with optional comma and surrounding white space, or a line that
    begins with one of the two JSON keys. *)
Definition StructuralToken (t : string) : Prop :=
  In t ["{"; "}"; "["; "]"; "],"; "},"]
  \/ Regex.lang re_bracket_comma t
  \/ (exists rest, t = key_questions ++ rest)
  \/ (exists rest, t = key_prompts ++ rest).

Import Types Analysis InterviewModal.

(** [e] is the first entry of [valid] whose index field is the number
    [k]. *)
Definition FirstWithIndex (valid : list Entry) (k : nat) (e : Entry) : Prop :=
  exists pre post,
    valid = (pre ++ e :: post)%list
    /\ q_index e = IndexNum (Z.of_nat k)
    /\ Forall (fun x => q_index x <> IndexNum (Z.of_nat k)) pre.

(** No entry of [valid] has the number [k] as its index field. *)
Definition NoneWithIndex (valid : list Entry) (k : nat) : Prop :=
  Forall (fun x => q_index x <> IndexNum (Z.of_nat k)) valid.

(** The block of an unmatched question. *)
Definition emptyAnswer (qText : string) : AnswerBlock :=
  {| question := qText; answer := EmptyString; quotes := None; reasoning := None |}.

(** The near-duplicate relation of two normalized strings: the shorter
    is at least 0.8 times as long as the longer, and the longer contains
    the shorter. *)
Definition NearDuplicate (a b : string) : Prop :=
  exists shorter longer,
    ((shorter = a /\ longer = b) \/ (shorter = b /\ longer = a))
    /\ (String.length shorter <= String.length longer)%nat
    /\ (4 * String.length longer <= 5 * String.length shorter)%nat
    /\ exists pre post, longer = pre ++ shorter ++ post.

(** [t] is the text of a prompt of the analysis result or of the guide. *)
Definition PromptTextOf (guide : Guide) (resultPrompts : list PromptEntry)
    (t : string) : Prop :=
  (exists p, In p resultPrompts /\ p_promptText p = Some t)
  \/ (exists ps, prompts guide = Some ps /\ In t ps).

(** Descending version order: [a] may stand before [b]. *)
Definition notBelow (a b : Versions.VersionInfo) : Prop :=
  (Versions.version b <= Versions.version a)%Z.

(** Some call of [get] made in the attempts 1..k yields ready,
    non-empty data. *)
Definition readyBy (get : Z -> Azure.Outcome Azure.TranscriptResponse)
    (k : Z) : Prop :=
  exists i, (1 <= i <= k)%Z /\ Azure.readyData (get i) <> None.

(** The durations of the sleeps of a trace, in order. *)
Definition sleeps (evs : list Azure.Event) : list Z :=
  omap (fun ev => match ev with Azure.Sleep ms => Some ms | _ => None end) evs.

(** The number of requests of a trace. *)
Definition requests (evs : list Azure.Event) : nat :=
  length (List.filter (fun ev => match ev with
                                 | Azure.CallGetTranscript _
                                 | Azure.CallGetTranslation _ => true
                                 | _ => false
                                 end) evs).

(** Both texts are present in a result. *)
Definition complete (r : Azure.Transcripts) : bool :=
  Azure.isSet (Azure.hindiTranscript r) && Azure.isSet (Azure.englishTranscript r).

(** The partition as the design words it: every guide line keeps its
    position in the unfiltered guide list. *)
Definition partitionWithOriginalPositions (guide : Guide) (all : gset string)
    : list (string * nat) :=
  List.filter (fun '(qText, _) =>
                 isValidQuestionText qText
                 && negb (matchesPrompt all (normalize qText)))
              (imap (fun position qText => (qText, position)) (questions guide)).

(** The aligner as the design words it: the index searched for is the
    position in the unfiltered guide list. *)
Definition alignByOriginalPosition (guide : Guide) (resultQs : list ResultItem)
    (resultPrompts : list PromptEntry) : list AnswerBlock :=
  mapped (validQuestions resultQs resultPrompts)
         (partitionWithOriginalPositions guide (allPromptTexts guide resultPrompts)).

End Design.

(** ** Test data *)

Module Fixtures.
Import Types Analysis.
Local Open Scope string_scope.

(** [{ index: k, answerSummary: a }] *)
Definition answered (k : Z) (a : string) : Entry :=
  {| q_index := IndexNum k; q_answerSummary := Some a; q_questionText := None;
     q_response := None; q_promptText := None; q_verbatimQuotes := None;
     q_reasoning := None |}.

Definition guideOf (qs : list string) (ps : option (list string)) : Guide :=
  {| guide_id := "g1"; guide_name := "guide"; questions := qs; prompts := ps;
     questionnaireId := None |}.

Definition answerOf (q a : string) : AnswerBlock :=
  {| question := q; answer := a; quotes := None; reasoning := None |}.

(** The index-over-position test of the design. *)
Definition indexTestGuide : Guide := guideOf ["Q1"; "Q2"] None.
Definition indexTestResult : list ResultItem := [ItemObject (answered 1 "A2")].

(** A guide with a blank line, and an analysis prompt without text. *)
Definition blankGuide : Guide := guideOf [" "] None.
Definition untitledPrompt : list PromptEntry :=
  [{| p_index := IndexNum 0; p_promptText := Some EmptyString;
      p_response := Some "yes" |}].

(** A backend that fails on the first attempt and has the Hindi text at
    the second and the English text at the third; and the same backend
    answering "pending" where the first one fails. *)
Definition readyWith (d : string) : Azure.Outcome Azure.TranscriptResponse :=
  Azure.Returned {| Azure.tr_status := Azure.ready; Azure.tr_data := Some d |}.
Definition stillPending : Azure.Outcome Azure.TranscriptResponse :=
  Azure.Returned {| Azure.tr_status := Azure.pending; Azure.tr_data := None |}.
Definition failing : Azure.Outcome Azure.TranscriptResponse :=
  Azure.Thrown Azure.CorsError.
Definition flakyTranscript (attempt : Z) : Azure.Outcome Azure.TranscriptResponse :=
  if Z.ltb attempt 2 then failing else readyWith "namaste".
Definition flakyTranslation (attempt : Z) : Azure.Outcome Azure.TranscriptResponse :=
  if Z.ltb attempt 3 then failing else readyWith "hello".
Definition slowTranscript (attempt : Z) : Azure.Outcome Azure.TranscriptResponse :=
  if Z.ltb attempt 2 then stillPending else readyWith "namaste".
Definition slowTranslation (attempt : Z) : Azure.Outcome Azure.TranscriptResponse :=
  if Z.ltb attempt 3 then stillPending else readyWith "hello".

(** A 404 answer of the backend. *)
Definition notFound : Azure.Response :=
  {| Azure.status := 404; Azure.statusText := "Not Found";
     Azure.text := Some "no such item"; Azure.json := None |}.

(** Interviews and upsert data that differ in id, audio and guide only. *)
Definition interviewOf (i a g : string) : Interview :=
  {| id := i; guideId := g; guideName := "guide"; interviewer := "asha";
     date := "2025-01-01"; village := "v"; farmerName := "f";
     audioFile := "a.wav"; status := "Draft"; answers := [];
     hindiTranscript := None; englishTranscript := None;
     audioId := Some a; uploadUrl := None |}.
Definition dataOf (a g : string) : InterviewsStore.InterviewData :=
  {| InterviewsStore.d_guideId := g; InterviewsStore.d_guideName := "guide";
     InterviewsStore.d_interviewer := "asha"; InterviewsStore.d_date := "2025-01-02";
     InterviewsStore.d_village := "v"; InterviewsStore.d_farmerName := "f";
     InterviewsStore.d_audioFile := "a.wav"; InterviewsStore.d_status := "gpt-5.1";
     InterviewsStore.d_answers := [];
     InterviewsStore.d_hindiTranscript := None;
     InterviewsStore.d_englishTranscript := None;
     InterviewsStore.d_audioId := Some (Some a);
     InterviewsStore.d_uploadUrl := None |}.

(** Two interviews of different pairs that share one id. *)
Definition sharedIdStore : list Interview :=
  [interviewOf "x" "a1" "g1"; interviewOf "x" "a2" "g2"].
Definition twoInterviews : list Interview :=
  [interviewOf "x" "a1" "g1"; interviewOf "y" "a2" "g2"].

(** [{ index: 7, response: "It rained", reasoning: "from the outline" }]:
    an entry with a response and neither answerSummary nor questionText. *)
Definition responseOnlyEntry : Entry :=
  {| q_index := IndexNum 7; q_answerSummary := None; q_questionText := None;
     q_response := Some "It rained"; q_promptText := None;
     q_verbatimQuotes := None; q_reasoning := Some "from the outline" |}.

(** A guide whose first line is JSON noise. *)
Definition noisyGuide : Guide := guideOf ["{"; "Q1"] None.
Definition noisyResult : list ResultItem :=
  [ItemObject (answered 0 "A0"); ItemObject (answered 1 "A1")].

End Fixtures.

(** ** InterviewModal.tsx: the prompts shown (lines 154-163) and the payload
    of a manual save (lines 390-416) *)

Module ModalSave.
Import JsString Types Analysis.

(** An element of the [prompts] state. *)
Record PromptBlock : Type := {
  pb_index : Z;
  pb_promptText : string;
  pb_response : string
}.

(** [p.index ?? 0] *)
Definition indexOrZero (i : IndexField) : Z :=
  match i with
  | IndexNum n => n
  | _ => 0%Z
  end.

(** Lines 155-163: the argument of [setPrompts]; the empty list maps to
    the empty list in either branch. *)
Definition promptsState (resultPrompts : list PromptEntry) : list PromptBlock :=
  map (fun p => {| pb_index := indexOrZero (p_index p);
                   pb_promptText := orEmpty (p_promptText p);
                   pb_response := orEmpty (p_response p) |})
      resultPrompts.

Record SavedQuote : Type := {
  sq_quote : string;
  sq_note : option string
}.

Record SavedQuestion : Type := {
  s_index : nat;
  s_questionText : string;
  s_answerFound : bool;
  s_answerSummary : string;
  s_verbatimQuotes : list SavedQuote
}.

Record SavedPrompt : Type := {
  sp_index : Z;
  sp_promptText : string;
  sp_response : string
}.

Record ResultPayload : Type := {
  rp_model : string;
  rp_audioId : string;
  rp_questionnaireId : string;
  rp_questions : list SavedQuestion;
  rp_prompts : list SavedPrompt
}.

(** Lines 402-404 *)
Definition savedQuotes (a : AnswerBlock) : list SavedQuote :=
  match quotes a with
  | Some qs =>
      if Nat.ltb 0 (length qs)
      then map (fun q => {| sq_quote := quote q; sq_note := note q |}) qs
      else []
  | None => []
  end.

(** Lines 397-414: [resultPayload]. *)
Definition resultPayload (audio guide : string) (answers : list AnswerBlock)
    (prompts : list PromptBlock) : ResultPayload :=
  {| rp_model := "gpt-5.1-human-edit";
     rp_audioId := audio;
     rp_questionnaireId := guide;
     rp_questions :=
       imap (fun idx a =>
               {| s_index := idx;
                  s_questionText := question a;
                  s_answerFound := Nat.ltb 0 (String.length (trim (answer a)));
                  s_answerSummary := answer a;
                  s_verbatimQuotes := savedQuotes a |})
            answers;
     rp_prompts :=
       map (fun p => {| sp_index := pb_index p;
                        sp_promptText := pb_promptText p;
                        sp_response := pb_response p |})
           prompts |}.

(** What the client reads of a stored question when the backend serves the
    payload back as it was sent: the fields of the object, [note] absent
    where it was [undefined]. *)
Definition entryOfSaved (q : SavedQuestion) : Entry :=
  {| q_index := IndexNum (Z.of_nat (s_index q));
     q_answerSummary := Some (s_answerSummary q);
     q_questionText := Some (s_questionText q);
     q_response := None;
     q_promptText := None;
     q_verbatimQuotes :=
       Some (map (fun v => {| rq_quote := Some (sq_quote v); rq_note := sq_note v |})
                 (s_verbatimQuotes q));
     q_reasoning := None |}.

Definition promptOfSaved (p : SavedPrompt) : PromptEntry :=
  {| p_index := IndexNum (sp_index p);
     p_promptText := Some (sp_promptText p);
     p_response := Some (sp_response p) |}.

(** [result.questions] and [result.prompts] of the stored payload. *)
Definition storedQuestions (payload : ResultPayload) : list ResultItem :=
  map (fun q => ItemObject (entryOfSaved q)) (rp_questions payload).

Definition storedPrompts (payload : ResultPayload) : list PromptEntry :=
  map promptOfSaved (rp_prompts payload).

End ModalSave.

(** ** store/guides.ts *)

Module GuidesStore.
Import JsString Types.

(** [Omit<Guide, "id">]; for an optional property [None] is an absent key
    and [Some v] a present key with value [v]. *)
Record GuideData : Type := {
  gd_name : string;
  gd_questions : list string;
  gd_prompts : option (option (list string));
  gd_questionnaireId : option (option string)
}.

(** [Partial<Guide>] *)
Record GuideUpdates : Type := {
  gu_id : option string;
  gu_name : option string;
  gu_questions : option (list string);
  gu_prompts : option (option (list string));
  gu_questionnaireId : option (option string)
}.

(** [guideData.questionnaireId || crypto.randomUUID()] *)
Definition newId (uuid : string) (guideData : GuideData) : string :=
  match InterviewsStore.read (gd_questionnaireId guideData) with
  | Some q => if nonEmpty q then q else uuid
  | None => uuid
  end.

(** [{ ...guideData, id }] *)
Definition newGuide (uuid : string) (guideData : GuideData) : Guide :=
  {| guide_id := newId uuid guideData;
     guide_name := gd_name guideData;
     questions := gd_questions guideData;
     prompts := InterviewsStore.read (gd_prompts guideData);
     questionnaireId := InterviewsStore.read (gd_questionnaireId guideData) |}.

(** [{ ...g, ...guideData }] *)
Definition mergeData (g : Guide) (guideData : GuideData) : Guide :=
  {| guide_id := guide_id g;
     guide_name := gd_name guideData;
     questions := gd_questions guideData;
     prompts := InterviewsStore.spread (prompts g) (gd_prompts guideData);
     questionnaireId :=
       InterviewsStore.spread (questionnaireId g) (gd_questionnaireId guideData) |}.

(** [addGuide]. [uuid] is the value [crypto.randomUUID()] would return. *)
Definition addGuide (uuid : string) (guideData : GuideData) (guides : list Guide)
    : list Guide :=
  let id := newId uuid guideData in
  match List.find (fun g => String.eqb (guide_id g) id) guides with
  | Some _ =>
      map (fun g => if String.eqb (guide_id g) id then mergeData g guideData else g)
          guides
  | None => guides ++ [newGuide uuid guideData]
  end.

(** [{ ...g, ...updates }] *)
Definition mergeUpdates (g : Guide) (updates : GuideUpdates) : Guide :=
  {| guide_id := default (guide_id g) (gu_id updates);
     guide_name := default (guide_name g) (gu_name updates);
     questions := default (questions g) (gu_questions updates);
     prompts := InterviewsStore.spread (prompts g) (gu_prompts updates);
     questionnaireId :=
       InterviewsStore.spread (questionnaireId g) (gu_questionnaireId updates) |}.

(** [updateGuide] *)
Definition updateGuide (id : string) (updates : GuideUpdates) (guides : list Guide)
    : list Guide :=
  map (fun g => if String.eqb (guide_id g) id then mergeUpdates g updates else g)
      guides.

(** [deleteGuide] *)
Definition deleteGuide (id : string) (guides : list Guide) : list Guide :=
  List.filter (fun g => negb (String.eqb (guide_id g) id)) guides.

(** [getActiveGuide]: [guides[0]]. *)
Definition getActiveGuide (guides : list Guide) : option Guide := guides !! 0%nat.

(** [guides.find((g) => g.id === id)], as the components look a guide up. *)
Definition findGuide (id : string) (guides : list Guide) : option Guide :=
  List.find (fun g => String.eqb (guide_id g) id) guides.

End GuidesStore.

(** ** store/interviews.ts: the remaining operations *)

Module InterviewsStoreOps.
Import Types InterviewsStore.

(** [Partial<Interview>] *)
Record InterviewUpdates : Type := {
  iu_id : option string;
  iu_guideId : option string;
  iu_guideName : option string;
  iu_interviewer : option string;
  iu_date : option string;
  iu_village : option string;
  iu_farmerName : option string;
  iu_audioFile : option string;
  iu_status : option string;
  iu_answers : option (list AnswerBlock);
  iu_hindiTranscript : option (option string);
  iu_englishTranscript : option (option string);
  iu_audioId : option (option string);
  iu_uploadUrl : option (option string)
}.

(** [{ ...i, ...updates }] *)
Definition mergeUpdates (i : Interview) (updates : InterviewUpdates) : Interview :=
  {| id := default (id i) (iu_id updates);
     guideId := default (guideId i) (iu_guideId updates);
     guideName := default (guideName i) (iu_guideName updates);
     interviewer := default (interviewer i) (iu_interviewer updates);
     date := default (date i) (iu_date updates);
     village := default (village i) (iu_village updates);
     farmerName := default (farmerName i) (iu_farmerName updates);
     audioFile := default (audioFile i) (iu_audioFile updates);
     status := default (status i) (iu_status updates);
     answers := default (answers i) (iu_answers updates);
     hindiTranscript := spread (hindiTranscript i) (iu_hindiTranscript updates);
     englishTranscript := spread (englishTranscript i) (iu_englishTranscript updates);
     audioId := spread (audioId i) (iu_audioId updates);
     uploadUrl := spread (uploadUrl i) (iu_uploadUrl updates) |}.

(** Lines 222-225 *)
Definition updateInterview (target : string) (updates : InterviewUpdates)
    (interviews : list Interview) : list Interview :=
  map (fun i => if String.eqb (id i) target then mergeUpdates i updates else i)
      interviews.

(** Lines 232-234 *)
Definition getInterview (target : string) (interviews : list Interview)
    : option Interview :=
  List.find (fun i => String.eqb (id i) target) interviews.

(** The updates of InterviewModal.tsx line 366 and line 419:
    [{ answers, status }]. *)
Definition answersAndStatus (newAnswers : list AnswerBlock) (newStatus : string)
    : InterviewUpdates :=
  {| iu_id := None; iu_guideId := None; iu_guideName := None;
     iu_interviewer := None; iu_date := None; iu_village := None;
     iu_farmerName := None; iu_audioFile := None;
     iu_status := Some newStatus; iu_answers := Some newAnswers;
     iu_hindiTranscript := None; iu_englishTranscript := None;
     iu_audioId := None; iu_uploadUrl := None |}.

End InterviewsStoreOps.

(** ** Notions used to state what the code does *)

Module Observations.
Import JsString Types Analysis.

(** The answer of [getQuestionnaire] carries no question list: the call
    threw, or the object has no [questions] array. *)
Definition noFetchedQuestions (fetched : option InterviewModal.FetchedQuestionnaire)
    : Prop :=
  match fetched with
  | Some questionnaire => InterviewModal.fq_questions questionnaire = None
  | None => True
  end.

(** Every entry carries its own array position as index field. *)
Definition WellIndexed (entries : list Entry) : Prop :=
  forall j e, entries !! j = Some e -> q_index e = IndexNum (Z.of_nat j).

(** Two answer blocks that differ in the answer text at most. *)
Definition sameButAnswer (a b : AnswerBlock) : Prop :=
  question a = question b /\ quotes a = quotes b /\ reasoning a = reasoning b.

(** Two prompt blocks that differ in the response at most. *)
Definition sameButResponse (a b : ModalSave.PromptBlock) : Prop :=
  ModalSave.pb_index a = ModalSave.pb_index b
  /\ ModalSave.pb_promptText a = ModalSave.pb_promptText b.

End Observations.

(** ** Further test data *)

Module Samples.
Import Types Analysis.
Local Open Scope string_scope.

(** [{ index: 0, answerSummary: "A1", verbatimQuotes: [...] }] *)
Definition quotedEntry : Entry :=
  {| q_index := IndexNum 0; q_answerSummary := Some "A1"; q_questionText := None;
     q_response := None; q_promptText := None;
     q_verbatimQuotes :=
       Some [ {| rq_quote := Some "rain came late"; rq_note := Some "paraphrase" |};
              {| rq_quote := Some "two acres"; rq_note := None |} ];
     q_reasoning := None |}.

Definition twoAnswers : list ResultItem :=
  [ItemObject quotedEntry; ItemObject (Fixtures.answered 1 "A2")].

Definition twoQuotes : list VerbatimQuote :=
  [ {| quote := "rain came late"; note := Some "paraphrase" |};
    {| quote := "two acres"; note := None |} ].

(** What the modal shows for [twoAnswers], and the same after the first
    answer has been rewritten by hand. *)
Definition shownAnswers : list AnswerBlock :=
  [ {| question := "Q1"; answer := "A1"; quotes := Some twoQuotes; reasoning := None |};
    Fixtures.answerOf "Q2" "A2" ].
Definition editedAnswers : list AnswerBlock :=
  [ {| question := "Q1"; answer := "Rewritten by hand"; quotes := Some twoQuotes;
       reasoning := None |};
    Fixtures.answerOf "Q2" "A2" ].

End Samples.

(** ** Comparing the modal with the export *)

Module Comparison.
Import JsString Types Analysis.

(** An entry that is an answer and nothing of a prompt: no [promptText],
    an [answerSummary] (possibly empty), and not a bare [response]. *)
Definition plainEntry (q : Entry) : bool :=
  negb (truthy (q_promptText q)) && defined (q_answerSummary q)
  && negb (InterviewModal.responseOnly q).

Definition plainItem (item : ResultItem) : bool :=
  match item with
  | ItemObject q => plainEntry q
  | ItemOther => true
  end.

(** The modal's answer blocks carry no reasoning (lines 350-361). *)
Definition withoutReasoning (a : AnswerBlock) : AnswerBlock :=
  {| question := question a; answer := answer a; quotes := quotes a;
     reasoning := None |}.

End Comparison.


(** ** The text of a questionnaire: azure.ts [getQuestionnaire] (lines
    425-426, 445-446 and 476-477) and the callers that split it into
    questions (download.ts 59-62, [loadGuidesFromAzure]) *)

Module QuestionnaireText.
Import JsString.

Definition LF : ascii := ascii_of_nat 10.
Definition CR : ascii := ascii_of_nat 13.

(** Puts [c] in front of the first piece of a split. *)
Definition consHead (c : ascii) (pieces : list string) : list string :=
  match pieces with
  | x :: rest => String c x :: rest
  | [] => [String c EmptyString]
  end.

(** [s.split("\n")]; the empty string gives one empty piece. *)
Fixpoint splitLF (s : string) : list string :=
  match s with
  | EmptyString => [EmptyString]
  | String c s' =>
      if Ascii.eqb c LF then EmptyString :: splitLF s'
      else consHead c (splitLF s')
  end.

(** [s.split(/\r?\n/)]: the separators are the LFs, each with the CR
    directly before it if there is one; such a CR is skipped. *)
Fixpoint splitLines (s : string) : list string :=
  match s with
  | EmptyString => [EmptyString]
  | String c s' =>
      if Ascii.eqb c LF then EmptyString :: splitLines s'
      else if Ascii.eqb c CR && startsWith s' (String LF EmptyString)
           then splitLines s'
           else consHead c (splitLines s')
  end.

(** [s.replace(/\r\n/g, "\n")]: every CR directly before a LF is dropped. *)
Fixpoint replaceCRLF (s : string) : string :=
  match s with
  | EmptyString => EmptyString
  | String c s' =>
      if Ascii.eqb c CR && startsWith s' (String LF EmptyString)
      then replaceCRLF s'
      else String c (replaceCRLF s')
  end.

(** [pieces.join(sep)] *)
Fixpoint join (sep : string) (pieces : list string) : string :=
  match pieces with
  | [] => EmptyString
  | x :: rest =>
      match rest with
      | [] => x
      | _ :: _ => (x ++ sep ++ join sep rest)%string
      end
  end.

(** [const normalized = raw.replace(/\r\n/g, "\n").trim();
     text = normalized.split("\n").join("\n\n")] *)
Definition spaced (raw : string) : string :=
  let normalized := trim (replaceCRLF raw) in
  join (String LF (String LF EmptyString)) (splitLF normalized).

(** [text.split(/\r?\n/).map((l) => l.trim()).filter(Boolean)] *)
Definition questionLines (text : string) : list string :=
  List.filter nonEmpty (map trim (splitLines text)).

End QuestionnaireText.

(** Notions used to reason about lines. *)

Module LineFacts.
Import JsString.

(** [y] is [x] followed by white space. *)
Definition padded (x y : string) : Prop :=
  exists w, Design.allSpace w = true /\ y = (x ++ w)%string.

(** The pieces of [a ++ b] from the pieces of [a] and of [b]: the last
    piece of [a] continues with the first piece of [b]. *)
Fixpoint glue (l1 l2 : list string) : list string :=
  match l1 with
  | [] => l2
  | x :: l1' =>
      match l1' with
      | [] =>
          match l2 with
          | y :: l2' => (x ++ y)%string :: l2'
          | [] => [x]
          end
      | _ :: _ => x :: glue l1' l2
      end
  end.

Fixpoint noLF (s : string) : bool :=
  match s with
  | EmptyString => true
  | String c s' => negb (Ascii.eqb c QuestionnaireText.LF) && noLF s'
  end.

Definition trimmedLines (pieces : list string) : list string :=
  List.filter nonEmpty (map trim pieces).

End LineFacts.


(** ** GuidesAdmin: [parseQuestionsFromFile] (unnamed/part_000, lines
    307-324) *)

Module GuideFile.
Import JsString QuestionnaireText.

(** [\d] *)
Definition is_digit (c : ascii) : bool :=
  let n := nat_of_ascii c in Nat.leb 48 n && Nat.leb n 57.

(** [.] without the [s] flag: any code unit but the line terminators,
    which are LF and CR below 256. *)
Definition is_dot (c : ascii) : bool := negb (Ascii.eqb c LF || Ascii.eqb c CR).

Definition full_stop : ascii := ascii_of_nat 46.

Fixpoint takeWhile (p : ascii -> bool) (s : string) : string :=
  match s with
  | EmptyString => EmptyString
  | String c s' => if p c then String c (takeWhile p s') else EmptyString
  end.

Fixpoint dropWhile (p : ascii -> bool) (s : string) : string :=
  match s with
  | EmptyString => EmptyString
  | String c s' => if p c then dropWhile p s' else s
  end.

Fixpoint allChars (p : ascii -> bool) (s : string) : bool :=
  match s with
  | EmptyString => true
  | String c s' => p c && allChars p s'
  end.

Fixpoint lastChar (s : string) : option ascii :=
  match s with
  | EmptyString => None
  | String c s' =>
      match s' with
      | EmptyString => Some c
      | String _ _ => lastChar s'
      end
  end.

(** [trimmed.match(/^\d+\.\s*(.+)$/)]: the group [match[1]], or [None] for
    [null]. The digits are the longest run, since the full stop must
    follow them. [\s*] is greedy and takes all the white space after the
    full stop; the group is what is left, which must be free of line
    terminators up to the end of the string. When nothing is left, [\s*]
    gives back its last character, which is then the group. *)
Definition numbered (line : string) : option string :=
  match takeWhile is_digit line, dropWhile is_digit line with
  | String _ _, String d rest =>
      if Ascii.eqb d full_stop then
        match dropWhile is_space rest with
        | EmptyString =>
            match lastChar rest with
            | Some l => if is_dot l then Some (String l EmptyString) else None
            | None => None
            end
        | String a r =>
            if allChars is_dot (String a r) then Some (String a r) else None
        end
      else None
  | _, _ => None
  end.

(** The body of the loop: the questions after one more line. *)
Definition addLine (questions : list string) (line : string) : list string :=
  let trimmed := trim line in
  if negb (nonEmpty trimmed) then questions
  else
    let question :=
      match numbered trimmed with
      | Some group => group
      | None => trimmed
      end in
    if nonEmpty question then questions ++ [question] else questions.

Definition parseQuestionsFromFile (text : string) : list string :=
  fold_left addLine (splitLF text) [].

(** A line of a numbered list: the number, a full stop, a blank and the
    question. *)
Definition numberedLine (item : string * string) : string :=
  (fst item ++ String full_stop (String (ascii_of_nat 32) (snd item)))%string.

(** What a numbered list item has to be for the round trip: decimal
    digits, and a question that is trimmed, not empty and on one line. *)
Definition listItem (item : string * string) : Prop :=
  nonEmpty (fst item) = true /\ allChars is_digit (fst item) = true
  /\ nonEmpty (snd item) = true /\ trim (snd item) = snd item
  /\ allChars is_dot (snd item) = true.

End GuideFile.


(** ** UploadAudioSection (unnamed/part_002): the form state, its event
    handlers and the request that [handleUpload] makes *)

Module UploadAudio.
Import JsString.
Local Open Scope string_scope.

Record File : Type := {
  f_name : string;
  f_size : Z;
  f_type : string
}.

(** The [useState] cells of lines 20-27. *)
Record Form : Type := {
  file : option File;
  interviewer : string;
  farmerName : string;
  village : string;
  interviewDate : string;
  tagInput : string;
  tags : list string
}.

Definition initial : Form :=
  {| file := None; interviewer := EmptyString; farmerName := EmptyString;
     village := EmptyString; interviewDate := EmptyString;
     tagInput := EmptyString; tags := [] |}.

(** Lines 30-35 *)
Definition handleFileChange (selectedFile : option File) (f : Form) : Form :=
  match selectedFile with
  | Some _ =>
      {| file := selectedFile; interviewer := interviewer f;
         farmerName := farmerName f; village := village f;
         interviewDate := interviewDate f; tagInput := tagInput f; tags := tags f |}
  | None => f
  end.

(** Lines 37-48. [tags.includes(trimmedTag)] compares with [===]. *)
Definition handleAddTag (f : Form) : Form :=
  let trimmedTag := trim (tagInput f) in
  if nonEmpty trimmedTag && negb (existsb (String.eqb trimmedTag) (tags f)) then
    {| file := file f; interviewer := interviewer f; farmerName := farmerName f;
       village := village f; interviewDate := interviewDate f;
       tagInput := EmptyString; tags := tags f ++ [trimmedTag] |}
  else f.

(** Lines 50-52 *)
Definition handleRemoveTag (tagToRemove : string) (f : Form) : Form :=
  {| file := file f; interviewer := interviewer f; farmerName := farmerName f;
     village := village f; interviewDate := interviewDate f; tagInput := tagInput f;
     tags := List.filter (fun tag => negb (String.eqb tag tagToRemove)) (tags f) |}.

(** What the user and the component do to the form. *)
Inductive Event : Type :=
| FileChange (selectedFile : option File)
| InterviewerChange (value : string)
| FarmerNameChange (value : string)
| VillageChange (value : string)
| InterviewDateChange (value : string)
| TagInputChange (value : string)
| AddTag                              (* the button, or Enter in the input *)
| RemoveTag (tagToRemove : string)
| Uploaded.                           (* the reset of lines 139-145 *)

Definition step (f : Form) (e : Event) : Form :=
  match e with
  | FileChange selectedFile => handleFileChange selectedFile f
  | InterviewerChange value =>
      {| file := file f; interviewer := value; farmerName := farmerName f;
         village := village f; interviewDate := interviewDate f;
         tagInput := tagInput f; tags := tags f |}
  | FarmerNameChange value =>
      {| file := file f; interviewer := interviewer f; farmerName := value;
         village := village f; interviewDate := interviewDate f;
         tagInput := tagInput f; tags := tags f |}
  | VillageChange value =>
      {| file := file f; interviewer := interviewer f; farmerName := farmerName f;
         village := value; interviewDate := interviewDate f;
         tagInput := tagInput f; tags := tags f |}
  | InterviewDateChange value =>
      {| file := file f; interviewer := interviewer f; farmerName := farmerName f;
         village := village f; interviewDate := value;
         tagInput := tagInput f; tags := tags f |}
  | TagInputChange value =>
      {| file := file f; interviewer := interviewer f; farmerName := farmerName f;
         village := village f; interviewDate := interviewDate f;
         tagInput := value; tags := tags f |}
  | AddTag => handleAddTag f
  | RemoveTag tagToRemove => handleRemoveTag tagToRemove f
  | Uploaded => initial
  end.

Definition run (events : list Event) : Form := fold_left step events initial.

(** [AzureUploadMeta] as [handleUpload] fills it. *)
Record AzureUploadMeta : Type := {
  m_farmerName : string;
  m_village : string;
  m_interviewer : string;
  m_interviewDate : string;
  m_tags : option (list string);
  m_notes : string
}.

(** The arguments of [createUploadUrl]. *)
Record UploadRequest : Type := {
  r_filename : string;
  r_size : Z;
  r_contentType : string;
  r_meta : AzureUploadMeta
}.

Inductive Submission : Type :=
| Rejected (message : string)     (* [toast.error(message); return] *)
| Requested (request : UploadRequest).

(** Lines 60-110: the checks of [handleUpload] and the request of its
    first step. *)
Definition handleUpload (f : Form) : Submission :=
  match file f with
  | None => Rejected "Please select an audio file"
  | Some selected =>
      if negb (nonEmpty (trim (interviewer f))) then
        Rejected "Please enter interviewer name"
      else if negb (nonEmpty (trim (farmerName f))) then
        Rejected "Please enter farmer name"
      else if negb (nonEmpty (trim (village f))) then
        Rejected "Please enter village/district"
      else if negb (nonEmpty (interviewDate f)) then
        Rejected "Please select interview date"
      else
        Requested
          {| r_filename := f_name selected;
             r_size := f_size selected;
             r_contentType := f_type selected;
             r_meta :=
               {| m_farmerName := trim (farmerName f);
                  m_village := trim (village f);
                  m_interviewer := trim (interviewer f);
                  m_interviewDate := interviewDate f;
                  m_tags := if Nat.ltb 0 (length (tags f)) then Some (tags f) else None;
                  m_notes := "Interviewer: " ++ trim (interviewer f)
                             ++ ", Date: " ++ interviewDate f |} |}
  end.

(** A value the form may send: not empty, no white space around it. *)
Definition clean (s : string) : Prop := nonEmpty s = true /\ trim s = s.

End UploadAudio.


(** ** InterviewModal.tsx: the edit handlers (lines 378-388) *)

Module ModalEdit.
Import Types ModalSave.

(** [{ ...updated[index], answer: value }] *)
Definition withAnswer (a : AnswerBlock) (value : string) : AnswerBlock :=
  {| question := question a; answer := value; quotes := quotes a;
     reasoning := reasoning a |}.

(** [{ ...updated[index], response: value }] *)
Definition withResponse (p : PromptBlock) (value : string) : PromptBlock :=
  {| pb_index := pb_index p; pb_promptText := pb_promptText p;
     pb_response := value |}.

(** [handleAnswerChange(index, "answer", value)], as the text area of a
    block calls it (line 586). At a position beyond the list the array
    would get a block with nothing but an answer, which is no
    [AnswerBlock]: [None]. *)
Definition handleAnswerChange (index : nat) (value : string)
    (answers : list AnswerBlock) : option (list AnswerBlock) :=
  match answers !! index with
  | Some a => Some (<[index := withAnswer a value]> answers)
  | None => None
  end.

(** [handlePromptResponseChange(index, value)], with the same proviso. *)
Definition handlePromptResponseChange (index : nat) (value : string)
    (prompts : list PromptBlock) : option (list PromptBlock) :=
  match prompts !! index with
  | Some p => Some (<[index := withResponse p value]> prompts)
  | None => None
  end.

Inductive Edit : Type :=
| AnswerChange (index : nat) (value : string)
| PromptResponseChange (index : nat) (value : string).

(** The [answers] and [prompts] state after a series of edits. *)
Fixpoint edits (es : list Edit) (answers : list AnswerBlock)
    (prompts : list PromptBlock)
    : option (list AnswerBlock * list PromptBlock) :=
  match es with
  | [] => Some (answers, prompts)
  | AnswerChange index value :: rest =>
      match handleAnswerChange index value answers with
      | Some updated => edits rest updated prompts
      | None => None
      end
  | PromptResponseChange index value :: rest =>
      match handlePromptResponseChange index value prompts with
      | Some updated => edits rest answers updated
      | None => None
      end
  end.

End ModalEdit.


(** ** The requests of a poll *)

Module PollTrace.
Import Azure.

(** The attempts at which a trace asks for the transcript. *)
Definition transcriptCalls (evs : list Event) : list Z :=
  omap (fun ev => match ev with CallGetTranscript k => Some k | _ => None end) evs.

(** The attempts at which a trace asks for the translation. *)
Definition translationCalls (evs : list Event) : list Z :=
  omap (fun ev => match ev with CallGetTranslation k => Some k | _ => None end) evs.

(** One text polled on its own for [rounds] rounds after attempt
    [attempts]: the text it ends with and the attempts at which it asks. *)
Fixpoint pollOne (get : Z -> Outcome TranscriptResponse) (attempts : Z)
    (rounds : nat) (current : option string) : option string * list Z :=
  match rounds with
  | O => (current, [])
  | S rounds' =>
      if isSet current then (current, [])
      else
        match readyData (get (attempts + 1)%Z) with
        | Some d => (Some d, [(attempts + 1)%Z])
        | None =>
            let '(t, calls) := pollOne get (attempts + 1)%Z rounds' current in
            (t, (attempts + 1)%Z :: calls)
        end
  end.

End PollTrace.


(** The run of [pollForTranscripts] against the flaky backend. *)

Module PollSamples.
Import Azure.
Local Open Scope string_scope.

Definition flakyResult : Transcripts :=
  {| hindiTranscript := Some "namaste"; englishTranscript := Some "hello" |}.

Definition flakyTrace : list Event :=
  [CallGetTranscript 1; CallGetTranslation 1; Sleep 2000;
   CallGetTranscript 2; OnProgress "Hindi transcript ready";
   CallGetTranslation 2; Sleep 2000;
   CallGetTranslation 3; OnProgress "English translation ready"].

End PollSamples.


(** ** AllInterviewsAdmin.tsx: the filters (lines 76-101) and the options
    of the interviewer select (lines 150-165) *)

Module AdminFilters.
Import JsString Types.
Local Open Scope string_scope.

Definition EMPTY_VALUE : string := "__empty__".

(** The [filters] state. *)
Record Filters : Type := {
  f_guide : string;
  f_interviewer : string;
  f_village : string;
  f_farmer : string;
  f_status : string
}.


(** [value && value !== "all"] *)
Definition active (value : string) : bool :=
  nonEmpty value && negb (String.eqb value "all").

(** Lines 77-101: [filtered] before it is sorted. *)
Definition filtered (filters : Filters) (interviews : list Interview)
    : list Interview :=
  let filtered := interviews in
  let filtered :=
    if active (f_guide filters)
    then List.filter (fun i => String.eqb (guideId i) (f_guide filters)) filtered
    else filtered in
  let filtered :=
    if active (f_interviewer filters) then
      if String.eqb (f_interviewer filters) EMPTY_VALUE
      then List.filter (fun i => String.eqb (trim (interviewer i)) EmptyString) filtered
      else List.filter (fun i => String.eqb (interviewer i) (f_interviewer filters))
                       filtered
    else filtered in
  let filtered :=
    if active (f_village filters) then
      if String.eqb (f_village filters) EMPTY_VALUE
      then List.filter (fun i => String.eqb (trim (village i)) EmptyString) filtered
      else List.filter (fun i => String.eqb (village i) (f_village filters)) filtered
    else filtered in
  let filtered :=
    if nonEmpty (f_farmer filters)
    then List.filter (fun i => includes (toLowerCase (farmerName i))
                                        (toLowerCase (f_farmer filters))) filtered
    else filtered in
  let filtered :=
    if active (f_status filters)
    then List.filter (fun i => String.eqb (status i) (f_status filters)) filtered
    else filtered in
  filtered.










End AdminFilters.


(** ** azure.ts: [uploadToSAS] (lines 241-278) *)

Module BlobUpload.
Import JsString Azure UploadAudio.
Local Open Scope string_scope.

(** [s.endsWith(suffix)] *)
Fixpoint endsWith (s suffix : string) : bool :=
  String.eqb s suffix
  || match s with
     | EmptyString => false
     | String _ s' => endsWith s' suffix
     end.

(** Lines 247-256: the [Content-Type] header of the PUT request. *)
Definition contentTypeOf (file : File) : string :=
  let contentType := f_type file in
  if negb (nonEmpty contentType) || String.eqb (trim contentType) EmptyString then
    if nonEmpty (f_name file) && endsWith (toLowerCase (f_name file)) ".txt"
    then "text/plain"
    else "application/octet-stream"
  else contentType.

(** The request and what becomes of it. There is no check of the base
    URL here: the URL is the SAS URL. *)
Definition uploadToSAS (file : File) (fetched : FetchResult)
    : string * Outcome unit :=
  (contentTypeOf file,
   match fetched with
   | FailedToFetch => Thrown CorsError
   | FetchThrew e => Thrown (OtherError e)
   | Resolved response =>
       if negb (ok response) then
         Thrown (HttpError "upload file to blob storage" (status response)
                           (default "Unknown error" (text response)))
       else Returned tt
   end).

End BlobUpload.


(** ** The stores that store/interviews.ts can hold *)

Module StoreReachability.
Import Types InterviewsStore InterviewsStoreOps.

(** The lists that the operations of the store produce from the empty
    store. Every id is a value of [crypto.randomUUID()] (lines 188, 216
    and 248), which differs from the ids in use; [loadInterviews] replaces
    the store by interviews that each got such an id; and the callers of
    [updateInterview] pass [{ answers, status }], never an id. *)
Inductive Reachable : list Interview -> Prop :=
| reach_initial : Reachable []
| reach_loadInterviews (out : list Interview) :
    List.NoDup (map id out) -> Reachable out
| reach_addInterview (uuid : string) (data : InterviewData)
    (interviews : list Interview) :
    Reachable interviews -> ~ In uuid (map id interviews) ->
    Reachable (addInterview uuid data interviews)
| reach_updateInterview (target : string) (updates : InterviewUpdates)
    (interviews : list Interview) :
    Reachable interviews -> iu_id updates = None ->
    Reachable (updateInterview target updates interviews)
| reach_deleteInterview (target : string) (interviews : list Interview) :
    Reachable interviews -> Reachable (deleteInterview target interviews)
| reach_upsertByAudioAndGuide (uuid : string) (data : InterviewData)
    (interviews : list Interview) :
    Reachable interviews -> ~ In uuid (map id interviews) ->
    Reachable (fst (upsertByAudioAndGuide uuid data interviews)).

(** The number of interviews of a pair. *)
Definition entriesOf (k : option string * string) (interviews : list Interview)
    : nat :=
  length (List.filter (fun i => bool_decide (key i = k)) interviews).

End StoreReachability.


(** ** Reading the quotes of an entry (InterviewModal.tsx 350-355,
    download.ts 114-119) when the array is not known to hold objects *)

Module QuoteReads.
Import Types Analysis.



End QuoteReads.


(** * Properties *)

(** ** Strings *)

Section StringFacts.
Import JsString.
Local Open Scope string_scope.
Local Arguments String.append !_ _ / : simpl nomatch.

Lemma append_empty_r (s : string) : s ++ EmptyString = s.
Proof. induction s as [|c s IH]; simpl; [reflexivity | now rewrite IH]. Qed.

Lemma append_assoc (s t u : string) : (s ++ t) ++ u = s ++ (t ++ u).
Proof. induction s as [|c s IH]; simpl; [reflexivity | now rewrite IH]. Qed.

Lemma append_eq_empty (s t : string) :
  s ++ t = EmptyString -> s = EmptyString /\ t = EmptyString.
Proof. destruct s; simpl; [auto | discriminate]. Qed.

Lemma append_length (s t : string) :
  String.length (s ++ t) = (String.length s + String.length t)%nat.
Proof. induction s as [|c s IH]; simpl; [reflexivity | now rewrite IH]. Qed.

(** A string that starts with a character splits at its head. *)
Lemma append_eq_cons (s t u : string) (c : ascii) :
  s ++ t = String c u ->
  (s = EmptyString /\ t = String c u)
  \/ (exists s', s = String c s' /\ u = s' ++ t).
Proof.
  destruct s as [|a s]; simpl; intros H.
  - left. auto.
  - right. inversion H; subst. eauto.
Qed.

Lemma startsWith_iff (s p : string) :
  startsWith s p = true <-> exists rest, s = p ++ rest.
Proof.
  revert s. induction p as [|a p IH]; intros s; simpl.
  - split; [intros _; exists s; reflexivity | reflexivity].
  - destruct s as [|b s].
    + split; [discriminate | intros [rest H]; discriminate].
    + rewrite andb_true_iff, Ascii.eqb_eq, IH. split.
      * intros [-> [rest ->]]. now exists rest.
      * intros [rest H]. inversion H; subst. split; [reflexivity | now exists rest].
Qed.

Lemma includes_iff (s t : string) :
  includes s t = true <-> exists pre post, s = pre ++ t ++ post.
Proof.
  induction s as [|c s IH]; simpl.
  - rewrite orb_false_r, startsWith_iff. split.
    + intros [rest H]. exists EmptyString, rest. exact H.
    + intros [pre [post H]]. symmetry in H.
      apply append_eq_empty in H as [_ H].
      apply append_eq_empty in H as [-> ->].
      exists EmptyString. reflexivity.
  - rewrite orb_true_iff, startsWith_iff, IH. split.
    + intros [[rest H] | [pre [post H]]].
      * exists EmptyString, rest. exact H.
      * exists (String c pre), post. simpl. now rewrite H.
    + intros [pre [post H]]. destruct pre as [|a pre]; simpl in H.
      * left. now exists post.
      * right. inversion H; subst. now exists pre, post.
Qed.

Lemma nonEmpty_false (s : string) : nonEmpty s = false <-> s = EmptyString.
Proof. destruct s; simpl; split; congruence. Qed.

Lemma trimStart_spec (s : string) :
  exists w, s = w ++ trimStart s
            /\ Design.allSpace w = true
            /\ Design.startsWithSpace (trimStart s) = false.
Proof.
  induction s as [|c s (w & Hs & Hw & Hstart)]; simpl.
  - exists EmptyString. auto.
  - destruct (is_space c) eqn:Hc.
    + exists (String c w). simpl. rewrite Hc, Hw, <- Hs. auto.
    + exists EmptyString. simpl. auto.
Qed.

Lemma trimEnd_spec (s : string) :
  exists w, s = trimEnd s ++ w
            /\ Design.allSpace w = true
            /\ Design.endsWithSpace (trimEnd s) = false.
Proof.
  induction s as [|c s (w & Hs & Hw & Hend)]; simpl.
  - exists EmptyString. auto.
  - destruct (trimEnd s) as [|d t] eqn:Ht.
    + simpl in Hs. subst s. destruct (is_space c) eqn:Hc.
      * exists (String c w). simpl. rewrite Hc, Hw. auto.
      * exists w. simpl. auto.
    + exists w. split; [simpl; f_equal; exact Hs |]. auto.
Qed.

Lemma trimEnd_keeps_start (s : string) :
  Design.startsWithSpace s = false -> Design.startsWithSpace (trimEnd s) = false.
Proof.
  destruct s as [|c s]; simpl; [auto |]. intros Hc.
  destruct (trimEnd s); [rewrite Hc |]; simpl; auto.
Qed.

(** [trim] removes a white-space prefix and suffix and leaves a string
    with no white space at either end. *)
Theorem trim_spec (s : string) :
  exists w1 w2,
    s = w1 ++ trim s ++ w2
    /\ Design.allSpace w1 = true /\ Design.allSpace w2 = true
    /\ Design.startsWithSpace (trim s) = false
    /\ Design.endsWithSpace (trim s) = false.
Proof.
  unfold trim.
  destruct (trimStart_spec s) as (w1 & Hs & Hw1 & Hstart).
  destruct (trimEnd_spec (trimStart s)) as (w2 & Ht & Hw2 & Hend).
  exists w1, w2. rewrite <- Ht, <- Hs.
  repeat split; auto using trimEnd_keeps_start.
Qed.

End StringFacts.

(** ** The derivative matcher decides the language of a regex *)

Section RegexFacts.
Import Regex.
Local Open Scope string_scope.
Local Arguments String.append !_ _ / : simpl nomatch.

Lemma lang_seq_inv (r1 r2 : regex) (s : string) :
  lang (Seq r1 r2) s ->
  exists s1 s2, s = s1 ++ s2 /\ lang r1 s1 /\ lang r2 s2.
Proof. intros H. inversion H; subst. eauto. Qed.

Lemma lang_alt_inv (r1 r2 : regex) (s : string) :
  lang (Alt r1 r2) s -> lang r1 s \/ lang r2 s.
Proof. intros H. inversion H; subst; auto. Qed.

Lemma lang_class_inv (p : ascii -> bool) (s : string) :
  lang (Class p) s -> exists c, s = String c EmptyString /\ p c = true.
Proof. intros H. inversion H; subst. eauto. Qed.

Lemma lang_eps_inv (s : string) : lang Eps s -> s = EmptyString.
Proof. intros H. now inversion H. Qed.

Lemma nullable_iff (r : regex) : nullable r = true <-> lang r EmptyString.
Proof.
  induction r as [| |p|r1 IH1 r2 IH2|r1 IH1 r2 IH2|r IH]; simpl.
  - split; [discriminate | intros H; inversion H].
  - split; [constructor | reflexivity].
  - split; [discriminate | intros H; inversion H].
  - rewrite andb_true_iff, IH1, IH2. split.
    + intros [H1 H2]. apply (lang_seq _ _ EmptyString EmptyString); assumption.
    + intros H. apply lang_seq_inv in H as [s1 [s2 [Heq [H1 H2]]]].
      symmetry in Heq. apply append_eq_empty in Heq as [-> ->]. auto.
  - rewrite orb_true_iff, IH1, IH2. split.
    + intros [H|H]; [now apply lang_alt_l | now apply lang_alt_r].
    + apply lang_alt_inv.
  - split; [constructor | reflexivity].
Qed.

(** A non-empty word of [Star r] starts with a non-empty word of [r]. *)
Lemma lang_star_cons_inv (r : regex) (c : ascii) (s : string) :
  lang (Star r) (String c s) ->
  exists s1 s2, s = s1 ++ s2 /\ lang r (String c s1) /\ lang (Star r) s2.
Proof.
  intros H. remember (Star r) as r' eqn:Hr. remember (String c s) as w eqn:Hw.
  revert s Hw.
  induction H as [| | | | | |r0 s1 s2 H1 _ H2 IH2]; intros t Hw; try discriminate.
  inversion Hr; subst r0.
  destruct (append_eq_cons _ _ _ _ Hw) as [[-> ->] | [s' [-> ->]]].
  - apply IH2; reflexivity.
  - exists s', s2. auto.
Qed.

Lemma lang_seq_cons_inv (r1 r2 : regex) (c : ascii) (s : string) :
  lang (Seq r1 r2) (String c s) ->
  (exists s1 s2, s = s1 ++ s2 /\ lang r1 (String c s1) /\ lang r2 s2)
  \/ (lang r1 EmptyString /\ lang r2 (String c s)).
Proof.
  intros H. apply lang_seq_inv in H as [s1 [s2 [Heq [H1 H2]]]].
  symmetry in Heq.
  destruct (append_eq_cons _ _ _ _ Heq) as [[-> ->] | [s' [-> ->]]].
  - right. auto.
  - left. exists s', s2. auto.
Qed.

Lemma deriv_iff (c : ascii) (r : regex) (s : string) :
  lang (deriv c r) s <-> lang r (String c s).
Proof.
  revert s.
  induction r as [| |p|r1 IH1 r2 IH2|r1 IH1 r2 IH2|r IH]; intros s; simpl.
  - split; intros H; inversion H.
  - split; intros H; inversion H.
  - destruct (p c) eqn:Hp; split; intros H.
    + apply lang_eps_inv in H as ->. now constructor.
    + apply lang_class_inv in H as [c' [Heq _]]. inversion Heq; subst. constructor.
    + inversion H.
    + apply lang_class_inv in H as [c' [Heq Hc]]. inversion Heq; subst. congruence.
  - split.
    + intros H.
      assert (Hseq : lang (Seq (deriv c r1) r2) s -> lang (Seq r1 r2) (String c s)).
      { intros H'. apply lang_seq_inv in H' as [s1 [s2 [-> [H1 H2]]]].
        apply IH1 in H1.
        apply (lang_seq r1 r2 (String c s1) s2); assumption. }
      destruct (nullable r1) eqn:Hn; [| now apply Hseq].
      apply lang_alt_inv in H as [H|H]; [now apply Hseq |].
      apply (lang_seq r1 r2 EmptyString (String c s)).
      * now apply nullable_iff.
      * now apply IH2.
    + intros H. apply lang_seq_cons_inv in H.
      destruct H as [[s1 [s2 [-> [H1 H2]]]] | [H1 H2]].
      * assert (Hd : lang (Seq (deriv c r1) r2) (s1 ++ s2)).
        { constructor; [now apply IH1 | assumption]. }
        destruct (nullable r1); [now apply lang_alt_l | assumption].
      * apply nullable_iff in H1. rewrite H1.
        apply lang_alt_r. now apply IH2.
  - split; intros H.
    + apply lang_alt_inv in H as [H|H];
        [apply lang_alt_l; now apply IH1 | apply lang_alt_r; now apply IH2].
    + apply lang_alt_inv in H as [H|H];
        [apply lang_alt_l; now apply IH1 | apply lang_alt_r; now apply IH2].
  - split.
    + intros H. apply lang_seq_inv in H as [s1 [s2 [-> [H1 H2]]]].
      apply IH in H1.
      apply (lang_star_cons r (String c s1) s2); assumption.
    + intros H. apply lang_star_cons_inv in H as [s1 [s2 [-> [H1 H2]]]].
      constructor; [now apply IH | assumption].
Qed.

Theorem test_iff (r : regex) (s : string) : test r s = true <-> lang r s.
Proof.
  revert r. induction s as [|c s IH]; intros r; simpl.
  - apply nullable_iff.
  - rewrite IH. apply deriv_iff.
Qed.

End RegexFacts.

(** ** Text classifier *)

Section Classifier.
Import JsString Regex TextClassifier Design.
Local Open Scope string_scope.
Local Arguments String.append !_ _ / : simpl nomatch.

(** The second pattern of the source is subsumed by the first. *)
Lemma re_bracket_sub (s : string) : lang re_bracket s -> lang re_bracket_comma s.
Proof.
  intros H. apply lang_seq_inv in H as (s1 & s2 & -> & H1 & H).
  apply lang_seq_inv in H as (s3 & s4 & -> & H3 & H4).
  constructor; [assumption |]. constructor; [assumption |].
  rewrite <- (append_empty_r s4). constructor; [assumption |].
  change EmptyString with (EmptyString ++ EmptyString).
  constructor; [apply lang_alt_l; constructor | constructor].
Qed.

Lemma rejected_iff (t : string) :
  (String.eqb t "{" || String.eqb t "}" || String.eqb t "[" || String.eqb t "]"
   || String.eqb t "]," || String.eqb t "},"
   || String.eqb t (key_questions ++ " [") || String.eqb t (key_prompts ++ " [")
   || startsWith t key_questions || startsWith t key_prompts
   || test re_bracket_comma t || test re_bracket t) = true
  <-> StructuralToken t.
Proof.
  unfold StructuralToken.
  rewrite !orb_true_iff, !String.eqb_eq, !startsWith_iff, !test_iff.
  split.
  - intros H. repeat (destruct H as [H|H]);
      try (left; subst t; simpl; tauto).
    + right; right; left. exists " [". exact H.
    + right; right; right. exists " [". exact H.
    + right; right; left. exact H.
    + right; right; right. exact H.
    + right; left. exact H.
    + right; left. now apply re_bracket_sub.
  - intros [H | [H | [H | H]]].
    + simpl in H. intuition.
    + left; right. exact H.
    + do 3 left; right. exact H.
    + do 2 left; right. exact H.
Qed.

(** C5. [isValidQuestionText] returns false exactly for the empty string
    and for the texts whose trimmed form is a structural token (one of
    the six literal tokens, a single bracket with optional comma, or a
    line beginning with the key "questions": or "prompts":); it returns
    true for every other text. *)
Theorem isValidQuestionText_spec (text : string) :
  (isValidQuestionText text = false
     <-> text = EmptyString \/ StructuralToken (trim text))
  /\ (isValidQuestionText text = true
     <-> text <> EmptyString /\ ~ StructuralToken (trim text)).
Proof.
  assert (Hfalse : isValidQuestionText text = false
                   <-> text = EmptyString \/ StructuralToken (trim text)).
  { unfold isValidQuestionText. destruct text as [|c text].
    - simpl. split; auto.
    - change (negb (nonEmpty (String c text))) with false. cbv iota zeta.
      rewrite negb_false_iff, rejected_iff.
      split; [auto | intros [H | H]; [discriminate | exact H]]. }
  split; [exact Hfalse |].
  rewrite <- not_false_iff_true, Hfalse.
  split.
  - intros H. split; intros H'; apply H; auto.
  - intros [H1 H2] [H | H]; auto.
Qed.

End Classifier.

(** ** Answer aligner *)

Section Aligner.
Import JsString TextClassifier Types Analysis Design Fixtures.
Local Open Scope string_scope.

Lemma indexIs_true (i : IndexField) (k : nat) :
  indexIs i k = true <-> i = IndexNum (Z.of_nat k).
Proof.
  destruct i as [| |n]; simpl; try (split; [discriminate | congruence]).
  rewrite Z.eqb_eq. split; congruence.
Qed.

Lemma find_index_Some (valid : list Entry) (k : nat) (e : Entry) :
  List.find (fun q => indexIs (q_index q) k) valid = Some e
  <-> FirstWithIndex valid k e.
Proof.
  unfold FirstWithIndex. induction valid as [|x valid IH]; simpl.
  - split; [discriminate |].
    intros (pre & post & H & _). destruct pre; discriminate.
  - destruct (indexIs (q_index x) k) eqn:Hx.
    + apply indexIs_true in Hx. split.
      * intros [= ->]. exists [], valid. auto.
      * intros (pre & post & H & He & Hpre). destruct pre as [|y pre].
        -- simpl in H. congruence.
        -- simpl in H. injection H as -> ->. inversion Hpre; subst. contradiction.
    + assert (Hne : q_index x <> IndexNum (Z.of_nat k)).
      { intros H. apply indexIs_true in H. congruence. }
      rewrite IH. split.
      * intros (pre & post & -> & He & Hpre). exists (x :: pre), post. auto.
      * intros (pre & post & H & He & Hpre). destruct pre as [|y pre].
        -- simpl in H. injection H as -> ->. contradiction.
        -- simpl in H. injection H as -> ->. inversion Hpre; subst.
           exists pre, post. auto.
Qed.

Lemma find_index_None (valid : list Entry) (k : nat) :
  List.find (fun q => indexIs (q_index q) k) valid = None
  <-> NoneWithIndex valid k.
Proof.
  unfold NoneWithIndex. induction valid as [|x valid IH]; simpl.
  - split; auto.
  - destruct (indexIs (q_index x) k) eqn:Hx.
    + apply indexIs_true in Hx. split; [discriminate |].
      intros H. inversion H; subst. contradiction.
    + rewrite IH. split.
      * intros H. constructor; [| exact H].
        intros Hq. apply indexIs_true in Hq. congruence.
      * intros H. now inversion H.
Qed.

(** What [findEntry] of InterviewModal returns, case by case. *)
Lemma findEntry_by_index (valid : list Entry) (i k : nat) (e : Entry) :
  FirstWithIndex valid k e ->
  InterviewModal.findEntry valid i k
  = if InterviewModal.looksLikePrompt e then emptyEntry else e.
Proof.
  intros H. apply find_index_Some in H.
  unfold InterviewModal.findEntry. rewrite H. reflexivity.
Qed.

Lemma findEntry_by_position (valid : list Entry) (i k : nat) (c : Entry) :
  NoneWithIndex valid k -> valid !! i = Some c ->
  InterviewModal.findEntry valid i k
  = if InterviewModal.looksLikePrompt c then emptyEntry else c.
Proof.
  intros H Hc. apply find_index_None in H.
  unfold InterviewModal.findEntry. rewrite H, Hc.
  unfold InterviewModal.looksLikePrompt.
  destruct (truthy (q_promptText c)) eqn:Hp; simpl.
  - reflexivity.
  - destruct (InterviewModal.responseOnly c) eqn:Hr; simpl.
    + reflexivity.
    + rewrite Hp, Hr. reflexivity.
Qed.

Lemma findEntry_unmatched (valid : list Entry) (i k : nat) :
  NoneWithIndex valid k -> valid !! i = None ->
  InterviewModal.findEntry valid i k = emptyEntry.
Proof.
  intros H Hc. apply find_index_None in H.
  unfold InterviewModal.findEntry. rewrite H, Hc. reflexivity.
Qed.

(** The entries that pass the filter of lines 182-203 never look like a
    prompt, so the two later checks of the aligner never fire on them. *)
Lemma validQuestions_not_prompt (resultQs : list ResultItem)
    (resultPrompts : list PromptEntry) (e : Entry) :
  In e (InterviewModal.validQuestions resultQs resultPrompts) ->
  InterviewModal.looksLikePrompt e = false.
Proof.
  unfold InterviewModal.validQuestions. intros H.
  apply list_elem_of_In, list_elem_of_omap in H as (item & Hin & Hitem).
  apply list_elem_of_In, filter_In in Hin as [_ Hvalid].
  destruct item as [q|]; [| discriminate]. injection Hitem as ->.
  unfold InterviewModal.isValidQuestion in Hvalid.
  unfold InterviewModal.looksLikePrompt.
  destruct (truthy (q_promptText e)); [discriminate |].
  destruct (truthy (q_questionText e) && _); [discriminate |].
  destruct (InterviewModal.responseOnly e); [discriminate | reflexivity].
Qed.

Lemma filtered_index_position (all : gset string) (toUse : list string)
    (i k : nat) (qText : string) :
  InterviewModal.filteredQuestionsWithIndices all toUse !! i = Some (qText, k) ->
  toUse !! k = Some qText.
Proof.
  intros H. apply list_elem_of_lookup_2, list_elem_of_In in H.
  apply filter_In in H as [H _].
  apply list_elem_of_In, elem_of_lookup_imap in H as (j & y & Heq & Hj).
  now injection Heq as -> ->.
Qed.

Lemma mapped_lookup (valid : list Entry) (filtered : list (string * nat))
    (i k : nat) (qText : string) :
  filtered !! i = Some (qText, k) ->
  InterviewModal.mapped valid filtered !! i
  = Some (InterviewModal.answerBlock qText (InterviewModal.findEntry valid i k)).
Proof.
  intros H. unfold InterviewModal.mapped.
  rewrite list_lookup_imap, H. reflexivity.
Qed.

Lemma download_mapped_lookup (valid : list Entry) (validGuide : list string)
    (i : nat) (qText : string) :
  validGuide !! i = Some qText ->
  Download.mapped valid validGuide !! i
  = Some (Download.answerBlock qText (Download.findEntry valid i)).
Proof.
  intros H. unfold Download.mapped.
  rewrite list_lookup_imap, H. reflexivity.
Qed.

End Aligner.

Section AlignerClaims.
Import JsString TextClassifier Types Analysis Design Fixtures.
Local Open Scope string_scope.

(** C1, as stated, fails: on filteredQuestions ["Q1","Q2"] and
    resultQuestions [{index:1, answerSummary:"A2"}] the answers are not
    ["", "A2"]. *)
Lemma index_test_answers_differ :
  option_map (map answer)
    (InterviewModal.loadAnswers (Some indexTestGuide) indexTestResult [] None)
  <> Some [EmptyString; "A2"].
Proof. vm_compute. discriminate. Qed.

(** C1, amended. On that input the answers are ["A2", "A2"], in the modal
    and in the export: "Q2" is matched by the index field 1; no entry has
    index 0, so "Q1" falls back to the entry at array position 0, which
    is the same entry. *)
Theorem index_test_answers :
  option_map (map answer)
    (InterviewModal.loadAnswers (Some indexTestGuide) indexTestResult [] None)
  = Some ["A2"; "A2"]
  /\ map answer (Download.alignAnswers ["Q1"; "Q2"] indexTestResult) = ["A2"; "A2"]
  /\ FirstWithIndex [answered 1 "A2"] 1 (answered 1 "A2")
  /\ NoneWithIndex [answered 1 "A2"] 0
  /\ [answered 1 "A2"] !! 0%nat = Some (answered 1 "A2").
Proof.
  split; [vm_compute; reflexivity |].
  split; [vm_compute; reflexivity |].
  split; [| split; [| reflexivity]].
  - exists [], []. repeat split. constructor.
  - constructor; [discriminate | constructor].
Qed.

(** C2, as stated, fails: the index searched for is not the position in
    the unfiltered guide list. In the guide ["{", "Q1"] the question "Q1"
    stands at position 1, the aligner searches for index 0 and shows the
    answer of the entry with index 0, where the aligner of the design
    shows the answer of the entry with index 1. And the export of
    download.ts takes a positional candidate that looks like a prompt:
    the reasoning of the block comes from it. *)
Lemma searched_index_not_original_position :
  InterviewModal.filteredQuestionsWithIndices
    (InterviewModal.allPromptTexts noisyGuide [])
    (InterviewModal.questionsToUse noisyGuide
       (InterviewModal.allPromptTexts noisyGuide []) None)
  = [("Q1", 0%nat)]
  /\ questions noisyGuide !! 0%nat <> Some "Q1"
  /\ questions noisyGuide !! 1%nat = Some "Q1"
  /\ InterviewModal.loadAnswers (Some noisyGuide) noisyResult [] None
     = Some [answerOf "Q1" "A0"]
  /\ alignByOriginalPosition noisyGuide noisyResult [] = [answerOf "Q1" "A1"]
  /\ InterviewModal.looksLikePrompt responseOnlyEntry = true
  /\ Download.alignAnswers ["Q1"] [ItemObject responseOnlyEntry]
     = [{| question := "Q1"; answer := EmptyString; quotes := None;
           reasoning := Some "from the outline" |}].
Proof.
  split; [vm_compute; reflexivity |].
  split; [vm_compute; discriminate |].
  split; [reflexivity |].
  split; [vm_compute; reflexivity |].
  split; [vm_compute; reflexivity |].
  split; vm_compute; reflexivity.
Qed.

(** C2, amended. For the filtered question at display index [i], the
    index [k] searched for is the question's position in [questionsToUse]
    (the guide list after the classifier and the prompt filter), which
    the last prompt filter preserves. The answer is read from the first
    valid entry whose index field is [k]; if there is none, from the
    entry at array position [i]; if there is none either, from the empty
    object. The positional candidate is dropped when it looks like a
    prompt, which no entry of [validQuestions] does. The export of
    download.ts makes the same two lookups with [k = i] and without the
    prompt check. *)
Theorem aligner_lookup_order (guide : Guide) (resultQs : list ResultItem)
    (resultPrompts : list PromptEntry)
    (fetched : option InterviewModal.FetchedQuestionnaire)
    (i k : nat) (qText : string) :
  let all := InterviewModal.allPromptTexts guide resultPrompts in
  let toUse := InterviewModal.questionsToUse guide all fetched in
  let filtered := InterviewModal.filteredQuestionsWithIndices all toUse in
  let valid := InterviewModal.validQuestions resultQs resultPrompts in
  filtered !! i = Some (qText, k) ->
  toUse !! k = Some qText
  /\ (forall e, FirstWithIndex valid k e ->
        InterviewModal.mapped valid filtered !! i
        = Some (InterviewModal.answerBlock qText e))
  /\ (forall c, NoneWithIndex valid k -> valid !! i = Some c ->
        InterviewModal.mapped valid filtered !! i
        = Some (InterviewModal.answerBlock qText c))
  /\ (NoneWithIndex valid k -> valid !! i = None ->
        InterviewModal.mapped valid filtered !! i = Some (emptyAnswer qText))
  /\ (forall entries c, NoneWithIndex entries k -> entries !! i = Some c ->
        InterviewModal.findEntry entries i k
        = if InterviewModal.looksLikePrompt c then emptyEntry else c)
  /\ (forall (validGuide : list string) (j : nat) (q : string),
        validGuide !! j = Some q ->
        let entries := Download.validQuestions resultQs in
        (forall e, FirstWithIndex entries j e ->
           Download.mapped entries validGuide !! j = Some (Download.answerBlock q e))
        /\ (forall c, NoneWithIndex entries j -> entries !! j = Some c ->
              Download.mapped entries validGuide !! j = Some (Download.answerBlock q c))
        /\ (NoneWithIndex entries j -> entries !! j = None ->
              Download.mapped entries validGuide !! j = Some (emptyAnswer q))).
Proof.
  intros all toUse filtered valid Hi.
  split; [exact (filtered_index_position _ _ _ _ _ Hi) |].
  rewrite (mapped_lookup valid filtered i k qText Hi).
  split; [| split; [| split; [| split]]].
  - intros e He. rewrite (findEntry_by_index _ _ _ _ He).
    rewrite (validQuestions_not_prompt resultQs resultPrompts e); [reflexivity |].
    destruct He as (pre & post & Hv & _). fold valid. rewrite Hv.
    apply in_or_app. right. now left.
  - intros c Hnone Hc. rewrite (findEntry_by_position _ _ _ _ Hnone Hc).
    rewrite (validQuestions_not_prompt resultQs resultPrompts c); [reflexivity |].
    apply list_elem_of_In. eapply list_elem_of_lookup_2. exact Hc.
  - intros Hnone Hc. rewrite (findEntry_unmatched _ _ _ Hnone Hc). reflexivity.
  - intros entries c Hnone Hc. exact (findEntry_by_position _ _ _ _ Hnone Hc).
  - intros validGuide j q Hj entries.
    rewrite (download_mapped_lookup entries validGuide j q Hj).
    unfold Download.findEntry. split; [| split].
    + intros e He. apply find_index_Some in He. rewrite He. reflexivity.
    + intros c Hnone Hc. apply find_index_None in Hnone. rewrite Hnone, Hc.
      reflexivity.
    + intros Hnone Hc. apply find_index_None in Hnone. rewrite Hnone, Hc.
      reflexivity.
Qed.



Lemma aligner_lookup_order_witness :
  InterviewModal.questionsToUse noisyGuide
    (InterviewModal.allPromptTexts noisyGuide []) None !! 0%nat = Some "Q1".
Proof.
  apply (aligner_lookup_order noisyGuide noisyResult [] None 0 0 "Q1").
  vm_compute. reflexivity.
Defined.






End AlignerClaims.

(** ** Prompt/question partitioner *)

Section Partitioner.
Import JsString TextClassifier Types Analysis Design Fixtures.
Local Open Scope string_scope.
Local Arguments String.append !_ _ / : simpl nomatch.

Lemma truthy_Some (t : string) : t <> EmptyString -> truthy (Some t) = true.
Proof. destruct t; simpl; congruence. Qed.

(** Every prompt with a text is in the set the partitioner filters by. *)
Lemma prompt_text_in_set (guide : Guide) (resultPrompts : list PromptEntry)
    (t : string) :
  PromptTextOf guide resultPrompts t -> t <> EmptyString ->
  normalize t ∈ InterviewModal.allPromptTexts guide resultPrompts.
Proof.
  intros [(p & Hin & Hp) | (ps & Hps & Hin)] Ht;
    unfold InterviewModal.allPromptTexts; apply elem_of_union; [left | right].
  - unfold InterviewModal.promptTexts.
    apply elem_of_list_to_set, list_elem_of_In, in_map_iff.
    exists p. rewrite Hp. split; [reflexivity |].
    apply filter_In. split; [exact Hin |]. rewrite Hp. now apply truthy_Some.
  - unfold InterviewModal.normalizedPrompts. rewrite Hps. simpl.
    apply elem_of_list_to_set, list_elem_of_In, in_map_iff.
    exists t. split; [reflexivity |].
    apply filter_In. split; [exact Hin |]. now destruct t.
Qed.

(** A string that contains one of its own length is that string. *)
Lemma includes_same_length (l s pre post : string) :
  l = pre ++ s ++ post -> String.length l = String.length s -> l = s.
Proof.
  intros -> H. rewrite !append_length in H.
  destruct pre; [| simpl in H; lia].
  destruct post; [| simpl in H; lia].
  simpl. now rewrite append_empty_r.
Qed.

Lemma nearDuplicate_complete (a b : string) :
  NearDuplicate a b -> a <> b -> InterviewModal.nearDuplicate a b = true.
Proof.
  intros (s & l & Hsl & Hle & Hratio & pre & post & Hinc) Hne.
  assert (Hlt : String.length s <> String.length l).
  { intros Heq. apply Hne. symmetry in Heq.
    pose proof (includes_same_length _ _ _ _ Hinc Heq) as Hls.
    destruct Hsl as [[<- <-] | [<- <-]]; congruence. }
  assert (Hincl : includes l s = true) by (apply includes_iff; eauto).
  unfold InterviewModal.nearDuplicate, InterviewModal.ratioAtLeast08.
  destruct Hsl as [[-> ->] | [-> ->]].
  - assert (Hcmp : Nat.ltb (String.length b) (String.length a) = false)
      by (apply Nat.ltb_ge; lia).
    rewrite Hcmp, Hincl, andb_true_r.
    apply andb_true_iff. split; [apply Nat.ltb_lt | apply Nat.leb_le]; lia.
  - assert (Hcmp : Nat.ltb (String.length b) (String.length a) = true)
      by (apply Nat.ltb_lt; lia).
    rewrite Hcmp, Hincl, andb_true_r.
    apply andb_true_iff. split; [apply Nat.ltb_lt | apply Nat.leb_le]; lia.
Qed.

(** The test of the source accepts only near duplicates. *)
Lemma nearDuplicate_sound (a b : string) :
  InterviewModal.nearDuplicate a b = true -> NearDuplicate a b.
Proof.
  unfold InterviewModal.nearDuplicate, InterviewModal.ratioAtLeast08.
  destruct (Nat.ltb (String.length b) (String.length a)) eqn:Hcmp;
    rewrite !andb_true_iff, Nat.leb_le, includes_iff;
    intros [[_ Hr] (pre & post & Hinc)].
  - apply Nat.ltb_lt in Hcmp. exists b, a. repeat split; eauto; lia.
  - apply Nat.ltb_ge in Hcmp. exists a, b. repeat split; eauto; lia.
Qed.

Lemma matchesPrompt_true (all : gset string) (nq p : string) :
  p ∈ all -> nq = p \/ NearDuplicate nq p ->
  InterviewModal.matchesPrompt all nq = true.
Proof.
  intros Hp H. unfold InterviewModal.matchesPrompt.
  destruct (String.eqb_spec nq p) as [-> | Hne].
  - rewrite bool_decide_eq_true_2 by exact Hp. reflexivity.
  - destruct H as [H | H]; [contradiction |].
    apply orb_true_iff. right. apply existsb_exists. exists p. split.
    + apply list_elem_of_In, elem_of_elements. exact Hp.
    + rewrite (nearDuplicate_complete _ _ H Hne). apply orb_true_r.
Qed.

(** C4, as stated, fails for a prompt without text: the blank guide line
    " " normalizes to the empty string, as the prompt text does, and is
    kept. *)
Lemma blank_line_kept_despite_prompt :
  PromptTextOf blankGuide untitledPrompt EmptyString
  /\ normalize " " = normalize EmptyString
  /\ In " " (InterviewModal.filteredQuestions blankGuide untitledPrompt None).
Proof.
  split; [| split].
  - left. eexists. split; [left; reflexivity | reflexivity].
  - reflexivity.
  - vm_compute. auto.
Qed.

(** C4, amended. A guide line is excluded from the filtered questions
    whenever its normalized form equals the normalized text of some
    prompt with a non-empty text (of the analysis result or of the
    guide), or is a near duplicate of it: the shorter of the two
    normalized strings is at least 0.8 times as long as the longer and
    the longer contains it. *)
Theorem prompt_lines_excluded (guide : Guide) (resultPrompts : list PromptEntry)
    (fetched : option InterviewModal.FetchedQuestionnaire) (qText t : string) :
  PromptTextOf guide resultPrompts t ->
  t <> EmptyString ->
  normalize qText = normalize t \/ NearDuplicate (normalize qText) (normalize t) ->
  ~ In qText (InterviewModal.filteredQuestions guide resultPrompts fetched)
  /\ ~ In qText (InterviewModal.validGuideQuestions guide
                   (InterviewModal.allPromptTexts guide resultPrompts)).
Proof.
  intros Hp Ht Hmatch.
  pose proof (prompt_text_in_set _ _ _ Hp Ht) as Hin.
  pose proof (matchesPrompt_true _ _ _ Hin Hmatch) as Hm.
  split.
  - unfold InterviewModal.filteredQuestions. intros H.
    apply in_map_iff in H as ([q k] & Hq & H). simpl in Hq. subst q.
    unfold InterviewModal.filteredQuestionsWithIndices in H.
    apply filter_In in H as [_ H]. rewrite Hm in H. discriminate.
  - unfold InterviewModal.validGuideQuestions. intros H.
    apply filter_In in H as [_ H]. rewrite Hm, andb_false_r in H. discriminate.
Qed.

Lemma prompt_lines_excluded_witness :
  ~ In "What Crops do you grow"
      (InterviewModal.filteredQuestions
         (guideOf ["What Crops do you grow"; "Q2"] (Some ["what crops do you grow?"]))
         [] None).
Proof.
  apply (prompt_lines_excluded
           (guideOf ["What Crops do you grow"; "Q2"] (Some ["what crops do you grow?"]))
           [] None "What Crops do you grow" "what crops do you grow?").
  - right. eexists. split; [reflexivity | left; reflexivity].
  - discriminate.
  - right. exists "what crops do you grow", "what crops do you grow?".
    split; [left; split; reflexivity |].
    split; [vm_compute; lia |].
    split; [vm_compute; lia |].
    exists EmptyString, "?". reflexivity.
Defined.

End Partitioner.

(** ** Version resolver *)

Section VersionResolver.
Import Versions Design.
Local Open Scope Z_scope.

Variable modelOf : Z -> option string.
Variable now : string.
Variable Payload : Type.
Variable getAnalysis : AnalysisOpts -> Payload.

Lemma insertSorted_perm (x : VersionInfo) (l : list VersionInfo) :
  Permutation (insertSorted byVersionDescending x l) (x :: l).
Proof.
  induction l as [|y l IH]; simpl; [reflexivity |].
  destruct (Z.leb (byVersionDescending x y) 0); [reflexivity |].
  rewrite IH. apply perm_swap.
Qed.

Lemma sort_perm (l : list VersionInfo) :
  Permutation (sort byVersionDescending l) l.
Proof.
  induction l as [|x l IH]; simpl; [reflexivity |].
  rewrite insertSorted_perm. now constructor.
Qed.

Lemma insertSorted_sorted (x : VersionInfo) (l : list VersionInfo) :
  StronglySorted notBelow l ->
  StronglySorted notBelow (insertSorted byVersionDescending x l).
Proof.
  induction l as [|y l IH]; simpl; intros Hs.
  - constructor; [constructor | constructor].
  - inversion Hs as [|? ? Hl Hy]; subst.
    destruct (Z.leb (byVersionDescending x y) 0) eqn:Hc.
    + apply Z.leb_le in Hc. unfold byVersionDescending in Hc.
      constructor; [exact Hs |].
      constructor; [unfold notBelow; lia |].
      eapply List.Forall_impl; [| exact Hy].
      intros z Hz. unfold notBelow in *. lia.
    + apply Z.leb_gt in Hc. unfold byVersionDescending in Hc.
      constructor; [now apply IH |].
      eapply Permutation_Forall; [symmetry; apply insertSorted_perm |].
      constructor; [unfold notBelow; lia | exact Hy].
Qed.

Lemma sort_sorted (l : list VersionInfo) :
  StronglySorted notBelow (sort byVersionDescending l).
Proof.
  induction l as [|x l IH]; simpl; [constructor |].
  now apply insertSorted_sorted.
Qed.

Lemma versions_of_versionsWithModel (l : list AnalysisListItem) :
  map version (versionsWithModel modelOf now l) = map ali_version l.
Proof.
  unfold versionsWithModel. rewrite map_map. reflexivity.
Qed.

Lemma sorted_versions_perm (l : list AnalysisListItem) :
  Permutation (map version (sorted modelOf now l)) (map ali_version l).
Proof.
  unfold sorted. rewrite <- versions_of_versionsWithModel.
  apply Permutation_map, sort_perm.
Qed.

(** The selected version is a version of the list and no version of the
    list is greater. *)
Lemma selectedVersion_max (l : list AnalysisListItem) (m : Z) :
  selectedVersion modelOf now l = Some m ->
  In m (map ali_version l) /\ (forall a, In a l -> ali_version a <= m).
Proof.
  unfold selectedVersion. intros H.
  pose proof (sort_sorted (versionsWithModel modelOf now l)) as Hs.
  pose proof (sorted_versions_perm l) as Hp.
  unfold sorted in *.
  destruct (sort byVersionDescending (versionsWithModel modelOf now l))
    as [|v rest]; [discriminate |].
  injection H as <-. split.
  - eapply Permutation_in; [exact Hp |]. now left.
  - intros a Ha.
    assert (Hin : In (ali_version a) (map version (v :: rest))).
    { eapply Permutation_in; [symmetry; exact Hp |]. now apply in_map. }
    inversion Hs as [|? ? _ Hall]; subst.
    simpl in Hin. destruct Hin as [<- | Hin]; [lia |].
    apply in_map_iff in Hin as (w & <- & Hw).
    rewrite List.Forall_forall in Hall. apply Hall in Hw. exact Hw.
Qed.

Lemma selectedVersion_None (l : list AnalysisListItem) :
  selectedVersion modelOf now l = None <-> l = [].
Proof.
  unfold selectedVersion.
  pose proof (sorted_versions_perm l) as Hp.
  destruct (sorted modelOf now l) as [|v rest] eqn:Hs; split; intros H;
    try reflexivity; try discriminate.
  - simpl in Hp. apply Permutation_nil in Hp. now destruct l.
  - subst l. simpl in Hp. symmetry in Hp. apply Permutation_nil in Hp.
    discriminate.
Qed.

(** C6. The fetched list is sorted descending by version number, so the
    version selected by default is the maximum of the list; hence two
    lists that are permutations of one another select the same version
    and request the same payload, and a list of the versions 1, 2, 3 in
    any order selects version 3. *)
Theorem latest_version_independent_of_order (l l' : list AnalysisListItem) :
  Permutation l l' ->
  StronglySorted notBelow (sorted modelOf now l)
  /\ (forall m, selectedVersion modelOf now l = Some m ->
        In m (map ali_version l) /\ (forall a, In a l -> ali_version a <= m))
  /\ selectedVersion modelOf now l = selectedVersion modelOf now l'
  /\ resolveLatest modelOf now Payload getAnalysis l
     = resolveLatest modelOf now Payload getAnalysis l'
  /\ (map ali_version l' = [1; 2; 3] ->
        selectedVersion modelOf now l = Some 3
        /\ resolveLatest modelOf now Payload getAnalysis l
           = Some (getAnalysis (OptVersion 3))).
Proof.
  intros Hperm.
  assert (Hsel : selectedVersion modelOf now l = selectedVersion modelOf now l').
  { destruct (selectedVersion modelOf now l) as [m|] eqn:Hm;
      destruct (selectedVersion modelOf now l') as [m'|] eqn:Hm'.
    - apply selectedVersion_max in Hm as [Hin Hmax].
      apply selectedVersion_max in Hm' as [Hin' Hmax'].
      apply in_map_iff in Hin as (a & <- & Ha).
      apply in_map_iff in Hin' as (a' & <- & Ha').
      f_equal. apply Z.le_antisymm.
      + apply Hmax'. eapply Permutation_in; [exact Hperm | exact Ha].
      + apply Hmax. eapply Permutation_in; [symmetry; exact Hperm | exact Ha'].
    - apply selectedVersion_None in Hm'. subst l'.
      apply Permutation_sym, Permutation_nil in Hperm. subst l.
      vm_compute in Hm. discriminate.
    - apply selectedVersion_None in Hm. subst l.
      apply Permutation_nil in Hperm. subst l'.
      vm_compute in Hm'. discriminate.
    - reflexivity. }
  split; [apply sort_sorted |].
  split; [apply selectedVersion_max |].
  split; [exact Hsel |].
  split; [unfold resolveLatest; now rewrite Hsel |].
  intros H123.
  assert (H3 : selectedVersion modelOf now l = Some 3).
  { rewrite Hsel. destruct (selectedVersion modelOf now l') as [m|] eqn:Hm.
    - apply selectedVersion_max in Hm as [Hin Hmax]. rewrite H123 in Hin.
      assert (H3in : In 3 (map ali_version l')) by (rewrite H123; simpl; auto).
      apply in_map_iff in H3in as (a & Ha3 & Ha). apply Hmax in Ha.
      simpl in Hin. f_equal. lia.
    - apply selectedVersion_None in Hm. subst l'. discriminate. }
  split; [exact H3 |]. unfold resolveLatest. rewrite H3. reflexivity.
Qed.

End VersionResolver.

Lemma latest_version_witness :
  Versions.selectedVersion (fun _ => None) EmptyString
    [ {| Versions.ali_version := 2; Versions.ali_lastModified := None |};
      {| Versions.ali_version := 3; Versions.ali_lastModified := None |};
      {| Versions.ali_version := 1; Versions.ali_lastModified := None |} ]
  = Some 3%Z.
Proof.
  apply (latest_version_independent_of_order (fun _ => None) EmptyString
           Versions.AnalysisOpts (fun o => o)
           [ {| Versions.ali_version := 2; Versions.ali_lastModified := None |};
             {| Versions.ali_version := 3; Versions.ali_lastModified := None |};
             {| Versions.ali_version := 1; Versions.ali_lastModified := None |} ]
           [ {| Versions.ali_version := 1; Versions.ali_lastModified := None |};
             {| Versions.ali_version := 2; Versions.ali_lastModified := None |};
             {| Versions.ali_version := 3; Versions.ali_lastModified := None |} ]).
  - apply Permutation_sym.
    apply (perm_trans (perm_swap _ _ _)). apply perm_skip. apply perm_swap.
  - reflexivity.
Defined.

(** ** Polling loop *)

Section Polling.
Import Azure Design.
Local Open Scope Z_scope.

Variable getTranscript : Z -> Outcome TranscriptResponse.
Variable getTranslation : Z -> Outcome TranscriptResponse.
Variable maxAttempts : Z.
Variable intervalMs : Z.

Lemma readyData_isSet (o : Outcome TranscriptResponse) (d : string) :
  readyData o = Some d -> isSet (Some d) = true.
Proof.
  unfold readyData. destruct o as [resp|]; [| discriminate].
  destruct (tr_status resp); [discriminate |].
  destruct (tr_data resp) as [d'|]; [| discriminate].
  destruct (JsString.nonEmpty d') eqn:Hd; [| discriminate].
  intros [= <-]. exact Hd.
Qed.

Lemma readyBy_mono (get : Z -> Outcome TranscriptResponse) (k k' : Z) :
  readyBy get k -> k <= k' -> readyBy get k'.
Proof. intros (i & Hi & Hr) Hk. exists i. split; [lia | exact Hr]. Qed.

Lemma readyBy_succ (get : Z -> Outcome TranscriptResponse) (k : Z) :
  readyBy get (k + 1) <-> readyBy get k \/ (0 <= k /\ readyData (get (k + 1)) <> None).
Proof.
  split.
  - intros (i & Hi & Hr). destruct (Z.eq_dec i (k + 1)) as [-> | Hne].
    + right. split; [lia | exact Hr].
    + left. exists i. split; [lia | exact Hr].
  - intros [H | [Hk Hr]].
    + eapply readyBy_mono; [exact H | lia].
    + exists (k + 1). split; [lia | exact Hr].
Qed.

(** One round for one text keeps the invariant that the text is set
    exactly when some attempt so far has found it ready. *)
Lemma tryGet_spec (get : Z -> Outcome TranscriptResponse) (a : Z)
    (current : option string) (call : Event) (message : string) :
  0 <= a ->
  (isSet current = true <-> readyBy get a) ->
  (call = CallGetTranscript (a + 1) \/ call = CallGetTranslation (a + 1)) ->
  let '(next, evs) := tryGet current call (get (a + 1)) message in
  (isSet next = true <-> readyBy get (a + 1))
  /\ sleeps evs = []
  /\ (requests evs <= 1)%nat.
Proof.
  intros Ha Hinv Hcall. unfold tryGet.
  destruct (isSet current) eqn:Hset.
  - split; [| split; [reflexivity | unfold requests; simpl; lia]].
    rewrite Hset. split; [| reflexivity].
    intros _. apply readyBy_succ. left. now apply Hinv.
  - assert (Hnot : ~ readyBy get a).
    { intros H. apply Hinv in H. discriminate. }
    destruct (readyData (get (a + 1))) as [d|] eqn:Hd.
    + split; [| split].
      * rewrite (readyData_isSet _ _ Hd). split; [| reflexivity].
        intros _. apply readyBy_succ. right. split; [exact Ha | congruence].
      * destruct Hcall as [-> | ->]; reflexivity.
      * destruct Hcall as [-> | ->]; unfold requests; simpl; lia.
    + split; [| split].
      * rewrite Hset. split; [discriminate |].
        intros H. apply readyBy_succ in H as [H | [_ H]]; contradiction.
      * destruct Hcall as [-> | ->]; reflexivity.
      * destruct Hcall as [-> | ->]; unfold requests; simpl; lia.
Qed.

Lemma sleeps_app (l1 l2 : list Event) : sleeps (l1 ++ l2) = (sleeps l1 ++ sleeps l2)%list.
Proof. unfold sleeps. apply omap_app. Qed.

Lemma requests_app (l1 l2 : list Event) :
  requests (l1 ++ l2) = (requests l1 + requests l2)%nat.
Proof. unfold requests. now rewrite List.filter_app, length_app. Qed.

(** The loop, started in a state that satisfies its invariant, returns
    when it has enough fuel, and its result is determined by the
    attempts at which the two texts become ready. *)
Lemma pollLoop_spec (fuel : nat) (a : Z) (h e : option string) :
  0 <= a ->
  (Z.to_nat (maxAttempts - a) <= fuel)%nat ->
  (isSet h = true <-> readyBy getTranscript a) ->
  (isSet e = true <-> readyBy getTranslation a) ->
  (forall k, k <= a -> ~ (readyBy getTranscript k /\ readyBy getTranslation k)) ->
  exists r n evs,
    pollLoop getTranscript getTranslation maxAttempts intervalMs fuel a h e
    = Some (r, n, evs)
    /\ a <= n <= Z.max a maxAttempts
    /\ (isSet (hindiTranscript r) = true <-> readyBy getTranscript n)
    /\ (isSet (englishTranscript r) = true <-> readyBy getTranslation n)
    /\ (forall k, k < n -> ~ (readyBy getTranscript k /\ readyBy getTranslation k))
    /\ (complete r = false -> n = Z.max a maxAttempts)
    /\ sleeps evs
       = repeat intervalMs (Z.to_nat ((if complete r then n - 1 else n) - a))
    /\ (requests evs <= 2 * Z.to_nat (n - a))%nat.
Proof.
  revert a h e. induction fuel as [|fuel IH]; intros a h e Ha Hfuel Hh He Hmin.
  - (* no fuel: the loop condition is already false *)
    assert (Hge : Z.ltb a maxAttempts = false) by (apply Z.ltb_ge; lia).
    simpl. rewrite Hge.
    assert (Hc : complete {| hindiTranscript := h; englishTranscript := e |} = false).
    { unfold complete. simpl. apply not_true_is_false. intros Hb.
      apply andb_true_iff in Hb as [H1 H2].
      apply (Hmin a); [lia |]. split; [now apply Hh | now apply He]. }
    eexists _, a, []. split; [reflexivity |].
    rewrite Hc. repeat split; try (now apply Hh); try (now apply He); try lia.
    + intros k Hk. apply Hmin. lia.
    + replace (a - a) with 0 by lia. reflexivity.
    + unfold requests. simpl. lia.
  - simpl. destruct (Z.ltb a maxAttempts) eqn:Hlt.
    + apply Z.ltb_lt in Hlt.
      pose proof (tryGet_spec getTranscript a h (CallGetTranscript (a + 1))
                    "Hindi transcript ready" Ha Hh (or_introl eq_refl)) as H1.
      destruct (tryGet h (CallGetTranscript (a + 1)) (getTranscript (a + 1))
                  "Hindi transcript ready") as [h' ev1].
      destruct H1 as (Hh' & Hs1 & Hr1).
      pose proof (tryGet_spec getTranslation a e (CallGetTranslation (a + 1))
                    "English translation ready" Ha He (or_intror eq_refl)) as H2.
      destruct (tryGet e (CallGetTranslation (a + 1)) (getTranslation (a + 1))
                  "English translation ready") as [e' ev2].
      destruct H2 as (He' & Hs2 & Hr2).
      destruct (isSet h' && isSet e') eqn:Hboth.
      * (* both ready: return at once *)
        eexists _, (a + 1), _. split; [reflexivity |].
        unfold complete. simpl. rewrite Hboth.
        split; [lia |]. split; [exact Hh' |]. split; [exact He' |].
        split; [intros k Hk; apply Hmin; lia |].
        split; [discriminate |].
        split.
        -- rewrite sleeps_app, Hs1, Hs2.
           replace (a + 1 - 1 - a) with 0 by lia. reflexivity.
        -- rewrite requests_app. replace (a + 1 - a) with 1 by lia.
           change (Z.to_nat 1) with 1%nat. lia.
      * (* sleep and go round again *)
        assert (Hnot : ~ (readyBy getTranscript (a + 1)
                          /\ readyBy getTranslation (a + 1))).
        { intros [Ht Hx]. apply Hh' in Ht. apply He' in Hx.
          rewrite Ht, Hx in Hboth. discriminate. }
        destruct (IH (a + 1) h' e') as (r & n & evs & Hrun & Hn & Hrh & Hre
                                        & Hrmin & Hexh & Hsl & Hrq).
        -- lia.
        -- lia.
        -- exact Hh'.
        -- exact He'.
        -- intros k Hk. destruct (Z.eq_dec k (a + 1)) as [-> | Hne];
             [exact Hnot | apply Hmin; lia].
        -- rewrite Hrun. eexists r, n, _. split; [reflexivity |].
           assert (Hgt : complete r = true -> a + 1 < n).
           { intros Hc. unfold complete in Hc.
             apply andb_true_iff in Hc as [Hc1 Hc2].
             destruct (Z.eq_dec n (a + 1)) as [-> | Hne]; [| lia].
             exfalso. apply Hnot. split; [now apply Hrh | now apply Hre]. }
           split; [lia |]. split; [exact Hrh |]. split; [exact Hre |].
           split; [exact Hrmin |].
           split; [intros Hc; rewrite (Hexh Hc); lia |].
           split.
           ++ rewrite !sleeps_app, Hs1, Hs2. simpl. rewrite Hsl.
              destruct (complete r).
              ** specialize (Hgt eq_refl).
                 replace (Z.to_nat (n - 1 - a))
                   with (S (Z.to_nat (n - 1 - (a + 1)))) by lia.
                 reflexivity.
              ** replace (Z.to_nat (n - a))
                   with (S (Z.to_nat (n - (a + 1)))) by lia.
                 reflexivity.
           ++ rewrite !requests_app.
              assert (Hsleep : requests (Sleep intervalMs :: evs) = requests evs)
                by reflexivity.
              rewrite Hsleep. lia.
    + (* the loop condition is false *)
      apply Z.ltb_ge in Hlt.
      assert (Hc : complete {| hindiTranscript := h; englishTranscript := e |} = false).
      { unfold complete. simpl. apply not_true_is_false. intros Hb.
        apply andb_true_iff in Hb as [H1 H2].
        apply (Hmin a); [lia |]. split; [now apply Hh | now apply He]. }
      eexists _, a, []. split; [reflexivity |].
      rewrite Hc. repeat split; try (now apply Hh); try (now apply He); try lia.
      * intros k Hk. apply Hmin. lia.
      * replace (a - a) with 0 by lia. reflexivity.
      * unfold requests. simpl. lia.
Qed.

(** The loop reads its two oracles only through [readyData]: a call that
    throws and a call that reports pending have the same effect. *)
Lemma pollLoop_ext (get1 get2 : Z -> Outcome TranscriptResponse)
    (fuel : nat) (a : Z) (h e : option string) :
  (forall i, readyData (get1 i) = readyData (getTranscript i)) ->
  (forall i, readyData (get2 i) = readyData (getTranslation i)) ->
  pollLoop get1 get2 maxAttempts intervalMs fuel a h e
  = pollLoop getTranscript getTranslation maxAttempts intervalMs fuel a h e.
Proof.
  intros H1 H2. revert a h e.
  induction fuel as [|fuel IH]; intros a h e; simpl; [reflexivity |].
  unfold tryGet. rewrite H1, H2.
  destruct (Z.ltb a maxAttempts); [| reflexivity].
  destruct (isSet h), (readyData (getTranscript (a + 1)));
    destruct (isSet e), (readyData (getTranslation (a + 1)));
    try reflexivity; cbv beta iota; rewrite IH; reflexivity.
Qed.

End Polling.

Section PollingClaim.
Import Azure Design Fixtures.
Local Open Scope Z_scope.

(** More fuel does not change a result. *)
Lemma pollLoop_fuel_mono (getTranscript getTranslation : Z -> Outcome TranscriptResponse)
    (maxAttempts intervalMs : Z) (fuel fuel' : nat) (a : Z) (h e : option string)
    (x : Transcripts * Z * list Event) :
  pollLoop getTranscript getTranslation maxAttempts intervalMs fuel a h e = Some x ->
  (fuel <= fuel')%nat ->
  pollLoop getTranscript getTranslation maxAttempts intervalMs fuel' a h e = Some x.
Proof.
  revert fuel' a h e x.
  induction fuel as [|fuel IH]; intros fuel' a h e x Hrun Hle.
  - simpl in Hrun. destruct (Z.ltb a maxAttempts) eqn:Hlt; [discriminate |].
    destruct fuel'; simpl; rewrite Hlt; exact Hrun.
  - destruct fuel' as [|fuel']; [lia |].
    simpl in Hrun |- *. destruct (Z.ltb a maxAttempts); [| exact Hrun].
    destruct (tryGet h _ _ _) as [h' ev1].
    destruct (tryGet e _ _ _) as [e' ev2].
    destruct (isSet h' && isSet e'); [exact Hrun |].
    destruct (pollLoop _ _ _ _ fuel (a + 1) h' e') as [[[r n] evs]|] eqn:Hrec;
      [| discriminate].
    rewrite (IH fuel' (a + 1) h' e' _ Hrec) by lia. exact Hrun.
Qed.

(** C7. [pollForTranscripts] always returns, without an exception, after
    at most [maxAttempts] (default 30) rounds, with a sleep of
    [intervalMs] (default 2000) after every round but a last successful
    one and at most two requests per round. It returns in the first
    round at which both texts have been found ready; a request that
    throws counts like one that reports pending; and when the attempts
    are used up it returns what it has, which may be one text or none. *)
Theorem pollForTranscripts_bounded
    (getTranscript getTranslation : Z -> Outcome TranscriptResponse)
    (maxAttempts intervalMs : option Z) :
  exists r n evs,
    pollForTranscripts getTranscript getTranslation maxAttempts intervalMs
    = Some (r, n, evs)
    /\ (forall fuel, (Z.to_nat (default 30%Z maxAttempts) <= fuel)%nat ->
          pollFrom getTranscript getTranslation (default 30 maxAttempts)
                   (default 2000 intervalMs) fuel = Some (r, n, evs))
    /\ 0 <= n <= Z.max 0 (default 30 maxAttempts)
    /\ sleeps evs
       = repeat (default 2000 intervalMs)
                (Z.to_nat (if complete r then n - 1 else n))
    /\ (requests evs <= 2 * Z.to_nat n)%nat
    /\ (isSet (hindiTranscript r) = true <-> readyBy getTranscript n)
    /\ (isSet (englishTranscript r) = true <-> readyBy getTranslation n)
    /\ (forall k, k < n -> ~ (readyBy getTranscript k /\ readyBy getTranslation k))
    /\ (complete r = false -> n = Z.max 0 (default 30 maxAttempts))
    /\ (forall get1 get2,
          (forall i, readyData (get1 i) = readyData (getTranscript i)) ->
          (forall i, readyData (get2 i) = readyData (getTranslation i)) ->
          pollForTranscripts get1 get2 maxAttempts intervalMs = Some (r, n, evs)).
Proof.
  unfold pollForTranscripts, pollFrom.
  set (bound := default 30 maxAttempts). set (ms := default 2000 intervalMs).
  assert (Hno : forall get, ~ readyBy get 0).
  { intros get (i & Hi & _). lia. }
  destruct (pollLoop_spec getTranscript getTranslation bound ms
              (Z.to_nat bound) 0 None None)
    as (r & n & evs & Hrun & Hn & Hrh & Hre & Hmin & Hexh & Hsl & Hrq).
  - lia.
  - lia.
  - split; [discriminate | intros H; exfalso; exact (Hno _ H)].
  - split; [discriminate | intros H; exfalso; exact (Hno _ H)].
  - intros k Hk [(i & Hi & _) _]. lia.
  - exists r, n, evs. split; [exact Hrun |].
    split; [intros fuel Hfuel; exact (pollLoop_fuel_mono _ _ _ _ _ _ _ _ _ _ Hrun Hfuel) |].
    split; [exact Hn |].
    split; [rewrite Hsl; f_equal; f_equal; destruct (complete r); lia |].
    split; [rewrite Z.sub_0_r in Hrq; exact Hrq |].
    split; [exact Hrh |]. split; [exact Hre |]. split; [exact Hmin |].
    split; [exact Hexh |].
    intros get1 get2 H1 H2.
    rewrite (pollLoop_ext getTranscript getTranslation bound ms get1 get2
               (Z.to_nat bound) 0 None None H1 H2).
    exact Hrun.
Qed.

Lemma pollForTranscripts_witness :
  pollForTranscripts flakyTranscript flakyTranslation (Some 5) None
  = pollForTranscripts slowTranscript slowTranslation (Some 5) None.
Proof.
  destruct (pollForTranscripts_bounded slowTranscript slowTranslation (Some 5) None)
    as (r & n & evs & Hrun & _ & _ & _ & _ & _ & _ & _ & _ & Hext).
  rewrite Hrun. apply Hext.
  - intros i. unfold flakyTranscript, slowTranscript.
    destruct (Z.ltb i 2); reflexivity.
  - intros i. unfold flakyTranslation, slowTranslation.
    destruct (Z.ltb i 3); reflexivity.
Defined.

(** The run of the flaky backend: three rounds, two sleeps, both texts. *)
Example pollForTranscripts_flaky_run :
  pollForTranscripts flakyTranscript flakyTranslation None None
  = Some ({| hindiTranscript := Some "namaste"%string;
             englishTranscript := Some "hello"%string |},
          3,
          [CallGetTranscript 1; CallGetTranslation 1; Sleep 2000;
           CallGetTranscript 2; OnProgress "Hindi transcript ready";
           CallGetTranslation 2; Sleep 2000;
           CallGetTranslation 3; OnProgress "English translation ready"]).
Proof. vm_compute. reflexivity. Qed.

End PollingClaim.

(** ** HTTP helpers *)

Section Http.
Import Azure Fixtures.
Local Open Scope Z_scope.

Lemma nonEmpty_true (s : string) : s <> EmptyString -> JsString.nonEmpty s = true.
Proof. destruct s; simpl; congruence. Qed.

(** C8 fails on the code for two of the three functions: with a 404
    answer [deleteRecord] returns the id in the missing list, while
    [deleteQuestionnaire] and [deleteAnalysis] throw the error of a
    failed request. *)
Theorem delete_404_only_tolerated_for_records (BASE_URL : string)
    (audioId questionnaireId : string) (response : Response) :
  BASE_URL <> EmptyString ->
  status response = 404 ->
  deleteRecord BASE_URL audioId (Resolved response)
  = Returned {| deleted := JArray []; missing := JArray [JString audioId] |}
  /\ deleteQuestionnaire BASE_URL questionnaireId (Resolved response)
     = Thrown (HttpError "delete questionnaire" 404
                 (default "Unknown error"%string (text response)))
  /\ deleteAnalysis BASE_URL audioId questionnaireId (Resolved response)
     = Thrown (HttpError "delete analysis" 404
                 (default EmptyString (text response))).
Proof.
  intros Hurl Hs.
  unfold deleteRecord, deleteQuestionnaire, deleteAnalysis, withFetch, ok.
  rewrite (nonEmpty_true _ Hurl), Hs. simpl. auto.
Qed.

Lemma delete_404_witness :
  deleteQuestionnaire "https://backend" "q1" (Resolved notFound)
  = Thrown (HttpError "delete questionnaire" 404 "no such item").
Proof.
  apply (delete_404_only_tolerated_for_records
           "https://backend" "a1" "q1" notFound).
  - discriminate.
  - reflexivity.
Defined.

(** C9. On a response with a success status [listRecords] never throws.
    It returns the empty list for status 204, for a body that is empty or
    not JSON, and for a JSON value that is neither an array nor an object
    with a [records] field; it returns the records for a bare array and
    for an object [{records: [...]}]. *)
Theorem listRecords_tolerates_degenerate_responses (BASE_URL : string)
    (response : Response) :
  BASE_URL <> EmptyString ->
  (status response = 204 ->
     listRecords BASE_URL (Resolved response) = Returned (JArray []))
  /\ (ok response = true ->
      (json response = None ->
         listRecords BASE_URL (Resolved response) = Returned (JArray []))
      /\ (forall raw,
            json response = Some raw -> isArray raw = false ->
            getField raw "records" = None ->
            listRecords BASE_URL (Resolved response) = Returned (JArray []))
      /\ (forall records,
            status response <> 204 -> json response = Some (JArray records) ->
            listRecords BASE_URL (Resolved response) = Returned (JArray records))
      /\ (forall fields records,
            status response <> 204 -> json response = Some (JObject fields) ->
            lookupField "records" fields = Some (JArray records) ->
            listRecords BASE_URL (Resolved response) = Returned (JArray records))
      /\ exists v, listRecords BASE_URL (Resolved response) = Returned v).
Proof.
  intros Hurl. unfold listRecords, withFetch. rewrite (nonEmpty_true _ Hurl).
  cbv beta iota delta [negb].
  split.
  - intros ->. reflexivity.
  - intros Hok. rewrite Hok.
    destruct (Z.eqb (status response) 204) eqn:H204.
    + apply Z.eqb_eq in H204.
      repeat split; try reflexivity; try (intros; reflexivity);
        try (intros; congruence).
      eexists; reflexivity.
    + split; [intros ->; reflexivity |].
      split.
      { intros raw -> Harr Hrec. rewrite Harr, Hrec.
        rewrite andb_false_r. reflexivity. }
      split; [intros records _ ->; reflexivity |].
      split.
      { intros fields records _ -> Hrec. simpl. rewrite Hrec. reflexivity. }
      destruct (json response) as [raw|]; [| eexists; reflexivity].
      destruct (isArray raw); [eexists; reflexivity |].
      destruct (truthy raw && typeofObject raw && truthyField (getField raw "records"));
        eexists; reflexivity.
Qed.

Lemma listRecords_witness :
  listRecords "https://backend"
    (Resolved {| status := 200; statusText := "OK"; text := Some "{}"%string;
                 json := Some (JObject []) |})
  = Returned (JArray []).
Proof.
  destruct (listRecords_tolerates_degenerate_responses
              "https://backend"
              {| status := 200; statusText := "OK"; text := Some "{}"%string;
                 json := Some (JObject []) |}) as [_ H]; [discriminate |].
  destruct (H eq_refl) as (_ & Hshape & _).
  apply (Hshape (JObject [])); reflexivity.
Defined.

End Http.

(** ** Interviews store *)

Section Store.
Import Types InterviewsStore StoreReachability Fixtures.
Local Open Scope string_scope.

Lemma sameAudioAndGuide_true (a : option string) (g : string) (i : Interview) :
  sameAudioAndGuide a g i = true <-> key i = (a, g).
Proof.
  unfold sameAudioAndGuide, key.
  rewrite andb_true_iff, bool_decide_eq_true, String.eqb_eq.
  split; [intros [-> ->]; reflexivity | intros [= -> ->]; auto].
Qed.

(** The merged interview carries the pair of the data. *)
Lemma key_merge (existing : Interview) (data : InterviewData) :
  key existing = (read (d_audioId data), d_guideId data) ->
  key (merge existing data) = (read (d_audioId data), d_guideId data).
Proof.
  unfold key. simpl. intros [= Ha Hg]. f_equal.
  destruct (d_audioId data) as [v|]; simpl in *; [reflexivity | exact Ha].
Qed.

Lemma key_create (uuid : string) (data : InterviewData) :
  key (create uuid data) = (read (d_audioId data), d_guideId data).
Proof. reflexivity. Qed.

Lemma replace_none (x : string) (u : Interview) (l : list Interview) :
  ~ In x (map id l) ->
  map (fun i => if String.eqb (id i) x then u else i) l = l.
Proof.
  induction l as [|i l IH]; simpl; intros H; [reflexivity |].
  destruct (String.eqb_spec (id i) x) as [Heq | Hne]; [tauto |].
  rewrite IH by tauto. reflexivity.
Qed.


(** The ids of a store are pairwise distinct, whatever was done to it. *)
Lemma reachable_ids_distinct (interviews : list Interview) :
  Reachable interviews -> List.NoDup (map id interviews).
Proof.
  induction 1 as [|out Hout|uuid data l _ IH Hnew|target updates l _ IH Hid
                  |target l _ IH|uuid data l _ IH Hnew].
  - constructor.
  - exact Hout.
  - unfold addInterview. rewrite map_app. simpl.
    apply List.NoDup_app; [exact IH | constructor; [intros [] | constructor] |].
    intros k Hk [<- | []]. contradiction.
  - assert (Hids : map id (InterviewsStoreOps.updateInterview target updates l)
                   = map id l).
    { unfold InterviewsStoreOps.updateInterview. rewrite map_map. apply map_ext.
      intros i. destruct (String.eqb (id i) target); [| reflexivity].
      unfold InterviewsStoreOps.mergeUpdates. simpl. now rewrite Hid. }
    now rewrite Hids.
  - unfold deleteInterview. clear -IH.
    induction l as [|x l IHl]; simpl; [constructor |].
    inversion IH as [|y k Hx Hl]; subst.
    destruct (negb (String.eqb (id x) target)); [| now apply IHl].
    simpl. constructor; [| now apply IHl].
    intros Hin. apply Hx. apply in_map_iff in Hin as (i & Hi & Hin).
    apply filter_In in Hin as [Hin _]. apply in_map_iff. eauto.
  - unfold upsertByAudioAndGuide.
    destruct (List.find _ l) as [existing|]; cbv zeta; simpl fst.
    + assert (Hids : map id (map (fun i => if String.eqb (id i) (id existing)
                                           then merge existing data else i) l)
                     = map id l).
      { rewrite map_map. apply map_ext. intros i.
        destruct (String.eqb_spec (id i) (id existing)) as [Heq | _];
          [now rewrite Heq | reflexivity]. }
      now rewrite Hids.
    + rewrite map_app. simpl.
      apply List.NoDup_app; [exact IH | constructor; [intros [] | constructor] |].
      intros k Hk [<- | []]. contradiction.
Qed.


(** Two interviews of different pairs under one id are no store that the
    code can hold; were there such a list, the replacement by id of line
    244 would overwrite both. *)
Remark shared_id_store_unreachable :
  ~ Reachable sharedIdStore
  /\ entriesOf (Some "a1", "g1") sharedIdStore = 1%nat
  /\ entriesOf (Some "a1", "g1")
       (fst (upsertByAudioAndGuide "u" (dataOf "a1" "g1") sharedIdStore)) = 2%nat.
Proof.
  split; [| split; vm_compute; reflexivity].
  intros H. apply reachable_ids_distinct in H.
  apply List.NoDup_cons_iff in H as [H _]. apply H. left. reflexivity.
Qed.



End Store.


(** * Further properties of the code *)

(** ** Alignment of well-indexed analyses *)

Section Alignment.
Import JsString TextClassifier Types Analysis Design Fixtures Observations.
Local Open Scope string_scope.

Lemma filter_all_true {A} (f : A -> bool) (l : list A) :
  (forall x, In x l -> f x = true) -> List.filter f l = l.
Proof.
  induction l as [|x l IH]; simpl; intros H; [reflexivity |].
  rewrite (H x) by auto. rewrite IH by auto. reflexivity.
Qed.

(** The filter of lines 305-324 repeats the prompt test of lines 238-264,
    so it drops nothing from [validGuideQuestions]. *)
Lemma refilter_valid_guide_questions (guide : Guide) (all : gset string) :
  InterviewModal.filteredQuestionsWithIndices all
    (InterviewModal.validGuideQuestions guide all)
  = imap (fun i qText => (qText, i)) (InterviewModal.validGuideQuestions guide all).
Proof.
  unfold InterviewModal.filteredQuestionsWithIndices.
  apply filter_all_true. intros [q k] Hin.
  apply list_elem_of_In, elem_of_lookup_imap in Hin as (j & y & Heq & Hj).
  injection Heq as -> ->.
  apply list_elem_of_lookup_2, list_elem_of_In in Hj.
  unfold InterviewModal.validGuideQuestions in Hj.
  apply filter_In in Hj as [_ Hj]. apply andb_true_iff in Hj as [_ Hj]. exact Hj.
Qed.

Lemma questionsToUse_main_path (guide : Guide) (all : gset string)
    (fetched : option InterviewModal.FetchedQuestionnaire) :
  InterviewModal.validGuideQuestions guide all <> [] \/ noFetchedQuestions fetched ->
  InterviewModal.questionsToUse guide all fetched
  = InterviewModal.validGuideQuestions guide all.
Proof.
  unfold InterviewModal.questionsToUse. intros [Hne | Hno].
  - destruct (InterviewModal.validGuideQuestions guide all); [contradiction |].
    reflexivity.
  - destruct (Nat.eqb _ 0); [| reflexivity].
    destruct fetched as [questionnaire|]; [| reflexivity].
    simpl in Hno. rewrite Hno. reflexivity.
Qed.

Lemma map_fst_imap_pair {A} (f : nat -> nat) (l : list A) :
  map fst (imap (fun i x => (x, f i)) l) = l.
Proof.
  revert f. induction l as [|x l IH]; intros f; simpl; [reflexivity |].
  f_equal. apply (IH (fun i => f (S i))).
Qed.

(** X1. Unless the guide has no valid question and the questionnaire
    fetched in its place brings a question list, the "original index" that
    the aligner searches for is the display index itself, and the filtered
    questions are the guide's valid questions. *)
Theorem original_index_is_display_index (guide : Guide)
    (resultPrompts : list PromptEntry)
    (fetched : option InterviewModal.FetchedQuestionnaire) :
  InterviewModal.validGuideQuestions guide
    (InterviewModal.allPromptTexts guide resultPrompts) <> []
  \/ noFetchedQuestions fetched ->
  InterviewModal.filteredQuestionsWithIndices
    (InterviewModal.allPromptTexts guide resultPrompts)
    (InterviewModal.questionsToUse guide
       (InterviewModal.allPromptTexts guide resultPrompts) fetched)
  = imap (fun i qText => (qText, i))
      (InterviewModal.validGuideQuestions guide
         (InterviewModal.allPromptTexts guide resultPrompts))
  /\ InterviewModal.filteredQuestions guide resultPrompts fetched
     = InterviewModal.validGuideQuestions guide
         (InterviewModal.allPromptTexts guide resultPrompts).
Proof.
  intros H. unfold InterviewModal.filteredQuestions.
  rewrite (questionsToUse_main_path _ _ _ H), refilter_valid_guide_questions.
  split; [reflexivity |]. apply (map_fst_imap_pair (fun i => i)).
Qed.

Lemma original_index_witness :
  InterviewModal.filteredQuestions noisyGuide [] None
  = InterviewModal.validGuideQuestions noisyGuide
      (InterviewModal.allPromptTexts noisyGuide []).
Proof.
  apply (original_index_is_display_index noisyGuide [] None).
  right. exact I.
Defined.

End Alignment.

Section WellIndexedAnalyses.
Import JsString TextClassifier Types Analysis Design Fixtures Observations.
Local Open Scope string_scope.

Lemma find_indexed_from (n k : nat) (entries : list Entry) :
  (forall j e, entries !! j = Some e -> q_index e = IndexNum (Z.of_nat (n + j))) ->
  List.find (fun q => indexIs (q_index q) (n + k)) entries = entries !! k.
Proof.
  revert n k. induction entries as [|x entries IH]; intros n k H; simpl.
  - destruct k; reflexivity.
  - pose proof (H 0%nat x eq_refl) as Hx. rewrite Hx. simpl.
    destruct k as [|k].
    + assert (Heq : Z.eqb (Z.of_nat (n + 0)) (Z.of_nat (n + 0)) = true)
        by apply Z.eqb_refl.
      rewrite Heq. reflexivity.
    + assert (Hne : Z.eqb (Z.of_nat (n + 0)) (Z.of_nat (n + S k)) = false)
        by (apply Z.eqb_neq; lia).
      rewrite Hne. simpl.
      replace (n + S k)%nat with (S n + k)%nat by lia.
      apply IH. intros j e Hj.
      rewrite (H (S j) e Hj). f_equal. lia.
Qed.

Lemma find_well_indexed (k : nat) (entries : list Entry) :
  WellIndexed entries ->
  List.find (fun q => indexIs (q_index q) k) entries = entries !! k.
Proof. intros H. apply (find_indexed_from 0 k entries). exact H. Qed.

Lemma modal_findEntry_well_indexed (entries : list Entry) (i : nat) :
  WellIndexed entries ->
  (forall e, In e entries -> InterviewModal.looksLikePrompt e = false) ->
  InterviewModal.findEntry entries i i = default emptyEntry (entries !! i).
Proof.
  intros Hwi Hnp. unfold InterviewModal.findEntry.
  rewrite (find_well_indexed i entries Hwi).
  destruct (entries !! i) as [e|] eqn:He; simpl.
  - rewrite (Hnp e); [reflexivity |].
    apply list_elem_of_In. eapply list_elem_of_lookup_2. exact He.
  - reflexivity.
Qed.

Lemma export_findEntry_well_indexed (entries : list Entry) (i : nat) :
  WellIndexed entries ->
  Download.findEntry entries i = default emptyEntry (entries !! i).
Proof.
  intros Hwi. unfold Download.findEntry.
  rewrite (find_well_indexed i entries Hwi).
  destruct (entries !! i); reflexivity.
Qed.

Lemma modal_mapped_well_indexed (entries : list Entry) (qs : list string) :
  WellIndexed entries ->
  (forall e, In e entries -> InterviewModal.looksLikePrompt e = false) ->
  InterviewModal.mapped entries (imap (fun i qText => (qText, i)) qs)
  = imap (fun j qText =>
            InterviewModal.answerBlock qText (default emptyEntry (entries !! j))) qs.
Proof.
  intros Hwi Hnp. unfold InterviewModal.mapped.
  apply list_eq. intros j. rewrite !list_lookup_imap.
  destruct (qs !! j) as [q|]; simpl; [| reflexivity].
  rewrite (modal_findEntry_well_indexed entries j Hwi Hnp). reflexivity.
Qed.

(** X2. When every valid entry of the analysis carries its own array
    position as index, each question receives the entry at its own
    position and no other: question j is answered from entry j, or from
    the empty object when the analysis has fewer entries. This holds in
    the modal (unless the fallback questionnaire replaced the guide's
    questions) and in the export. *)
Theorem well_indexed_analysis_aligns (guide : Guide) (resultQs : list ResultItem)
    (resultPrompts : list PromptEntry)
    (fetched : option InterviewModal.FetchedQuestionnaire) :
  resultQs <> [] ->
  (InterviewModal.validGuideQuestions guide
     (InterviewModal.allPromptTexts guide resultPrompts) <> []
   \/ noFetchedQuestions fetched ->
   WellIndexed (InterviewModal.validQuestions resultQs resultPrompts) ->
   InterviewModal.loadAnswers (Some guide) resultQs resultPrompts fetched
   = Some (imap (fun j qText =>
                   InterviewModal.answerBlock qText
                     (default emptyEntry
                        (InterviewModal.validQuestions resultQs resultPrompts !! j)))
                (InterviewModal.validGuideQuestions guide
                   (InterviewModal.allPromptTexts guide resultPrompts))))
  /\ (WellIndexed (Download.validQuestions resultQs) ->
      Download.alignAnswers (questions guide) resultQs
      = imap (fun j qText =>
                Download.answerBlock qText
                  (default emptyEntry (Download.validQuestions resultQs !! j)))
             (Download.validGuideQuestions (questions guide))).
Proof.
  intros Hne. split.
  - intros Hmain Hwi. unfold InterviewModal.loadAnswers.
    destruct resultQs as [|item rest] eqn:Hq; [contradiction |].
    rewrite <- Hq. replace (Nat.ltb 0 (length resultQs)) with true
      by (rewrite Hq; reflexivity).
    cbv zeta. rewrite <- Hq in Hwi.
    rewrite (questionsToUse_main_path _ _ _ Hmain), refilter_valid_guide_questions.
    f_equal. apply modal_mapped_well_indexed; [exact Hwi |].
    apply validQuestions_not_prompt.
  - intros Hwi. unfold Download.alignAnswers, Download.mapped.
    destruct resultQs as [|item rest] eqn:Hq; [contradiction |].
    rewrite <- Hq. replace (Nat.ltb 0 (length resultQs)) with true
      by (rewrite Hq; reflexivity).
    rewrite <- Hq in Hwi.
    apply list_eq. intros j. rewrite !list_lookup_imap.
    destruct (Download.validGuideQuestions (questions guide) !! j); simpl;
      [| reflexivity].
    rewrite (export_findEntry_well_indexed _ j Hwi). reflexivity.
Qed.

End WellIndexedAnalyses.

Lemma well_indexed_analysis_witness :
  InterviewModal.loadAnswers (Some Fixtures.indexTestGuide)
    [Analysis.ItemObject (Fixtures.answered 0 "A1");
     Analysis.ItemObject (Fixtures.answered 1 "A2")] [] None
  = Some [Fixtures.answerOf "Q1" "A1"; Fixtures.answerOf "Q2" "A2"].
Proof.
  destruct (well_indexed_analysis_aligns Fixtures.indexTestGuide
              [Analysis.ItemObject (Fixtures.answered 0 "A1");
               Analysis.ItemObject (Fixtures.answered 1 "A2")] [] None)
    as [H _]; [discriminate |].
  rewrite H.
  - vm_compute. reflexivity.
  - right. exact I.
  - intros j e. destruct j as [|[|j]]; vm_compute; intros Hj;
      inversion Hj; reflexivity.
Defined.

(** ** Saving a manual edit and loading it again *)

Section SaveAndReload.
Import JsString TextClassifier Types Analysis Design Observations ModalSave.
Local Open Scope string_scope.

Lemma orUndefined_idempotent (o : option string) :
  orUndefined (orUndefined o) = orUndefined o.
Proof.
  destruct o as [s|]; simpl; [| reflexivity].
  destruct (nonEmpty s) eqn:Hs; simpl; [rewrite Hs |]; reflexivity.
Qed.

(** The quotes of a block made by the aligner are read back unchanged
    from the payload that stores them. *)
Lemma quotes_round_trip (found : Entry) (a : AnswerBlock) (idx : nat) (f : bool) :
  quotes a = quotesField found ->
  quotesField
    (entryOfSaved {| s_index := idx; s_questionText := question a;
                     s_answerFound := f; s_answerSummary := answer a;
                     s_verbatimQuotes := savedQuotes a |})
  = quotes a.
Proof.
  intros Hq. unfold savedQuotes. rewrite Hq.
  unfold quotesField, allQuotes. simpl.
  destruct (q_verbatimQuotes found) as [vqs|]; [| reflexivity].
  rewrite !length_map.
  destruct vqs as [|v vqs]; [reflexivity |].
  simpl length. change (Nat.ltb 0 (S (length vqs))) with true. cbv iota.
  rewrite !length_map. simpl length. change (Nat.ltb 0 (S (length vqs))) with true.
  cbv iota. f_equal. rewrite !map_map. apply map_ext. intros raw. simpl.
  now rewrite orUndefined_idempotent.
Qed.

(** The stored prompts yield the set of prompt texts they were shown
    from. *)
Lemma stored_promptTexts (resultPrompts : list PromptEntry)
    (prompts : list PromptBlock) (audio gid : string) (answers : list AnswerBlock) :
  Forall2 sameButResponse prompts (promptsState resultPrompts) ->
  InterviewModal.promptTexts (storedPrompts (resultPayload audio gid answers prompts))
  = InterviewModal.promptTexts resultPrompts.
Proof.
  intros H. unfold InterviewModal.promptTexts, storedPrompts, resultPayload. simpl.
  f_equal. rewrite map_map. revert prompts H.
  induction resultPrompts as [|p rp IH]; intros prompts H; simpl in H.
  - inversion H; subst. reflexivity.
  - inversion H as [|b ? bs ? [_ Hb] Hrest]; subst. simpl in Hb. simpl.
    rewrite Hb.
    assert (Ht : truthy (Some (orEmpty (p_promptText p))) = truthy (p_promptText p)).
    { destruct (p_promptText p); reflexivity. }
    simpl in Ht. rewrite Ht. destruct (truthy (p_promptText p)); simpl.
    + f_equal. apply IH. exact Hrest.
    + apply IH. exact Hrest.
Qed.

Lemma stored_entry_valid (pTexts : gset string) (pIndices : gset Z)
    (q : SavedQuestion) :
  normalize (s_questionText q) ∉ pTexts ->
  InterviewModal.isValidQuestion pTexts pIndices (ItemObject (entryOfSaved q)) = true.
Proof.
  intros Hq. unfold InterviewModal.isValidQuestion, InterviewModal.responseOnly.
  simpl. rewrite (bool_decide_eq_false_2 _ Hq).
  destruct (nonEmpty (s_questionText q)); simpl;
    destruct (bool_decide (Z.of_nat (s_index q) ∈ pIndices)); reflexivity.
Qed.

Lemma omap_entryOf_objects (l : list Entry) :
  omap InterviewModal.entryOf (map ItemObject l) = l.
Proof. induction l as [|e l IH]; simpl; [reflexivity | f_equal; exact IH]. Qed.

Lemma stored_validQuestions (saved : list SavedQuestion) (sp : list PromptEntry) :
  (forall q, In q saved -> normalize (s_questionText q) ∉ InterviewModal.promptTexts sp) ->
  InterviewModal.validQuestions (map (fun q => ItemObject (entryOfSaved q)) saved) sp
  = map entryOfSaved saved.
Proof.
  intros H. unfold InterviewModal.validQuestions.
  rewrite filter_all_true.
  - rewrite <- (map_map entryOfSaved ItemObject). apply omap_entryOf_objects.
  - intros item Hin. apply in_map_iff in Hin as (q & <- & Hq).
    apply stored_entry_valid. now apply H.
Qed.

Lemma lookup_map {A B} (f : A -> B) (l : list A) (i : nat) :
  map f l !! i = option_map f (l !! i).
Proof.
  revert i. induction l as [|x l IH]; intros [|i]; simpl; auto.
Qed.

Lemma stored_entries_well_indexed (f : nat -> AnswerBlock -> SavedQuestion)
    (answers : list AnswerBlock) :
  (forall idx a, s_index (f idx a) = idx) ->
  WellIndexed (map entryOfSaved (imap f answers)).
Proof.
  intros Hf j e. rewrite lookup_map, list_lookup_imap.
  destruct (answers !! j) as [a|]; simpl; [| discriminate].
  intros [= <-]. simpl. now rewrite Hf.
Qed.

(** X3. An edit saved as a manual version is shown unchanged when that
    version is loaded again: if the answers on screen are those of a load
    with only answer texts changed, and the prompts those of that load with
    only responses changed, then loading the payload that [handleSave]
    stores yields exactly the answers on screen. *)
Theorem manual_save_reload_round_trip (guide : Guide) (resultQs : list ResultItem)
    (resultPrompts : list PromptEntry)
    (fetched : option InterviewModal.FetchedQuestionnaire)
    (loaded edited : list AnswerBlock) (prompts : list PromptBlock)
    (audio gid : string) :
  InterviewModal.validGuideQuestions guide
    (InterviewModal.allPromptTexts guide resultPrompts) <> [] ->
  InterviewModal.loadAnswers (Some guide) resultQs resultPrompts fetched
  = Some loaded ->
  Forall2 sameButAnswer edited loaded ->
  Forall2 sameButResponse prompts (promptsState resultPrompts) ->
  InterviewModal.loadAnswers (Some guide)
    (storedQuestions (resultPayload audio gid edited prompts))
    (storedPrompts (resultPayload audio gid edited prompts)) fetched
  = Some edited.
Proof.
  intros Hne Hload Hedit Hprompts.
  set (all := InterviewModal.allPromptTexts guide resultPrompts) in *.
  set (vq := InterviewModal.validGuideQuestions guide all) in *.
  (* what the first load produced *)
  unfold InterviewModal.loadAnswers in Hload.
  destruct (Nat.ltb 0 (length resultQs)); [| discriminate].
  cbv zeta in Hload. fold all in Hload.
  rewrite (questionsToUse_main_path guide all fetched (or_introl Hne)) in Hload.
  rewrite refilter_valid_guide_questions in Hload. fold vq in Hload.
  injection Hload as Hloaded.
  set (valid := InterviewModal.validQuestions resultQs resultPrompts) in *.
  assert (Hblock : forall j q a,
             vq !! j = Some q -> edited !! j = Some a ->
             question a = q /\ reasoning a = None
             /\ quotes a = quotesField (InterviewModal.findEntry valid j j)).
  { intros j q a Hq Ha.
    assert (Hl : loaded !! j
                 = Some (InterviewModal.answerBlock q
                           (InterviewModal.findEntry valid j j))).
    { rewrite <- Hloaded. unfold InterviewModal.mapped.
      rewrite !list_lookup_imap, Hq. reflexivity. }
    destruct (Forall2_lookup_lr _ _ _ _ _ _ Hedit Ha Hl) as (H1 & H2 & H3).
    simpl in *. auto. }
  assert (Hlen : length edited = length vq).
  { rewrite (Forall2_length _ _ _ Hedit), <- Hloaded.
    unfold InterviewModal.mapped. now rewrite !length_imap. }
  (* the prompt texts are those of the first load *)
  assert (Hall : InterviewModal.allPromptTexts guide
                   (storedPrompts (resultPayload audio gid edited prompts)) = all).
  { unfold all, InterviewModal.allPromptTexts.
    now rewrite (stored_promptTexts resultPrompts prompts audio gid edited Hprompts). }
  unfold InterviewModal.loadAnswers. rewrite Hall.
  assert (Hpos : Nat.ltb 0 (length (storedQuestions
                                      (resultPayload audio gid edited prompts))) = true).
  { unfold storedQuestions, resultPayload. simpl.
    rewrite length_map, length_imap, Hlen. apply Nat.ltb_lt.
    destruct vq; [contradiction | simpl; lia]. }
  rewrite Hpos. cbv zeta.
  rewrite (questionsToUse_main_path guide all fetched (or_introl Hne)).
  rewrite refilter_valid_guide_questions. fold vq.
  unfold storedQuestions. unfold resultPayload at 1. simpl rp_questions.
  rewrite stored_validQuestions.
  - rewrite modal_mapped_well_indexed.
    + f_equal. apply list_eq. intros j. rewrite list_lookup_imap.
      destruct (vq !! j) as [q|] eqn:Hq; simpl.
      * destruct (edited !! j) as [a|] eqn:Ha.
        -- destruct (Hblock j q a Hq Ha) as (Hqa & Hra & Hqu).
           rewrite lookup_map, list_lookup_imap, Ha. simpl.
           unfold InterviewModal.answerBlock.
           rewrite (quotes_round_trip _ a j _ Hqu).
           destruct a as [aq aa aqs ar]. simpl in *. subst. reflexivity.
        -- apply lookup_ge_None in Ha. apply lookup_lt_Some in Hq. lia.
      * symmetry. apply lookup_ge_None. apply lookup_ge_None in Hq. lia.
    + apply stored_entries_well_indexed. reflexivity.
    + intros e He. apply in_map_iff in He as (q & <- & _). reflexivity.
  - intros q Hq.
    apply list_elem_of_In, elem_of_lookup_imap in Hq as (j & a & -> & Ha).
    simpl.
    assert (Hj : is_Some (vq !! j)).
    { apply lookup_lt_is_Some. apply lookup_lt_Some in Ha. lia. }
    destruct Hj as [qt Hqt].
    destruct (Hblock j qt a Hqt Ha) as (Hqa & _ & _). rewrite Hqa.
    apply list_elem_of_lookup_2, list_elem_of_In in Hqt.
    unfold vq, InterviewModal.validGuideQuestions in Hqt.
    apply filter_In in Hqt as [_ Hqt]. apply andb_true_iff in Hqt as [_ Hqt].
    apply negb_true_iff in Hqt. unfold InterviewModal.matchesPrompt in Hqt.
    apply orb_false_iff in Hqt as [Hqt _]. apply bool_decide_eq_false in Hqt.
    rewrite (stored_promptTexts resultPrompts prompts audio gid edited Hprompts).
    intros Hin. apply Hqt. unfold all, InterviewModal.allPromptTexts.
    apply elem_of_union. now left.
Qed.

End SaveAndReload.

Lemma manual_save_reload_witness :
  InterviewModal.loadAnswers (Some Fixtures.indexTestGuide)
    (ModalSave.storedQuestions
       (ModalSave.resultPayload "a1" "g1" Samples.editedAnswers []))
    (ModalSave.storedPrompts
       (ModalSave.resultPayload "a1" "g1" Samples.editedAnswers []))
    None
  = Some Samples.editedAnswers.
Proof.
  apply (manual_save_reload_round_trip Fixtures.indexTestGuide Samples.twoAnswers
           [] None Samples.shownAnswers Samples.editedAnswers [] "a1" "g1").
  - vm_compute. discriminate.
  - vm_compute. reflexivity.
  - repeat constructor.
  - constructor.
Defined.

(** ** Laws of the two stores *)

Section StoreLaws.
Import Types InterviewsStore InterviewsStoreOps.
Local Open Scope string_scope.

Lemma spread_spread {A} (x : option A) (p : option (option A)) :
  spread (spread x p) p = spread x p.
Proof. destruct p; reflexivity. Qed.

Lemma spread_read {A} (p : option (option A)) : spread (read p) p = read p.
Proof. destruct p; reflexivity. Qed.

Lemma merge_merge (e : Interview) (data : InterviewData) :
  merge (merge e data) data = merge e data.
Proof. unfold merge. simpl. now rewrite !spread_spread. Qed.

Lemma merge_create (uuid : string) (data : InterviewData) :
  merge (create uuid data) data = create uuid data.
Proof. unfold merge, create. simpl. now rewrite !spread_read. Qed.

(** After the replacement of line 244 the first interview of the pair is
    the merged one. *)
Lemma find_after_replace (P : Interview -> bool) (e u : Interview)
    (l : list Interview) :
  List.find P l = Some e -> P u = true ->
  List.find P (map (fun i => if String.eqb (id i) (id e) then u else i) l) = Some u.
Proof.
  intros Hfind Hu. induction l as [|x l IH]; simpl in *; [discriminate |].
  destruct (P x) eqn:Hx.
  - injection Hfind as ->. rewrite String.eqb_refl, Hu. reflexivity.
  - destruct (String.eqb (id x) (id e)); [now rewrite Hu |].
    rewrite Hx. now apply IH.
Qed.

(** Replacing twice by the same value is replacing once. *)
Lemma replace_twice (x : string) (u : Interview) (l : list Interview) :
  id u = x ->
  map (fun i => if String.eqb (id i) x then u else i)
      (map (fun i => if String.eqb (id i) x then u else i) l)
  = map (fun i => if String.eqb (id i) x then u else i) l.
Proof.
  intros Hu. rewrite map_map. apply map_ext. intros i.
  destruct (String.eqb (id i) x) eqn:Hi; [| now rewrite Hi].
  rewrite Hu, String.eqb_refl. reflexivity.
Qed.

Lemma find_app_none {A} (P : A -> bool) (l : list A) (c : A) :
  List.find P l = None -> P c = true -> List.find P (l ++ [c]) = Some c.
Proof.
  intros Hnone Hc. induction l as [|x l IH]; simpl in *; [now rewrite Hc |].
  destruct (P x); [discriminate | now apply IH].
Qed.

(** X4. After [upsertByAudioAndGuide], [findByAudioAndGuide] with the
    pair of the data finds the interview that the upsert returned; and
    when the generated id is not already in the store, a second upsert of
    the same data changes nothing and returns the same interview. *)
Theorem upsert_then_find (uuid : string) (data : InterviewData)
    (interviews : list Interview) :
  findByAudioAndGuide (fst (upsertByAudioAndGuide uuid data interviews))
    (read (d_audioId data)) (d_guideId data)
  = Some (snd (upsertByAudioAndGuide uuid data interviews))
  /\ (~ In uuid (map id interviews) ->
      forall uuid',
        upsertByAudioAndGuide uuid' data
          (fst (upsertByAudioAndGuide uuid data interviews))
        = upsertByAudioAndGuide uuid data interviews).
Proof.
  unfold findByAudioAndGuide.
  set (P := sameAudioAndGuide (read (d_audioId data)) (d_guideId data)).
  unfold upsertByAudioAndGuide at 1 2 4 5. fold P.
  destruct (List.find P interviews) as [e|] eqn:Hfind; cbv zeta; simpl fst; simpl snd.
  - pose proof (find_some _ _ Hfind) as [_ He].
    assert (Hu : P (merge e data) = true).
    { apply sameAudioAndGuide_true, key_merge. now apply sameAudioAndGuide_true. }
    pose proof (find_after_replace P e (merge e data) interviews Hfind Hu) as Hnew.
    split; [exact Hnew |]. intros _ uuid'.
    unfold upsertByAudioAndGuide. fold P. rewrite Hnew. cbv zeta.
    rewrite merge_merge. f_equal.
    change (id (merge e data)) with (id e).
    apply replace_twice. reflexivity.
  - assert (Hc : P (create uuid data) = true).
    { apply sameAudioAndGuide_true, key_create. }
    pose proof (find_app_none P interviews _ Hfind Hc) as Hnew.
    split; [exact Hnew |]. intros Hfresh uuid'.
    unfold upsertByAudioAndGuide. fold P. rewrite Hnew. cbv zeta.
    rewrite merge_create. f_equal.
    change (id (create uuid data)) with uuid.
    rewrite map_app. simpl. rewrite String.eqb_refl.
    rewrite (replace_none uuid (create uuid data) interviews Hfresh). reflexivity.
Qed.

Lemma upsert_then_find_witness :
  upsertByAudioAndGuide "u2" (Fixtures.dataOf "a3" "g3")
    (fst (upsertByAudioAndGuide "u1" (Fixtures.dataOf "a3" "g3")
            Fixtures.twoInterviews))
  = upsertByAudioAndGuide "u1" (Fixtures.dataOf "a3" "g3") Fixtures.twoInterviews.
Proof.
  apply (proj2 (upsert_then_find "u1" (Fixtures.dataOf "a3" "g3")
                  Fixtures.twoInterviews)).
  simpl. intros H. repeat destruct H as [H | H]; try discriminate; exact H.
Defined.

End StoreLaws.

Section StoreLookups.
Import Types InterviewsStore InterviewsStoreOps.
Local Open Scope string_scope.

Lemma find_id_none (t : string) (l : list Interview) :
  ~ In t (map id l) -> List.find (fun i => String.eqb (id i) t) l = None.
Proof.
  induction l as [|x l IH]; simpl; intros H; [reflexivity |].
  destruct (String.eqb_spec (id x) t) as [Heq | Hne]; [tauto |].
  apply IH. tauto.
Qed.

Lemma find_id_app_l (t : string) (l k : list Interview) :
  In t (map id l) ->
  List.find (fun i => String.eqb (id i) t) (l ++ k)
  = List.find (fun i => String.eqb (id i) t) l.
Proof.
  induction l as [|x l IH]; simpl; intros H; [contradiction |].
  destruct (String.eqb_spec (id x) t) as [Heq | Hne]; [reflexivity |].
  apply IH. tauto.
Qed.

(** X5. Lookup laws of the interviews store: an interview added under an
    id that is not in the store is found under that id, and adding leaves
    every other lookup as it was; after [deleteInterview] the id is no
    longer found and every other lookup is as it was. *)
Theorem interviews_store_lookup_laws (uuid target : string) (data : InterviewData)
    (interviews : list Interview) :
  (~ In uuid (map id interviews) ->
   getInterview uuid (addInterview uuid data interviews) = Some (create uuid data))
  /\ (forall t, t <> uuid ->
        getInterview t (addInterview uuid data interviews) = getInterview t interviews)
  /\ getInterview target (deleteInterview target interviews) = None
  /\ (forall t, t <> target ->
        getInterview t (deleteInterview target interviews) = getInterview t interviews)
  /\ (~ In target (map id interviews) -> deleteInterview target interviews = interviews).
Proof.
  unfold getInterview, addInterview, deleteInterview.
  split; [| split; [| split; [| split]]].
  - intros Hfresh. apply find_app_none; [now apply find_id_none |].
    simpl. apply String.eqb_refl.
  - intros t Ht. induction interviews as [|x l IH]; simpl.
    + destruct (String.eqb_spec uuid t); [congruence | reflexivity].
    + destruct (String.eqb (id x) t); [reflexivity | exact IH].
  - induction interviews as [|x l IH]; simpl; [reflexivity |].
    destruct (String.eqb_spec (id x) target) as [Heq | Hne]; simpl; [exact IH |].
    destruct (String.eqb_spec (id x) target); [contradiction | exact IH].
  - intros t Ht. induction interviews as [|x l IH]; simpl; [reflexivity |].
    destruct (String.eqb_spec (id x) target) as [Heq | Hne]; simpl.
    + destruct (String.eqb_spec (id x) t); [congruence | exact IH].
    + destruct (String.eqb (id x) t); [reflexivity | exact IH].
  - intros Hno. apply filter_all_true. intros x Hx.
    apply negb_true_iff, String.eqb_neq. intros Heq. apply Hno.
    apply in_map_iff. eauto.
Qed.

Lemma interviews_store_lookup_witness :
  getInterview "z" (addInterview "z" (Fixtures.dataOf "a9" "g9") Fixtures.twoInterviews)
  = Some (create "z" (Fixtures.dataOf "a9" "g9")).
Proof.
  apply (proj1 (interviews_store_lookup_laws "z" "x" (Fixtures.dataOf "a9" "g9")
                  Fixtures.twoInterviews)).
  simpl. intros H. repeat destruct H as [H | H]; try discriminate; exact H.
Defined.

(** X6. An update that names neither id, audio nor guide (as the updates
    [{ answers, status }] of the modal) keeps the ids and the pairs of the
    store and its length; it changes the interviews of the given id and no
    other, and the one found under the id afterwards is the merged one. *)
Theorem updateInterview_keeps_identity (target : string) (updates : InterviewUpdates)
    (interviews : list Interview) :
  iu_id updates = None -> iu_guideId updates = None -> iu_audioId updates = None ->
  map id (updateInterview target updates interviews) = map id interviews
  /\ map key (updateInterview target updates interviews) = map key interviews
  /\ (forall i, getInterview target interviews = Some i ->
        getInterview target (updateInterview target updates interviews)
        = Some (mergeUpdates i updates))
  /\ (forall t, t <> target ->
        getInterview t (updateInterview target updates interviews)
        = getInterview t interviews)
  /\ (~ In target (map id interviews) ->
      updateInterview target updates interviews = interviews).
Proof.
  intros Hid Hg Ha. unfold updateInterview, getInterview.
  assert (Hmid : forall i, id (mergeUpdates i updates) = id i).
  { intros i. unfold mergeUpdates. simpl. now rewrite Hid. }
  assert (Hmkey : forall i, key (mergeUpdates i updates) = key i).
  { intros i. unfold key, mergeUpdates. simpl. now rewrite Hg, Ha. }
  split; [| split; [| split; [| split]]].
  - rewrite map_map. apply map_ext. intros i.
    destruct (String.eqb (id i) target); [apply Hmid | reflexivity].
  - rewrite map_map. apply map_ext. intros i.
    destruct (String.eqb (id i) target); [apply Hmkey | reflexivity].
  - intros i. induction interviews as [|x l IH]; simpl; [discriminate |].
    destruct (String.eqb (id x) target) eqn:Hx.
    + intros [= ->]. rewrite Hmid, Hx. reflexivity.
    + rewrite Hx. exact IH.
  - intros t Ht. induction interviews as [|x l IH]; simpl; [reflexivity |].
    destruct (String.eqb_spec (id x) target) as [Heq | Hne].
    + rewrite Hmid. destruct (String.eqb_spec (id x) t); [congruence | exact IH].
    + destruct (String.eqb (id x) t); [reflexivity | exact IH].
  - intros Hno. induction interviews as [|x l IH]; simpl; [reflexivity |].
    simpl in Hno.
    destruct (String.eqb_spec (id x) target) as [Heq | Hne]; [tauto |].
    f_equal. apply IH. tauto.
Qed.

Lemma updateInterview_witness :
  map key (updateInterview "x" (answersAndStatus [] "gpt-5.1-human-edit")
             Fixtures.twoInterviews)
  = map key Fixtures.twoInterviews.
Proof.
  apply (updateInterview_keeps_identity "x"
           (answersAndStatus [] "gpt-5.1-human-edit") Fixtures.twoInterviews);
    reflexivity.
Defined.

End StoreLookups.

Section GuidesStoreLaws.
Import Types GuidesStore.
Local Open Scope string_scope.

Lemma mergeData_twice (g : Guide) (d : GuideData) :
  mergeData (mergeData g d) d = mergeData g d.
Proof. unfold mergeData. simpl. now rewrite !spread_spread. Qed.

Lemma mergeData_new (uuid : string) (d : GuideData) :
  mergeData (newGuide uuid d) d = newGuide uuid d.
Proof. unfold mergeData, newGuide. simpl. now rewrite !spread_read. Qed.

Lemma find_guide_none (t : string) (l : list Guide) :
  List.find (fun g => String.eqb (guide_id g) t) l = None <-> ~ In t (map guide_id l).
Proof.
  induction l as [|x l IH]; simpl; [tauto |].
  destruct (String.eqb_spec (guide_id x) t) as [Heq | Hne].
  - split; [discriminate | tauto].
  - rewrite IH. tauto.
Qed.

(** X7. [addGuide] never gives two guides one id: pairwise distinct ids
    stay pairwise distinct, whatever the generated id. Afterwards a guide
    with the new id and the uploaded name and questions is in the store,
    adding the same data again under the same id changes nothing, and
    [deleteGuide] removes the id. *)
Theorem addGuide_keeps_ids_distinct (uuid : string) (d : GuideData)
    (guides : list Guide) :
  (List.NoDup (map guide_id guides) ->
   List.NoDup (map guide_id (addGuide uuid d guides)))
  /\ (exists g, In g (addGuide uuid d guides)
                /\ guide_id g = newId uuid d
                /\ guide_name g = gd_name d /\ questions g = gd_questions d)
  /\ (forall uuid', newId uuid' d = newId uuid d ->
        addGuide uuid' d (addGuide uuid d guides) = addGuide uuid d guides)
  /\ findGuide (newId uuid d) (deleteGuide (newId uuid d) (addGuide uuid d guides))
     = None.
Proof.
  unfold addGuide. set (nid := newId uuid d).
  destruct (List.find (fun g => String.eqb (guide_id g) nid) guides) as [e|] eqn:Hfind.
  - assert (Hids : map guide_id
                     (map (fun g => if String.eqb (guide_id g) nid
                                    then mergeData g d else g) guides)
                   = map guide_id guides).
    { rewrite map_map. apply map_ext. intros g.
      destruct (String.eqb (guide_id g) nid); reflexivity. }
    pose proof (find_some _ _ Hfind) as [Hin He]. apply String.eqb_eq in He.
    assert (Hfind' : List.find (fun g => String.eqb (guide_id g) nid)
                       (map (fun g => if String.eqb (guide_id g) nid
                                      then mergeData g d else g) guides)
                     <> None).
    { intros Hnone. apply find_guide_none in Hnone. apply Hnone.
      rewrite Hids. apply in_map_iff. eauto. }
    split; [now rewrite Hids |]. split; [| split].
    + exists (mergeData e d). split; [| now split].
      apply in_map_iff. exists e. split; [| exact Hin].
      rewrite He, String.eqb_refl. reflexivity.
    + intros uuid' ->. fold nid.
      destruct (List.find _ (map _ guides)) as [e'|]; [| contradiction].
      rewrite map_map. apply map_ext. intros g.
      destruct (String.eqb (guide_id g) nid) eqn:Hg; [| now rewrite Hg].
      simpl. rewrite Hg. apply mergeData_twice.
    + unfold findGuide, deleteGuide. apply find_guide_none.
      intros Hin'. apply in_map_iff in Hin' as (g & Hg & Hin').
      apply filter_In in Hin' as [_ Hin']. apply negb_true_iff in Hin'.
      apply String.eqb_neq in Hin'. contradiction.
  - pose proof (proj1 (find_guide_none nid guides) Hfind) as Hfresh.
    split; [| split; [| split]].
    + intros Hnd. rewrite map_app. simpl.
      apply List.NoDup_app; [exact Hnd | constructor; [intros [] | constructor] |].
      intros k Hk [<- | []]. contradiction.
    + exists (newGuide uuid d). split; [apply in_or_app; right; now left |].
      now split.
    + intros uuid' ->. fold nid.
      assert (Hnew : List.find (fun g => String.eqb (guide_id g) nid)
                       (guides ++ [newGuide uuid d]) = Some (newGuide uuid d)).
      { apply find_app_none; [exact Hfind |]. simpl. apply String.eqb_refl. }
      rewrite Hnew. rewrite map_app. simpl.
      change (guide_id (newGuide uuid d)) with nid. rewrite String.eqb_refl.
      rewrite mergeData_new. f_equal.
      clear Hnew Hfind. induction guides as [|g l IH]; simpl; [reflexivity |].
      simpl in Hfresh.
      destruct (String.eqb_spec (guide_id g) nid) as [Heq | Hne]; [tauto |].
      f_equal. apply IH. tauto.
    + unfold findGuide, deleteGuide. apply find_guide_none.
      intros Hin'. apply in_map_iff in Hin' as (g & Hg & Hin').
      apply filter_In in Hin' as [_ Hin']. apply negb_true_iff in Hin'.
      apply String.eqb_neq in Hin'. contradiction.
Qed.

End GuidesStoreLaws.

Lemma addGuide_keeps_ids_distinct_witness :
  List.NoDup
    (map Types.guide_id
       (GuidesStore.addGuide "u"
          {| GuidesStore.gd_name := "uploaded";
             GuidesStore.gd_questions := ["Q1"; "Q2"];
             GuidesStore.gd_prompts := None;
             GuidesStore.gd_questionnaireId := Some (Some "g1") |}
          [Fixtures.guideOf ["Q1"] None])).
Proof.
  apply (proj1 (addGuide_keeps_ids_distinct "u"
                  {| GuidesStore.gd_name := "uploaded";
                     GuidesStore.gd_questions := ["Q1"; "Q2"];
                     GuidesStore.gd_prompts := None;
                     GuidesStore.gd_questionnaireId := Some (Some "g1") |}
                  [Fixtures.guideOf ["Q1"] None])).
  simpl. constructor; [intros [] | constructor].
Defined.

Section ModalAndExport.
Import JsString TextClassifier Types Analysis Observations Comparison.
Local Open Scope string_scope.

Lemma matchesPrompt_empty (x : string) : InterviewModal.matchesPrompt ∅ x = false.
Proof.
  unfold InterviewModal.matchesPrompt. rewrite elements_empty. simpl.
  rewrite orb_false_r. apply bool_decide_eq_false. apply not_elem_of_empty.
Qed.

Lemma validGuideQuestions_no_prompts (guide : Guide) :
  InterviewModal.validGuideQuestions guide ∅
  = Download.validGuideQuestions (questions guide).
Proof.
  unfold InterviewModal.validGuideQuestions, Download.validGuideQuestions.
  apply filter_ext. intros q. rewrite matchesPrompt_empty. apply andb_true_r.
Qed.

Lemma isValidQuestion_plain (item : ResultItem) :
  plainItem item = true ->
  InterviewModal.isValidQuestion ∅ ∅ item = Download.isValidQuestion item.
Proof.
  destruct item as [q|]; [| reflexivity].
  unfold plainItem, plainEntry, InterviewModal.isValidQuestion,
    Download.isValidQuestion. intros H.
  apply andb_true_iff in H as [H Hr]. apply andb_true_iff in H as [Hp Hd].
  apply negb_true_iff in Hp. apply negb_true_iff in Hr.
  assert (Hidx : InterviewModal.hasIndex ∅ (q_index q) = false).
  { destruct (q_index q) as [| |n]; simpl; try reflexivity;
      apply bool_decide_eq_false, not_elem_of_empty. }
  rewrite Hp, Hr, Hd, Hidx.
  erewrite bool_decide_eq_false_2 by apply not_elem_of_empty.
  destruct (truthy (q_questionText q)), (indexDefined (q_index q)); reflexivity.
Qed.

Lemma in_omap_entryOf (e : Entry) (l : list ResultItem) :
  In e (omap InterviewModal.entryOf l) -> In (ItemObject e) l.
Proof.
  induction l as [|x l IH]; simpl; [tauto |].
  destruct x as [q|]; simpl.
  - intros [-> | H]; [now left | right; auto].
  - intros H. right. auto.
Qed.

Lemma validQuestions_plain (resultQs : list ResultItem) :
  forallb plainItem resultQs = true ->
  InterviewModal.validQuestions resultQs [] = Download.validQuestions resultQs
  /\ (forall e, In e (Download.validQuestions resultQs) -> plainEntry e = true).
Proof.
  intros H. rewrite forallb_forall in H.
  unfold InterviewModal.validQuestions, Download.validQuestions. split.
  - f_equal. change (InterviewModal.promptTexts []) with (∅ : gset string).
    change (InterviewModal.promptIndices []) with (∅ : gset Z).
    induction resultQs as [|x l IH]; simpl; [reflexivity |].
    rewrite isValidQuestion_plain by (apply H; now left).
    rewrite IH by (intros y Hy; apply H; now right). reflexivity.
  - intros e He. apply in_omap_entryOf in He.
    apply filter_In in He as [He _]. apply (H _ He).
Qed.

Lemma plain_not_prompt (e : Entry) :
  plainEntry e = true ->
  truthy (q_promptText e) = false /\ InterviewModal.responseOnly e = false.
Proof.
  unfold plainEntry. intros H.
  apply andb_true_iff in H as [H Hr]. apply andb_true_iff in H as [Hp _].
  apply negb_true_iff in Hp. apply negb_true_iff in Hr. auto.
Qed.

Lemma findEntry_plain (valid : list Entry) (i : nat) :
  (forall e, In e valid -> plainEntry e = true) ->
  InterviewModal.findEntry valid i i = Download.findEntry valid i.
Proof.
  intros H. unfold InterviewModal.findEntry, Download.findEntry,
    InterviewModal.looksLikePrompt.
  destruct (List.find (fun q => indexIs (q_index q) i) valid) as [f|] eqn:Hf.
  - apply find_some in Hf as [Hin _].
    destruct (plain_not_prompt f (H f Hin)) as [Hp Hr].
    simpl. rewrite Hp, Hr. reflexivity.
  - destruct (valid !! i) as [c|] eqn:Hc; [| reflexivity].
    assert (Hin : In c valid)
      by (apply list_elem_of_In; eapply list_elem_of_lookup_2; exact Hc).
    destruct (plain_not_prompt c (H c Hin)) as [Hp Hr].
    rewrite Hp, Hr. simpl. rewrite Hp, Hr. reflexivity.
Qed.

Lemma mapped_plain (valid : list Entry) (qs : list string) :
  (forall e, In e valid -> plainEntry e = true) ->
  InterviewModal.mapped valid (imap (fun i qText => (qText, i)) qs)
  = map withoutReasoning (Download.mapped valid qs).
Proof.
  intros H. unfold InterviewModal.mapped, Download.mapped.
  change (map withoutReasoning) with (fmap (M := list) withoutReasoning).
  apply list_eq. intros j.
  rewrite list_lookup_fmap, !list_lookup_imap.
  destruct (qs !! j) as [q|]; simpl; [| reflexivity].
  rewrite (findEntry_plain valid j H). reflexivity.
Qed.

(** X8. The modal shows what the export writes. For an analysis without
    prompts whose entries are plain answers, and a guide that lists no
    prompts, the answers loaded by the modal are the answers that
    [ensureInterviewAnswers] aligns for the export, question by question,
    except that the modal drops the reasoning. *)
Theorem modal_shows_what_export_writes (guide : Guide) (resultQs : list ResultItem)
    (fetched : option InterviewModal.FetchedQuestionnaire) :
  resultQs <> [] ->
  InterviewModal.allPromptTexts guide [] = ∅ ->
  forallb plainItem resultQs = true ->
  Download.validGuideQuestions (questions guide) <> [] \/ noFetchedQuestions fetched ->
  InterviewModal.loadAnswers (Some guide) resultQs [] fetched
  = Some (map withoutReasoning (Download.alignAnswers (questions guide) resultQs)).
Proof.
  intros Hne Hall Hplain Hmain.
  unfold InterviewModal.loadAnswers, Download.alignAnswers.
  destruct resultQs as [|x l]; [contradiction |].
  change (Nat.ltb 0 (length (x :: l))) with true. cbv iota.
  rewrite Hall.
  rewrite <- validGuideQuestions_no_prompts in Hmain.
  rewrite (questionsToUse_main_path guide ∅ fetched Hmain).
  rewrite refilter_valid_guide_questions, validGuideQuestions_no_prompts.
  destruct (validQuestions_plain (x :: l) Hplain) as [-> Hvalid].
  f_equal. apply mapped_plain. exact Hvalid.
Qed.

Lemma modal_shows_what_export_writes_witness :
  InterviewModal.loadAnswers (Some Fixtures.noisyGuide) Fixtures.noisyResult [] None
  = Some (map withoutReasoning
            (Download.alignAnswers (questions Fixtures.noisyGuide) Fixtures.noisyResult)).
Proof.
  apply (modal_shows_what_export_writes Fixtures.noisyGuide Fixtures.noisyResult None).
  - discriminate.
  - reflexivity.
  - reflexivity.
  - right. exact I.
Defined.

End ModalAndExport.

Section TrimFacts.
Import JsString Design.
Local Open Scope string_scope.
Local Arguments String.append !_ _ / : simpl nomatch.

Lemma trimStart_allSpace (w : string) : allSpace w = true -> trimStart w = EmptyString.
Proof.
  induction w as [|c w IH]; simpl; [reflexivity |].
  intros H. apply andb_true_iff in H as [Hc Hw]. rewrite Hc. auto.
Qed.

Lemma trimEnd_allSpace (w : string) : allSpace w = true -> trimEnd w = EmptyString.
Proof.
  induction w as [|c w IH]; simpl; [reflexivity |].
  intros H. apply andb_true_iff in H as [Hc Hw]. rewrite (IH Hw), Hc. reflexivity.
Qed.

Lemma trimStart_app (x y : string) :
  trimStart (x ++ y)
  = match trimStart x with
    | EmptyString => trimStart y
    | String c t => String c t ++ y
    end.
Proof.
  induction x as [|c x IH]; simpl; [now destruct (trimStart y) |].
  destruct (is_space c); [exact IH | reflexivity].
Qed.

Lemma trimEnd_app_space (x w : string) :
  allSpace w = true -> trimEnd (x ++ w) = trimEnd x.
Proof.
  intros Hw. induction x as [|c x IH]; simpl.
  - now apply trimEnd_allSpace.
  - rewrite IH. reflexivity.
Qed.

Lemma trim_app_space_r (x w : string) : allSpace w = true -> trim (x ++ w) = trim x.
Proof.
  intros Hw. unfold trim. rewrite trimStart_app.
  destruct (trimStart x) as [|c t].
  - rewrite (trimStart_allSpace w Hw). reflexivity.
  - now apply trimEnd_app_space.
Qed.

Lemma trim_app_space_l (w x : string) : allSpace w = true -> trim (w ++ x) = trim x.
Proof.
  intros Hw. unfold trim. rewrite trimStart_app, (trimStart_allSpace w Hw).
  reflexivity.
Qed.

Lemma trim_allSpace (w : string) : allSpace w = true -> trim w = EmptyString.
Proof. intros Hw. unfold trim. now rewrite (trimStart_allSpace w Hw). Qed.

Lemma trimEnd_fixed (s : string) : endsWithSpace s = false -> trimEnd s = s.
Proof.
  induction s as [|c s IH]; [reflexivity |].
  destruct s as [|d s].
  - simpl. intros ->. reflexivity.
  - intros H. change (endsWithSpace (String d s) = false) in H.
    change (trimEnd (String c (String d s)))
      with (match trimEnd (String d s) with
            | EmptyString => if is_space c then EmptyString else String c EmptyString
            | String a t => String c (String a t)
            end).
    rewrite (IH H). reflexivity.
Qed.

Lemma trim_fixed (s : string) :
  startsWithSpace s = false -> endsWithSpace s = false -> trim s = s.
Proof.
  intros Hs He. unfold trim.
  assert (Hstart : trimStart s = s) by (destruct s; simpl in *; [| rewrite Hs]; reflexivity).
  rewrite Hstart. now apply trimEnd_fixed.
Qed.

Lemma trim_idempotent (s : string) : trim (trim s) = trim s.
Proof.
  destruct (trim_spec s) as (w1 & w2 & _ & _ & _ & Hs & He).
  now apply trim_fixed.
Qed.

End TrimFacts.

Section QuestionLines.
Import JsString Design QuestionnaireText LineFacts.
Local Open Scope string_scope.
Local Arguments String.append !_ _ / : simpl nomatch.
Local Arguments startsWith : simpl never.
Local Arguments Ascii.eqb : simpl never.

Lemma splitLF_cons (s : string) : exists x l, splitLF s = x :: l.
Proof.
  destruct s as [|c s]; simpl; [eauto |].
  destruct (Ascii.eqb c LF); [eauto |].
  destruct (splitLF s); simpl; eauto.
Qed.

Lemma splitLines_cons (s : string) : exists x l, splitLines s = x :: l.
Proof.
  induction s as [|c s IH]; simpl; [eauto |].
  destruct (Ascii.eqb c LF); [eauto |].
  destruct (Ascii.eqb c CR && startsWith s (String LF EmptyString)); [exact IH |].
  destruct (splitLines s); simpl; eauto.
Qed.

Lemma splitLF_after_LF (s : string) :
  startsWith s (String LF EmptyString) = true ->
  exists rest, splitLF s = EmptyString :: rest.
Proof.
  destruct s as [|a s]; [discriminate |].
  intros H. cbv [startsWith] in H. rewrite andb_true_r in H.
  apply Ascii.eqb_eq in H. subst a.
  simpl. eauto.
Qed.

Lemma padded_refl (x : string) : padded x x.
Proof. exists EmptyString. split; [reflexivity |]. now rewrite append_empty_r. Qed.

Lemma padded_cons (c : ascii) (x y : string) :
  padded x y -> padded (String c x) (String c y).
Proof. intros (w & Hw & ->). exists w. auto. Qed.

Lemma padded_trim (x y : string) : padded x y -> trim x = trim y.
Proof. intros (w & Hw & ->). symmetry. now apply trim_app_space_r. Qed.

Lemma padded_lines_trim (l1 l2 : list string) :
  Forall2 padded l1 l2 -> map trim l1 = map trim l2.
Proof.
  induction 1 as [|x y l1 l2 Hxy _ IH]; simpl; [reflexivity |].
  rewrite (padded_trim x y Hxy), IH. reflexivity.
Qed.

Lemma padded_consHead (c : ascii) (l1 l2 : list string) :
  Forall2 padded l1 l2 -> Forall2 padded (consHead c l1) (consHead c l2).
Proof.
  intros [|x y k1 k2 Hxy Hk]; simpl.
  - constructor; [apply padded_refl | constructor].
  - constructor; [now apply padded_cons | exact Hk].
Qed.

(** A CR before the separator ends up at the end of the previous piece. *)
Lemma padded_after_CR (l1 rest : list string) :
  Forall2 padded l1 (EmptyString :: rest) ->
  Forall2 padded l1 (String CR EmptyString :: rest).
Proof.
  intros H. inversion H as [|x y k1 k2 Hxy Hk]; subst.
  constructor; [| exact Hk].
  destruct Hxy as (w & Hw & Heq). symmetry in Heq.
  apply append_eq_empty in Heq as [-> _].
  exists (String CR EmptyString). split; reflexivity.
Qed.

Lemma splitLines_padded (s : string) : Forall2 padded (splitLines s) (splitLF s).
Proof.
  induction s as [|c s IH]; simpl.
  - constructor; [apply padded_refl | constructor].
  - destruct (Ascii.eqb c LF) eqn:Hlf.
    + constructor; [apply padded_refl | exact IH].
    + destruct (Ascii.eqb c CR) eqn:Hcr; simpl.
      * destruct (startsWith s (String LF EmptyString)) eqn:Hs.
        -- apply Ascii.eqb_eq in Hcr. subst c.
           destruct (splitLF_after_LF s Hs) as [rest Hrest].
           rewrite Hrest in *. simpl. now apply padded_after_CR.
        -- now apply padded_consHead.
      * now apply padded_consHead.
Qed.

Lemma replaceCRLF_padded (s : string) :
  Forall2 padded (splitLF (replaceCRLF s)) (splitLF s).
Proof.
  induction s as [|c s IH]; simpl.
  - constructor; [apply padded_refl | constructor].
  - destruct (Ascii.eqb c CR) eqn:Hcr; simpl.
    + apply Ascii.eqb_eq in Hcr. subst c.
      change (Ascii.eqb CR LF) with false. cbv iota.
      destruct (startsWith s (String LF EmptyString)) eqn:Hs.
      * destruct (splitLF_after_LF s Hs) as [rest Hrest].
        rewrite Hrest in *. simpl. now apply padded_after_CR.
      * simpl. change (Ascii.eqb CR LF) with false. cbv iota.
        now apply padded_consHead.
    + destruct (Ascii.eqb c LF) eqn:Hlf.
      * constructor; [apply padded_refl | exact IH].
      * now apply padded_consHead.
Qed.

Lemma splitLF_app (a b : string) :
  splitLF (a ++ b) = glue (splitLF a) (splitLF b).
Proof.
  induction a as [|c a IH]; simpl.
  - destruct (splitLF_cons b) as (y & l & ->). reflexivity.
  - rewrite IH. destruct (splitLF_cons a) as (x & l & ->).
    destruct (splitLF_cons b) as (y & k & ->).
    destruct (Ascii.eqb c LF); [reflexivity |].
    destruct l; reflexivity.
Qed.

Lemma lines_of_space (w : string) :
  allSpace w = true -> Forall (fun x => allSpace x = true) (splitLF w).
Proof.
  induction w as [|c w IH]; simpl; intros H.
  - constructor; [reflexivity | constructor].
  - apply andb_true_iff in H as [Hc Hw]. specialize (IH Hw).
    destruct (Ascii.eqb c LF); [constructor; [reflexivity | exact IH] |].
    destruct IH as [|x l Hx Hl]; simpl.
    + constructor; [simpl; now rewrite Hc | constructor].
    + constructor; [simpl; now rewrite Hc, Hx | exact Hl].
Qed.

Lemma trimmedLines_space (l : list string) :
  Forall (fun x => allSpace x = true) l -> trimmedLines l = [].
Proof.
  unfold trimmedLines. induction 1 as [|x l Hx _ IH]; simpl; [reflexivity |].
  rewrite (trim_allSpace x Hx). exact IH.
Qed.

Lemma trimmedLines_cons (x : string) (l : list string) :
  trimmedLines (x :: l)
  = if nonEmpty (trim x) then trim x :: trimmedLines l else trimmedLines l.
Proof. reflexivity. Qed.

Lemma trimmedLines_glue_space_r (l1 l2 : list string) :
  l1 <> [] -> l2 <> [] -> Forall (fun x => allSpace x = true) l2 ->
  trimmedLines (glue l1 l2) = trimmedLines l1.
Proof.
  intros Hne1 Hne2 Hsp. induction l1 as [|x l1 IH]; [contradiction |].
  destruct l1 as [|z l1].
  - destruct Hsp as [|y l2 Hy Hl2]; [contradiction |].
    change (glue [x] (y :: l2)) with ((x ++ y) :: l2).
    rewrite !trimmedLines_cons, (trim_app_space_r x y Hy).
    rewrite (trimmedLines_space l2 Hl2). reflexivity.
  - change (glue (x :: z :: l1) l2) with (x :: glue (z :: l1) l2).
    rewrite !trimmedLines_cons, IH by discriminate. reflexivity.
Qed.

Lemma trimmedLines_glue_space_l (l1 l2 : list string) :
  l1 <> [] -> l2 <> [] -> Forall (fun x => allSpace x = true) l1 ->
  trimmedLines (glue l1 l2) = trimmedLines l2.
Proof.
  intros Hne1 Hne2 Hsp. induction Hsp as [|x l1 Hx Hl1 IH]; [contradiction |].
  destruct l1 as [|z l1].
  - destruct l2 as [|y l2]; [contradiction |].
    change (glue [x] (y :: l2)) with ((x ++ y) :: l2).
    rewrite !trimmedLines_cons, (trim_app_space_l x y Hx). reflexivity.
  - change (glue (x :: z :: l1) l2) with (x :: glue (z :: l1) l2).
    rewrite trimmedLines_cons, (trim_allSpace x Hx). apply IH. discriminate.
Qed.

Lemma splitLF_nonempty (s : string) : splitLF s <> [].
Proof. destruct (splitLF_cons s) as (x & l & ->). discriminate. Qed.

(** White space around a text changes none of its trimmed lines. *)
Lemma trimmedLines_frame (w1 t w2 : string) :
  allSpace w1 = true -> allSpace w2 = true ->
  trimmedLines (splitLF (w1 ++ t ++ w2)) = trimmedLines (splitLF t).
Proof.
  intros H1 H2. rewrite !splitLF_app.
  rewrite trimmedLines_glue_space_l.
  - apply trimmedLines_glue_space_r;
      [apply splitLF_nonempty | apply splitLF_nonempty | now apply lines_of_space].
  - apply splitLF_nonempty.
  - rewrite <- splitLF_app. apply splitLF_nonempty.
  - now apply lines_of_space.
Qed.

Lemma trimmedLines_trim (s : string) :
  trimmedLines (splitLF (trim s)) = trimmedLines (splitLF s).
Proof.
  destruct (trim_spec s) as (w1 & w2 & Hs & H1 & H2 & _).
  transitivity (trimmedLines (splitLF (w1 ++ trim s ++ w2))).
  - symmetry. now apply trimmedLines_frame.
  - now rewrite <- Hs.
Qed.

Lemma splitLF_noLF (x : string) : noLF x = true -> splitLF x = [x].
Proof.
  induction x as [|c x IH]; simpl; [reflexivity |].
  intros H. apply andb_true_iff in H as [Hc Hx]. apply negb_true_iff in Hc.
  rewrite Hc, (IH Hx). reflexivity.
Qed.

Lemma splitLF_pieces (t : string) : Forall (fun x => noLF x = true) (splitLF t).
Proof.
  induction t as [|c t IH]; simpl.
  - constructor; [reflexivity | constructor].
  - destruct (Ascii.eqb c LF) eqn:Hc; [constructor; [reflexivity | exact IH] |].
    destruct IH as [|x l Hx Hl]; simpl.
    + constructor; [simpl; now rewrite Hc | constructor].
    + constructor; [simpl; now rewrite Hc, Hx | exact Hl].
Qed.

(** The empty lines that [join("\n\n")] puts between the pieces are
    dropped again by [filter(Boolean)]. *)
Lemma trimmedLines_join (l : list string) :
  Forall (fun x => noLF x = true) l ->
  trimmedLines (splitLF (join (String LF (String LF EmptyString)) l))
  = trimmedLines l.
Proof.
  induction 1 as [|x l Hx Hl IH]; [reflexivity |].
  destruct l as [|y l].
  - simpl. now rewrite (splitLF_noLF x Hx).
  - change (join (String LF (String LF EmptyString)) (x :: y :: l))
      with (x ++ String LF (String LF EmptyString)
              ++ join (String LF (String LF EmptyString)) (y :: l)).
    rewrite splitLF_app, (splitLF_noLF x Hx).
    change (splitLF (String LF (String LF EmptyString)
                       ++ join (String LF (String LF EmptyString)) (y :: l)))
      with (EmptyString :: EmptyString
              :: splitLF (join (String LF (String LF EmptyString)) (y :: l))).
    change (glue [x] (EmptyString :: EmptyString
                        :: splitLF (join (String LF (String LF EmptyString)) (y :: l))))
      with ((x ++ EmptyString) :: EmptyString
              :: splitLF (join (String LF (String LF EmptyString)) (y :: l))).
    rewrite append_empty_r, !(trimmedLines_cons x), (trimmedLines_cons EmptyString), IH.
    reflexivity.
Qed.

Lemma questionLines_trimmedLines (text : string) :
  questionLines text = trimmedLines (splitLF text).
Proof.
  unfold questionLines, trimmedLines.
  now rewrite (padded_lines_trim _ _ (splitLines_padded text)).
Qed.

(** X9. The text that [getQuestionnaire] returns (CRLF replaced, trimmed,
    an empty line put between the lines) splits into the same questions
    as the raw text of the questionnaire: its normalisation is invisible
    to [loadGuidesFromAzure] and to the export, which split the text at
    line ends, trim the lines and drop the empty ones. The questions so
    obtained are never empty and carry no white space at either end. *)
Theorem spacing_keeps_question_lines (raw : string) :
  questionLines (spaced raw) = questionLines raw
  /\ Forall (fun q => nonEmpty q = true /\ trim q = q) (questionLines raw).
Proof.
  split.
  - rewrite !questionLines_trimmedLines. unfold spaced.
    rewrite trimmedLines_join by apply splitLF_pieces.
    rewrite trimmedLines_trim. unfold trimmedLines.
    now rewrite (padded_lines_trim _ _ (replaceCRLF_padded raw)).
  - apply List.Forall_forall. intros q Hq. unfold questionLines in Hq.
    apply filter_In in Hq as [Hq Hne]. split; [exact Hne |].
    apply in_map_iff in Hq as (x & <- & _). apply trim_idempotent.
Qed.

End QuestionLines.

Section GuideFileFacts.
Import JsString Design QuestionnaireText LineFacts GuideFile.
Local Open Scope string_scope.
Local Arguments String.append !_ _ / : simpl nomatch.
Local Arguments Ascii.eqb : simpl never.

Lemma take_drop (p : ascii -> bool) (s : string) :
  s = takeWhile p s ++ dropWhile p s.
Proof.
  induction s as [|c s IH]; simpl; [reflexivity |].
  destruct (p c); simpl; [now rewrite <- IH | reflexivity].
Qed.

Lemma takeWhile_all (p : ascii -> bool) (s : string) :
  allChars p (takeWhile p s) = true.
Proof.
  induction s as [|c s IH]; simpl; [reflexivity |].
  destruct (p c) eqn:Hc; simpl; [now rewrite Hc | reflexivity].
Qed.

Lemma dropWhile_stops (p : ascii -> bool) (s : string) (c : ascii) (rest : string) :
  dropWhile p s = String c rest -> p c = false.
Proof.
  induction s as [|a s IH]; simpl; [discriminate |].
  destruct (p a) eqn:Ha; [exact IH |]. intros [= -> _]. exact Ha.
Qed.

Lemma dropWhile_app (p : ascii -> bool) (x : string) (c : ascii) (rest : string) :
  allChars p x = true -> p c = false ->
  dropWhile p (x ++ String c rest) = String c rest
  /\ takeWhile p (x ++ String c rest) = x.
Proof.
  intros Hx Hc. induction x as [|a x IH]; simpl.
  - rewrite Hc. auto.
  - simpl in Hx. apply andb_true_iff in Hx as [Ha Hx]. rewrite Ha.
    destruct (IH Hx) as [-> ->]. auto.
Qed.

Lemma allSpace_allChars (w : string) : allSpace w = allChars is_space w.
Proof. induction w as [|c w IH]; simpl; [reflexivity | now rewrite IH]. Qed.

Lemma dropWhile_space_empty (s : string) :
  dropWhile is_space s = EmptyString -> allSpace s = true.
Proof.
  induction s as [|c s IH]; simpl; [reflexivity |].
  destruct (is_space c); [exact IH | discriminate].
Qed.

Lemma lastChar_app (s : string) (l : ascii) :
  lastChar s = Some l -> exists pre, s = pre ++ String l EmptyString.
Proof.
  induction s as [|c s IH]; [discriminate |].
  destruct s as [|d s].
  - intros [= ->]. exists EmptyString. reflexivity.
  - intros H. destruct (IH H) as [pre ->]. exists (String c pre). reflexivity.
Qed.

Lemma allSpace_app (x y : string) : allSpace (x ++ y) = allSpace x && allSpace y.
Proof.
  induction x as [|c x IH]; simpl; [reflexivity |].
  now rewrite IH, andb_assoc.
Qed.

Lemma endsWithSpace_app (x y : string) :
  nonEmpty y = true -> endsWithSpace (x ++ y) = endsWithSpace y.
Proof.
  intros Hy. induction x as [|c x IH]; [reflexivity |].
  change (String c x ++ y) with (String c (x ++ y)).
  destruct (x ++ y) as [|d t] eqn:Hxy.
  - apply append_eq_empty in Hxy as [_ ->]. discriminate.
  - exact IH.
Qed.

Lemma allSpace_ends (w : string) :
  allSpace w = true -> nonEmpty w = true -> endsWithSpace w = true.
Proof.
  induction w as [|c w IH]; [discriminate |].
  intros H _. simpl in H. apply andb_true_iff in H as [Hc Hw].
  destruct w as [|d w]; [exact Hc |]. now apply IH.
Qed.

Lemma digit_not_space (c : ascii) : is_digit c = true -> is_space c = false.
Proof.
  unfold is_digit, is_space. intros H.
  apply andb_true_iff in H as [H1 H2].
  apply Nat.leb_le in H1. apply Nat.leb_le in H2.
  apply orb_false_iff. split; [apply orb_false_iff; split |].
  - apply andb_false_iff. right. apply Nat.leb_gt. lia.
  - apply Nat.eqb_neq. lia.
  - apply Nat.eqb_neq. lia.
Qed.

Lemma digit_is_dot (c : ascii) : is_digit c = true -> is_dot c = true.
Proof.
  unfold is_digit, is_dot. intros H.
  apply andb_true_iff in H as [H1 _]. apply Nat.leb_le in H1.
  apply negb_true_iff, orb_false_iff.
  split; apply Ascii.eqb_neq; intros ->; vm_compute in H1; lia.
Qed.

Lemma noLF_of_dot (s : string) : allChars is_dot s = true -> noLF s = true.
Proof.
  induction s as [|c s IH]; simpl; [reflexivity |].
  intros H. apply andb_true_iff in H as [Hc Hs]. rewrite (IH Hs), andb_true_r.
  unfold is_dot in Hc. apply negb_true_iff, orb_false_iff in Hc as [Hc _].
  now rewrite Hc.
Qed.

Lemma allChars_app (p : ascii -> bool) (x y : string) :
  allChars p (x ++ y) = allChars p x && allChars p y.
Proof.
  induction x as [|c x IH]; simpl; [reflexivity |].
  now rewrite IH, andb_assoc.
Qed.

Lemma allChars_impl (p q : ascii -> bool) (s : string) :
  (forall c, p c = true -> q c = true) -> allChars p s = true -> allChars q s = true.
Proof.
  intros Hpq. induction s as [|c s IH]; simpl; [reflexivity |].
  intros H. apply andb_true_iff in H as [Hc Hs].
  now rewrite (Hpq c Hc), (IH Hs).
Qed.

(** What [numbered] returns is the group of a match of the pattern: the
    line is digits, a full stop, white space and the group. *)
Lemma numbered_is_a_match (line group : string) :
  numbered line = Some group ->
  exists ds ws,
    line = ds ++ String full_stop (ws ++ group)
    /\ nonEmpty ds = true /\ allChars is_digit ds = true
    /\ allSpace ws = true
    /\ nonEmpty group = true /\ allChars is_dot group = true
    /\ (startsWithSpace group = false \/ allSpace group = true).
Proof.
  unfold numbered. intros H.
  pose proof (take_drop is_digit line) as Hline.
  pose proof (takeWhile_all is_digit line) as Hds.
  destruct (takeWhile is_digit line) as [|d0 ds] eqn:Htake; [discriminate |].
  destruct (dropWhile is_digit line) as [|d rest] eqn:Hdrop; [discriminate |].
  destruct (Ascii.eqb d full_stop) eqn:Hd; [| discriminate].
  apply Ascii.eqb_eq in Hd. subst d.
  pose proof (take_drop is_space rest) as Hrest.
  pose proof (takeWhile_all is_space rest) as Hws.
  destruct (dropWhile is_space rest) as [|a r] eqn:Hr.
  - destruct (lastChar rest) as [l|] eqn:Hl; [| discriminate].
    destruct (is_dot l) eqn:Hdot; [| discriminate].
    injection H as <-.
    apply dropWhile_space_empty in Hr.
    destruct (lastChar_app rest l Hl) as [pre Hpre].
    rewrite Hpre, allSpace_app in Hr. apply andb_true_iff in Hr as [Hpre1 Hl1].
    exists (String d0 ds), pre. rewrite Hline, Hpre.
    repeat split; auto. simpl. now rewrite Hdot.
  - destruct (allChars is_dot (String a r)) eqn:Hdot; [| discriminate].
    injection H as <-.
    exists (String d0 ds), (takeWhile is_space rest).
    rewrite Hline, <- Hrest.
    repeat split; auto.
    + now rewrite allSpace_allChars.
    + left. simpl. exact (dropWhile_stops _ _ _ _ Hr).
Qed.

Lemma numbered_of_line (item : string * string) :
  listItem item -> numbered (numberedLine item) = Some (snd item).
Proof.
  destruct item as [ds q]. unfold listItem, numberedLine. simpl fst. simpl snd.
  intros (Hne & Hds & Hq & Htrim & Hdot).
  assert (Hstop : is_digit full_stop = false) by reflexivity.
  destruct (dropWhile_app is_digit ds full_stop
              (String (ascii_of_nat 32) q) Hds Hstop) as [Hdrop Htake].
  unfold numbered. rewrite Hdrop, Htake.
  destruct ds as [|d0 ds]; [discriminate |].
  rewrite Ascii.eqb_refl.
  destruct (trim_spec q) as (_ & _ & _ & _ & _ & Hstart & _).
  rewrite Htrim in Hstart.
  destruct q as [|a r]; [discriminate |].
  simpl in Hstart.
  change (dropWhile is_space (String (ascii_of_nat 32) (String a r)))
    with (if is_space a then dropWhile is_space r else String a r).
  rewrite Hstart, Hdot. reflexivity.
Qed.

Lemma numberedLine_trimmed (item : string * string) :
  listItem item ->
  trim (numberedLine item) = numberedLine item
  /\ nonEmpty (numberedLine item) = true
  /\ noLF (numberedLine item) = true.
Proof.
  destruct item as [ds q]. unfold listItem, numberedLine. simpl fst. simpl snd.
  intros (Hne & Hds & Hq & Htrim & Hdot).
  destruct (trim_spec q) as (_ & _ & _ & _ & _ & _ & Hend).
  rewrite Htrim in Hend.
  destruct ds as [|d0 ds]; [discriminate |].
  simpl in Hds. apply andb_true_iff in Hds as [Hd0 Hds].
  split; [| split].
  - apply trim_fixed.
    + simpl. now apply digit_not_space.
    + change (String full_stop (String (ascii_of_nat 32) q))
        with (String full_stop (String (ascii_of_nat 32) EmptyString) ++ q).
      rewrite <- append_assoc. now rewrite endsWithSpace_app.
  - reflexivity.
  - apply noLF_of_dot.
    change (String full_stop (String (ascii_of_nat 32) q))
      with (String full_stop (String (ascii_of_nat 32) EmptyString) ++ q).
    rewrite !allChars_app, Hdot. simpl allChars.
    rewrite (digit_is_dot d0 Hd0).
    rewrite (allChars_impl is_digit is_dot ds digit_is_dot Hds). reflexivity.
Qed.

Lemma fold_addLine (lines acc : list string) :
  fold_left addLine lines acc = (acc ++ fold_left addLine lines [])%list.
Proof.
  revert acc. induction lines as [|x lines IH]; intros acc; simpl.
  - now rewrite app_nil_r.
  - rewrite (IH (addLine acc x)), (IH (addLine [] x)).
    rewrite app_assoc. f_equal.
    unfold addLine. destruct (negb (nonEmpty (trim x))); [now rewrite app_nil_r |].
    destruct (nonEmpty _); [reflexivity | now rewrite app_nil_r].
Qed.

Lemma splitLF_join (lines : list string) :
  lines <> [] -> Forall (fun x => noLF x = true) lines ->
  splitLF (join (String LF EmptyString) lines) = lines.
Proof.
  intros Hne H. induction H as [|x l Hx Hl IH]; [contradiction |].
  destruct l as [|y l].
  - simpl. now apply splitLF_noLF.
  - change (join (String LF EmptyString) (x :: y :: l))
      with (x ++ String LF EmptyString ++ join (String LF EmptyString) (y :: l)).
    rewrite splitLF_app, (splitLF_noLF x Hx).
    change (splitLF (String LF EmptyString ++ join (String LF EmptyString) (y :: l)))
      with (EmptyString :: splitLF (join (String LF EmptyString) (y :: l))).
    rewrite IH by discriminate.
    change (glue [x] (EmptyString :: y :: l)) with ((x ++ EmptyString) :: y :: l).
    now rewrite append_empty_r.
Qed.

Lemma addLine_invariant (acc : list string) (line : string) :
  Forall (fun q => nonEmpty q = true /\ trim q = q) acc ->
  Forall (fun q => nonEmpty q = true /\ trim q = q) (addLine acc line).
Proof.
  intros Hacc. unfold addLine.
  destruct (nonEmpty (trim line)) eqn:Hne; simpl; [| exact Hacc].
  destruct (numbered (trim line)) as [group|] eqn:Hnum.
  - destruct (numbered_is_a_match _ _ Hnum)
      as (ds & ws & Hline & _ & _ & _ & Hg & _ & Hstart).
    rewrite Hg. apply Forall_app. split; [exact Hacc |].
    constructor; [| constructor]. split; [exact Hg |].
    destruct (trim_spec line) as (_ & _ & _ & _ & _ & _ & Hend).
    rewrite Hline in Hend.
    change (String full_stop (ws ++ group))
      with (String full_stop ws ++ group) in Hend.
    rewrite <- append_assoc, (endsWithSpace_app _ group Hg) in Hend.
    apply trim_fixed; [| exact Hend].
    destruct Hstart as [Hstart | Hall]; [exact Hstart |].
    rewrite (allSpace_ends group Hall Hg) in Hend. discriminate.
  - rewrite Hne. apply Forall_app. split; [exact Hacc |].
    constructor; [| constructor]. split; [exact Hne | apply trim_idempotent].
Qed.

(** X10. [parseQuestionsFromFile]: every question it returns is not empty
    and has no white space at either end, so the guard [if (question)]
    never drops a line; and a numbered list, one item per line, is read
    back as its questions, whatever the numbers. *)
Theorem parseQuestionsFromFile_reads_numbered_lists (text : string)
    (items : list (string * string)) :
  Forall (fun q => nonEmpty q = true /\ trim q = q) (parseQuestionsFromFile text)
  /\ (Forall listItem items ->
      parseQuestionsFromFile (join (String LF EmptyString) (map numberedLine items))
      = map snd items).
Proof.
  split.
  - unfold parseQuestionsFromFile.
    assert (Hgen : forall lines acc,
               Forall (fun q => nonEmpty q = true /\ trim q = q) acc ->
               Forall (fun q => nonEmpty q = true /\ trim q = q)
                 (fold_left addLine lines acc)).
    { induction lines as [|x lines IH]; intros acc Hacc; simpl; [exact Hacc |].
      apply IH. now apply addLine_invariant. }
    apply Hgen. constructor.
  - intros Hitems. unfold parseQuestionsFromFile.
    destruct items as [|item items]; [reflexivity |].
    rewrite splitLF_join.
    + induction Hitems as [|it its Hit _ IH]; [reflexivity |].
      simpl. rewrite fold_addLine, IH. f_equal.
      unfold addLine.
      destruct (numberedLine_trimmed it Hit) as (Htrim & Hne & _).
      rewrite Htrim, Hne, (numbered_of_line it Hit). simpl.
      destruct Hit as (_ & _ & Hq & _). now rewrite Hq.
    + discriminate.
    + apply List.Forall_forall. intros x Hx.
      apply in_map_iff in Hx as (it & <- & Hin).
      rewrite List.Forall_forall in Hitems.
      now destruct (numberedLine_trimmed it (Hitems it Hin)) as (_ & _ & H).
Qed.

Lemma parseQuestionsFromFile_witness :
  parseQuestionsFromFile
    (join (String LF EmptyString)
       (map numberedLine [("1", "How large is the farm?"); ("2", "2024. A dry year?")]))
  = ["How large is the farm?"; "2024. A dry year?"].
Proof.
  apply (proj2 (parseQuestionsFromFile_reads_numbered_lists EmptyString
                  [("1", "How large is the farm?"); ("2", "2024. A dry year?")])).
  repeat constructor.
Defined.

End GuideFileFacts.

Section UploadForm.
Import JsString UploadAudio.
Local Open Scope string_scope.

Lemma existsb_eqb_false (t : string) (l : list string) :
  existsb (String.eqb t) l = false -> ~ In t l.
Proof.
  induction l as [|x l IH]; simpl; [tauto |].
  intros H. apply orb_false_iff in H as [Hx Hl].
  apply String.eqb_neq in Hx. intros [Heq | Hin]; [congruence | now apply IH].
Qed.

Lemma NoDup_snoc (t : string) (l : list string) :
  List.NoDup l -> ~ In t l -> List.NoDup (l ++ [t]).
Proof.
  intros Hl Ht. apply List.NoDup_app; [exact Hl | constructor; [intros [] | constructor] |].
  intros x Hx [<- | []]. contradiction.
Qed.

Lemma NoDup_filter_strings (p : string -> bool) (l : list string) :
  List.NoDup l -> List.NoDup (List.filter p l).
Proof.
  induction 1 as [|x l Hx _ IH]; simpl; [constructor |].
  destruct (p x); [| exact IH].
  constructor; [| exact IH]. intros Hin. apply filter_In in Hin as [Hin _]. contradiction.
Qed.

(** The tags of the form are distinct and clean whatever happens to it. *)
Lemma step_keeps_tags (f : Form) (e : Event) :
  List.NoDup (tags f) /\ Forall clean (tags f) ->
  List.NoDup (tags (step f e)) /\ Forall clean (tags (step f e)).
Proof.
  intros [Hnd Hcl].
  destruct e as [selected| | | | | | |t|]; simpl; auto.
  - destruct selected; auto.
  - unfold handleAddTag.
    destruct (nonEmpty (trim (tagInput f))) eqn:Hne; simpl; [| auto].
    destruct (existsb (String.eqb (trim (tagInput f))) (tags f)) eqn:Hex; simpl; [auto |].
    split.
    + apply NoDup_snoc; [exact Hnd | now apply existsb_eqb_false].
    + apply Forall_app. split; [exact Hcl |].
      constructor; [| constructor]. split; [exact Hne | apply trim_idempotent].
  - split; [now apply NoDup_filter_strings |].
    apply List.Forall_forall. intros x Hx. apply filter_In in Hx as [Hx _].
    rewrite List.Forall_forall in Hcl. now apply Hcl.
  - split; constructor.
Qed.

Lemma run_keeps_tags (events : list Event) :
  List.NoDup (tags (run events)) /\ Forall clean (tags (run events)).
Proof.
  unfold run.
  assert (Hgen : forall f,
             List.NoDup (tags f) /\ Forall clean (tags f) ->
             List.NoDup (tags (fold_left step events f))
             /\ Forall clean (tags (fold_left step events f))).
  { induction events as [|e events IH]; intros f Hf; simpl; [exact Hf |].
    apply IH. now apply step_keeps_tags. }
  apply Hgen. split; constructor.
Qed.

(** X11. Whatever the user did to the upload form, a request that
    [handleUpload] lets through names a farmer, a village and an
    interviewer that are not blank and carry no white space around them,
    and a date that is not empty; its tags are either absent or a list
    that is not empty, has no tag twice and only tags that are not blank
    and are trimmed. *)
Theorem upload_request_is_clean (events : list Event) (request : UploadRequest) :
  handleUpload (run events) = Requested request ->
  clean (m_farmerName (r_meta request))
  /\ clean (m_village (r_meta request))
  /\ clean (m_interviewer (r_meta request))
  /\ nonEmpty (m_interviewDate (r_meta request)) = true
  /\ match m_tags (r_meta request) with
     | Some sent => sent <> [] /\ List.NoDup sent /\ Forall clean sent
     | None => True
     end.
Proof.
  destruct (run_keeps_tags events) as [Hnd Hcl].
  unfold handleUpload.
  destruct (file (run events)) as [selected|]; [| discriminate].
  destruct (nonEmpty (trim (interviewer (run events)))) eqn:Hi; [| discriminate].
  destruct (nonEmpty (trim (farmerName (run events)))) eqn:Hf; [| discriminate].
  destruct (nonEmpty (trim (village (run events)))) eqn:Hv; [| discriminate].
  destruct (nonEmpty (interviewDate (run events))) eqn:Hd; [| discriminate].
  simpl. intros [= <-]. simpl.
  repeat split; auto using trim_idempotent.
  destruct (tags (run events)) as [|t l]; simpl; [exact I |].
  split; [discriminate | auto].
Qed.

Lemma upload_request_witness :
  nonEmpty
    (m_interviewDate
       (r_meta
          {| r_filename := "a.mp3"; r_size := 10; r_contentType := "audio/mpeg";
             r_meta :=
               {| m_farmerName := "Ravi"; m_village := "Rampur";
                  m_interviewer := "Asha"; m_interviewDate := "2025-01-31";
                  m_tags := Some ["kharif"; "well"];
                  m_notes := "Interviewer: Asha, Date: 2025-01-31" |} |}))
  = true.
Proof.
  apply (upload_request_is_clean
           [ FileChange (Some {| f_name := "a.mp3"; f_size := 10;
                                 f_type := "audio/mpeg" |});
             InterviewerChange " Asha "; FarmerNameChange "Ravi";
             VillageChange "Rampur "; InterviewDateChange "2025-01-31";
             TagInputChange " kharif"; AddTag; TagInputChange "kharif "; AddTag;
             TagInputChange "tmp"; AddTag;
             TagInputChange "well"; AddTag; RemoveTag "tmp" ]).
  reflexivity.
Defined.

End UploadForm.

Section ModalEdits.
Import Types ModalSave ModalEdit Observations.
Local Open Scope string_scope.

Lemma sameButAnswer_refl (l : list AnswerBlock) : Forall2 sameButAnswer l l.
Proof. induction l; constructor; [repeat split | assumption]. Qed.

Lemma sameButResponse_refl (l : list PromptBlock) : Forall2 sameButResponse l l.
Proof. induction l; constructor; [repeat split | assumption]. Qed.

Lemma answer_change_same (index : nat) (value : string) (a : AnswerBlock)
    (edited loaded : list AnswerBlock) :
  edited !! index = Some a ->
  Forall2 sameButAnswer edited loaded ->
  Forall2 sameButAnswer (<[index := withAnswer a value]> edited) loaded.
Proof.
  intros Ha H. revert index Ha.
  induction H as [|x y l k Hxy Hl IH]; intros index Ha; [discriminate |].
  destruct index as [|index]; simpl in *.
  - injection Ha as ->. constructor; [exact Hxy | exact Hl].
  - constructor; [exact Hxy | now apply IH].
Qed.

Lemma response_change_same (index : nat) (value : string) (p : PromptBlock)
    (edited loaded : list PromptBlock) :
  edited !! index = Some p ->
  Forall2 sameButResponse edited loaded ->
  Forall2 sameButResponse (<[index := withResponse p value]> edited) loaded.
Proof.
  intros Hp H. revert index Hp.
  induction H as [|x y l k Hxy Hl IH]; intros index Hp; [discriminate |].
  destruct index as [|index]; simpl in *.
  - injection Hp as ->. constructor; [exact Hxy | exact Hl].
  - constructor; [exact Hxy | now apply IH].
Qed.

Lemma edits_keep_answers (es : list Edit) (answers cur edited : list AnswerBlock)
    (curp changed : list PromptBlock) :
  Forall2 sameButAnswer cur answers ->
  edits es cur curp = Some (edited, changed) ->
  Forall2 sameButAnswer edited answers.
Proof.
  revert cur curp.
  induction es as [|[index value | index value] es IH]; intros cur curp Hcur H;
    simpl in H.
  - now injection H as <- _.
  - unfold handleAnswerChange in H.
    destruct (cur !! index) as [a|] eqn:Ha; [| discriminate].
    apply (IH (<[index := withAnswer a value]> cur) curp); [| exact H].
    now apply answer_change_same.
  - destruct (handlePromptResponseChange index value curp) as [l|]; [| discriminate].
    now apply (IH cur l).
Qed.

Lemma edits_keep_prompts (es : list Edit) (cur edited : list AnswerBlock)
    (prompts curp changed : list PromptBlock) :
  Forall2 sameButResponse curp prompts ->
  edits es cur curp = Some (edited, changed) ->
  Forall2 sameButResponse changed prompts.
Proof.
  revert cur curp.
  induction es as [|[index value | index value] es IH]; intros cur curp Hcur H;
    simpl in H.
  - now injection H as _ <-.
  - destruct (handleAnswerChange index value cur) as [l|]; [| discriminate].
    now apply (IH l curp).
  - unfold handlePromptResponseChange in H.
    destruct (curp !! index) as [p|] eqn:Hp; [| discriminate].
    apply (IH cur (<[index := withResponse p value]> curp)); [| exact H].
    now apply response_change_same.
Qed.

(** X12. Editing in the modal changes answer texts and prompt responses
    and nothing else: after any series of edits of rendered blocks the
    lists have their length, every answer block its question, quotes and
    reasoning, and every prompt its index and text. A last edit of an
    answer is what the block then shows. *)
Theorem edits_change_texts_only (es : list Edit) (answers edited : list AnswerBlock)
    (prompts changed : list PromptBlock) :
  edits es answers prompts = Some (edited, changed) ->
  Forall2 sameButAnswer edited answers
  /\ Forall2 sameButResponse changed prompts
  /\ length edited = length answers /\ length changed = length prompts
  /\ (forall index value before,
        es = (before ++ [AnswerChange index value])%list ->
        answer <$> edited !! index = Some value).
Proof.
  intros Hrun.
  pose proof (edits_keep_answers es answers answers edited prompts changed
                (sameButAnswer_refl answers) Hrun) as Ha.
  pose proof (edits_keep_prompts es answers edited prompts prompts changed
                (sameButResponse_refl prompts) Hrun) as Hp.
  split; [exact Ha |]. split; [exact Hp |].
  split; [exact (Forall2_length _ _ _ Ha) |].
  split; [exact (Forall2_length _ _ _ Hp) |].
  intros index value before ->. clear Ha Hp. revert answers prompts Hrun.
  induction before as [|[i v | i v] before IH]; intros cur curp H; simpl in H.
  - unfold handleAnswerChange in H.
    destruct (cur !! index) as [a|] eqn:Ha; [| discriminate].
    injection H as <- _.
    rewrite list_lookup_insert_eq by (eapply lookup_lt_Some; exact Ha).
    reflexivity.
  - destruct (handleAnswerChange i v cur) as [l|]; [| discriminate].
    now apply (IH l curp).
  - destruct (handlePromptResponseChange i v curp) as [l|]; [| discriminate].
    now apply (IH cur l).
Qed.

Lemma edits_change_texts_only_witness :
  Forall2 sameButAnswer
    [Fixtures.answerOf "Q1" "A1"; Fixtures.answerOf "Q2" "corrected"]
    [Fixtures.answerOf "Q1" "A1"; Fixtures.answerOf "Q2" "A2"].
Proof.
  apply (proj1 (edits_change_texts_only
                  [AnswerChange 1 "correct"; AnswerChange 1 "corrected"]
                  [Fixtures.answerOf "Q1" "A1"; Fixtures.answerOf "Q2" "A2"]
                  [Fixtures.answerOf "Q1" "A1"; Fixtures.answerOf "Q2" "corrected"]
                  [] [] eq_refl)).
Defined.

End ModalEdits.

Section PollRequests.
Import Azure PollTrace.
Local Open Scope Z_scope.

Variable getTranscript : Z -> Outcome TranscriptResponse.
Variable getTranslation : Z -> Outcome TranscriptResponse.
Variable maxAttempts : Z.
Variable intervalMs : Z.

Lemma pollOne_set (get : Z -> Outcome TranscriptResponse) (a : Z) (k : nat)
    (current : option string) :
  isSet current = true -> pollOne get a k current = (current, []).
Proof. intros H. destruct k; simpl; [| rewrite H]; reflexivity. Qed.

Lemma transcriptCalls_app (l1 l2 : list Event) :
  transcriptCalls (l1 ++ l2) = (transcriptCalls l1 ++ transcriptCalls l2)%list.
Proof. unfold transcriptCalls. apply omap_app. Qed.

Lemma translationCalls_app (l1 l2 : list Event) :
  translationCalls (l1 ++ l2) = (translationCalls l1 ++ translationCalls l2)%list.
Proof. unfold translationCalls. apply omap_app. Qed.

(** One round for the transcript is one round of [pollOne]. *)
Lemma tryGet_transcript (a : Z) (current : option string) (k : nat) :
  let '(next, evs) :=
    tryGet current (CallGetTranscript (a + 1)) (getTranscript (a + 1))
           "Hindi transcript ready" in
  translationCalls evs = []
  /\ pollOne getTranscript a (S k) current
     = (fst (pollOne getTranscript (a + 1) k next),
        (transcriptCalls evs ++ snd (pollOne getTranscript (a + 1) k next))%list).
Proof.
  unfold tryGet. simpl pollOne.
  destruct (isSet current) eqn:Hset.
  - split; [reflexivity |]. now rewrite (pollOne_set _ _ _ _ Hset).
  - destruct (readyData (getTranscript (a + 1))) as [d|] eqn:Hd.
    + split; [reflexivity |].
      now rewrite (pollOne_set _ _ _ _ (readyData_isSet _ _ Hd)).
    + split; [reflexivity |].
      destruct (pollOne getTranscript (a + 1) k current). reflexivity.
Qed.

Lemma tryGet_translation (a : Z) (current : option string) (k : nat) :
  let '(next, evs) :=
    tryGet current (CallGetTranslation (a + 1)) (getTranslation (a + 1))
           "English translation ready" in
  transcriptCalls evs = []
  /\ pollOne getTranslation a (S k) current
     = (fst (pollOne getTranslation (a + 1) k next),
        (translationCalls evs ++ snd (pollOne getTranslation (a + 1) k next))%list).
Proof.
  unfold tryGet. simpl pollOne.
  destruct (isSet current) eqn:Hset.
  - split; [reflexivity |]. now rewrite (pollOne_set _ _ _ _ Hset).
  - destruct (readyData (getTranslation (a + 1))) as [d|] eqn:Hd.
    + split; [reflexivity |].
      now rewrite (pollOne_set _ _ _ _ (readyData_isSet _ _ Hd)).
    + split; [reflexivity |].
      destruct (pollOne getTranslation (a + 1) k current). reflexivity.
Qed.

(** The loop polls each text as if it were alone; the two polls share
    the number of rounds and nothing else. *)
Lemma pollLoop_decomposes (fuel : nat) (a : Z) (h e : option string)
    (r : Transcripts) (n : Z) (evs : list Event) :
  pollLoop getTranscript getTranslation maxAttempts intervalMs fuel a h e
  = Some (r, n, evs) ->
  a <= n
  /\ (hindiTranscript r, transcriptCalls evs)
     = pollOne getTranscript a (Z.to_nat (n - a)) h
  /\ (englishTranscript r, translationCalls evs)
     = pollOne getTranslation a (Z.to_nat (n - a)) e.
Proof.
  revert a h e r n evs.
  induction fuel as [|fuel IH]; intros a h e r n evs; simpl.
  - destruct (Z.ltb a maxAttempts); [discriminate |].
    intros [= <- <- <-]. rewrite Z.sub_diag. simpl. auto with zarith.
  - destruct (Z.ltb a maxAttempts).
    2:{ intros [= <- <- <-]. rewrite Z.sub_diag. simpl. auto with zarith. }
    pose proof (tryGet_transcript a h) as Ht.
    pose proof (tryGet_translation a e) as He.
    destruct (tryGet h (CallGetTranscript (a + 1)) (getTranscript (a + 1))
                     "Hindi transcript ready") as [h' ev1].
    destruct (tryGet e (CallGetTranslation (a + 1)) (getTranslation (a + 1))
                     "English translation ready") as [e' ev2].
    destruct (isSet h' && isSet e') eqn:Hboth.
    + intros [= <- <- <-]. simpl hindiTranscript. simpl englishTranscript.
      replace (Z.to_nat (a + 1 - a)) with 1%nat by lia.
      destruct (Ht 0%nat) as [Ht1 Ht2]. destruct (He 0%nat) as [He1 He2].
      rewrite transcriptCalls_app, translationCalls_app, Ht1, He1, Ht2, He2.
      simpl. rewrite !app_nil_r. auto with zarith.
    + destruct (pollLoop getTranscript getTranslation maxAttempts intervalMs
                         fuel (a + 1) h' e') as [[[r' n'] evs']|] eqn:Hrec;
        [| discriminate].
      intros [= <- <- <-].
      destruct (IH _ _ _ _ _ _ Hrec) as (Hle & Hh & Hen).
      replace (Z.to_nat (n' - a)) with (S (Z.to_nat (n' - (a + 1)))) by lia.
      destruct (Ht (Z.to_nat (n' - (a + 1)))) as [Ht1 Ht2].
      destruct (He (Z.to_nat (n' - (a + 1)))) as [He1 He2].
      rewrite Ht2, He2, <- Hh, <- Hen.
      rewrite !transcriptCalls_app, !translationCalls_app, Ht1, He1.
      split; [lia |]. split; reflexivity.
Qed.

(** A text polled alone asks at consecutive attempts, stops asking at
    the first answer that is ready, and ends with the data of that
    answer. *)
Lemma pollOne_spec (get : Z -> Outcome TranscriptResponse) (k : nat) (a : Z) :
  exists m,
    0 <= m <= Z.of_nat k
    /\ snd (pollOne get a k None) = seqZ (a + 1) m
    /\ (forall j, a < j < a + m -> readyData (get j) = None)
    /\ match fst (pollOne get a k None) with
       | Some d => 0 < m /\ readyData (get (a + m)) = Some d
       | None => m = Z.of_nat k /\ forall j, a < j <= a + m -> readyData (get j) = None
       end.
Proof.
  revert a. induction k as [|k IH]; intros a.
  - exists 0. simpl pollOne. cbn [fst snd].
    split; [lia |]. split; [reflexivity |]. split; [intros j Hj; lia |].
    split; [reflexivity | intros j Hj; lia].
  - simpl pollOne. destruct (readyData (get (a + 1))) as [d|] eqn:Hd.
    + exists 1. cbn [fst snd].
      split; [lia |]. split; [reflexivity |]. split; [intros j Hj; lia |].
      split; [lia | exact Hd].
    + destruct (IH (a + 1)) as (m & Hm & Hcalls & Hnone & Hres).
      destruct (pollOne get (a + 1) k None) as [t calls]. simpl in *.
      exists (m + 1). split; [lia |]. split; [| split].
      * rewrite (seqZ_cons (a + 1) (m + 1)) by lia.
        rewrite Hcalls. f_equal. f_equal; lia.
      * intros j Hj. destruct (Z.eq_dec j (a + 1)) as [-> | Hne]; [exact Hd |].
        apply Hnone. lia.
      * destruct t as [d|].
        -- destruct Hres as [Hpos Hready]. split; [lia |].
           now replace (a + (m + 1)) with (a + 1 + m) by lia.
        -- destruct Hres as [-> Hall]. split; [lia |].
           intros j Hj. destruct (Z.eq_dec j (a + 1)) as [-> | Hne]; [exact Hd |].
           apply Hall. lia.
Qed.

End PollRequests.

Section PollRequestsResult.
Import Azure PollTrace.
Local Open Scope Z_scope.

(** X13. [pollForTranscripts] asks for each text at the attempts 1, 2, ...
    in turn and never again once an answer was ready with data: the text
    it returns is the data of the first such answer, later answers are
    not requested, and a text that is still missing at the end was asked
    for in every one of the [n] rounds. *)
Theorem pollForTranscripts_asks_until_ready
    (getTranscript getTranslation : Z -> Outcome TranscriptResponse)
    (maxAttempts intervalMs : option Z)
    (r : Transcripts) (n : Z) (evs : list Event) :
  pollForTranscripts getTranscript getTranslation maxAttempts intervalMs
  = Some (r, n, evs) ->
  (exists m, 0 <= m <= n
     /\ transcriptCalls evs = seqZ 1 m
     /\ (forall j, 0 < j < m -> readyData (getTranscript j) = None)
     /\ match hindiTranscript r with
        | Some d => 0 < m /\ readyData (getTranscript m) = Some d
        | None => m = n
        end)
  /\ (exists m, 0 <= m <= n
        /\ translationCalls evs = seqZ 1 m
        /\ (forall j, 0 < j < m -> readyData (getTranslation j) = None)
        /\ match englishTranscript r with
           | Some d => 0 < m /\ readyData (getTranslation m) = Some d
           | None => m = n
           end).
Proof.
  unfold pollForTranscripts, pollFrom. intros Hrun.
  destruct (pollLoop_decomposes _ _ _ _ _ _ _ _ _ _ _ Hrun) as (Hn & Hh & He).
  rewrite Z.sub_0_r in Hh, He.
  split.
  - destruct (pollOne_spec getTranscript (Z.to_nat n) 0)
      as (m & Hm & Hcalls & Hnone & Hres).
    rewrite <- Hh in Hcalls, Hres. simpl in Hcalls, Hres.
    exists m. split; [lia |]. split; [exact Hcalls |]. split.
    + intros j Hj. apply Hnone. lia.
    + destruct (hindiTranscript r); [exact Hres | lia].
  - destruct (pollOne_spec getTranslation (Z.to_nat n) 0)
      as (m & Hm & Hcalls & Hnone & Hres).
    rewrite <- He in Hcalls, Hres. simpl in Hcalls, Hres.
    exists m. split; [lia |]. split; [exact Hcalls |]. split.
    + intros j Hj. apply Hnone. lia.
    + destruct (englishTranscript r); [exact Hres | lia].
Qed.

Lemma pollForTranscripts_asks_witness :
  exists m, 0 <= m <= 3
    /\ transcriptCalls PollSamples.flakyTrace = seqZ 1 m
    /\ (forall j, 0 < j < m -> readyData (Fixtures.flakyTranscript j) = None)
    /\ match hindiTranscript PollSamples.flakyResult with
       | Some d => 0 < m /\ readyData (Fixtures.flakyTranscript m) = Some d
       | None => m = 3
       end.
Proof.
  apply (proj1 (pollForTranscripts_asks_until_ready
                  Fixtures.flakyTranscript Fixtures.flakyTranslation None None
                  PollSamples.flakyResult 3 PollSamples.flakyTrace eq_refl)).
Defined.

End PollRequestsResult.

Section AdminSelect.
Import JsString Types AdminFilters.
Local Open Scope string_scope.











End AdminSelect.

Section BlobUploadFacts.
Import JsString Azure UploadAudio BlobUpload.
Local Open Scope string_scope.
Local Arguments String.append !_ _ / : simpl nomatch.

Lemma endsWith_iff (s suffix : string) :
  endsWith s suffix = true <-> exists pre, s = pre ++ suffix.
Proof.
  induction s as [|c s IH].
  - destruct suffix as [|a suffix]; simpl.
    + split; [intros _; now exists EmptyString | reflexivity].
    + split; [discriminate |].
      intros [pre H]. symmetry in H. apply append_eq_empty in H as [_ H].
      discriminate.
  - change (endsWith (String c s) suffix)
      with (String.eqb (String c s) suffix || endsWith s suffix).
    rewrite orb_true_iff, String.eqb_eq, IH. split.
    + intros [<- | [pre ->]]; [now exists EmptyString | now exists (String c pre)].
    + intros [pre H]. symmetry in H.
      destruct (append_eq_cons _ _ _ _ H) as [[_ ->] | (pre' & _ & ->)];
        [left; reflexivity | right; eauto].
Qed.

Lemma blank_type_header (file : File) :
  nonEmpty (trim (f_type file)) = false ->
  contentTypeOf file
  = if nonEmpty (f_name file) && endsWith (toLowerCase (f_name file)) ".txt"
    then "text/plain" else "application/octet-stream".
Proof.
  unfold contentTypeOf. intros H. apply nonEmpty_false in H.
  rewrite H, String.eqb_refl, orb_true_r. reflexivity.
Qed.

(** X15. [uploadToSAS] never sends a blank [Content-Type]: a file type
    that is not blank is sent as it is, and a missing or blank one is
    replaced by [text/plain] when the file name ends with [.txt] in any
    letter case, and by [application/octet-stream] otherwise. The upload
    returns normally exactly when the storage answers with a success
    status, whatever the body, and it never complains about the base
    URL, which it does not use. *)
Theorem uploadToSAS_content_type_never_blank (file : File) (fetched : FetchResult) :
  nonEmpty (trim (fst (uploadToSAS file fetched))) = true
  /\ (nonEmpty (trim (f_type file)) = true -> fst (uploadToSAS file fetched) = f_type file)
  /\ (nonEmpty (trim (f_type file)) = false ->
      ((exists pre, toLowerCase (f_name file) = pre ++ ".txt") ->
       fst (uploadToSAS file fetched) = "text/plain")
      /\ (~ (exists pre, toLowerCase (f_name file) = pre ++ ".txt") ->
          fst (uploadToSAS file fetched) = "application/octet-stream"))
  /\ (snd (uploadToSAS file fetched) = Returned tt
      <-> exists response, fetched = Resolved response /\ ok response = true)
  /\ snd (uploadToSAS file fetched) <> Thrown ConfigError.
Proof.
  unfold uploadToSAS. cbn [fst snd]. split; [| split; [| split; [| split]]].
  - unfold contentTypeOf.
    destruct (f_type file) as [|c t] eqn:Ht.
    + simpl. destruct (nonEmpty (f_name file) && _); reflexivity.
    + cbn [nonEmpty negb orb].
      destruct (String.eqb_spec (trim (String c t)) EmptyString) as [Heq | Hne].
      * destruct (nonEmpty (f_name file) && _); reflexivity.
      * destruct (trim (String c t)); [contradiction | reflexivity].
  - unfold contentTypeOf. intros H.
    destruct (f_type file) as [|c t]; [discriminate |].
    cbn [nonEmpty negb orb].
    destruct (String.eqb_spec (trim (String c t)) EmptyString) as [Heq | _];
      [| reflexivity].
    rewrite Heq in H. discriminate.
  - intros Hblank. rewrite (blank_type_header file Hblank). split.
    + intros Htxt. pose proof Htxt as [pre Hpre].
      apply endsWith_iff in Htxt. rewrite Htxt, andb_true_r.
      destruct (f_name file) as [|c name]; [| reflexivity].
      simpl in Hpre. symmetry in Hpre. apply append_eq_empty in Hpre as [_ Hpre].
      discriminate.
    + intros Hno.
      destruct (endsWith (toLowerCase (f_name file)) ".txt") eqn:He.
      * apply endsWith_iff in He. contradiction.
      * now rewrite andb_false_r.
  - split.
    + destruct fetched as [| e | response]; try discriminate.
      destruct (ok response) eqn:Hok; [| discriminate]. eauto.
    + intros (response & -> & ->). reflexivity.
  - destruct fetched as [| e | response]; try discriminate.
    destruct (ok response); discriminate.
Qed.

Lemma uploadToSAS_witness :
  fst (uploadToSAS {| f_name := "notes.TXT"; f_size := 12; f_type := " " |}
                   FailedToFetch)
  = "text/plain".
Proof.
  apply (proj1 (proj2 (proj2 (uploadToSAS_content_type_never_blank
                                {| f_name := "notes.TXT"; f_size := 12;
                                   f_type := " " |} FailedToFetch)))).
  - reflexivity.
  - exists "notes". reflexivity.
Defined.

End BlobUploadFacts.
